(** * Quote recommendation core of quote-service: similarity scoring,
      weighted selection and the similarity cache.

    Shallow embedding of
      - src/services/SimilarityEngine.ts
      - src/repositories/QuoteRepository.ts (getWeightedRandom, findAll, ...)
      - src/services/CacheService.ts  (getSimilarQuotes, setSimilarQuotes,
                                       invalidateQuote, invalidateRandomQuotes)
      - src/services/QuoteService.ts  (getSimilarQuotes, likeQuote)

    Conventions of the embedding.
      - A JavaScript string is a [string]: a sequence of code units in the
        range U+0000..U+00FF (Latin-1).  [toLowerCase], [trim] and the
        character classes of the regular expressions are the JavaScript ones
        restricted to that range.
      - A JavaScript number that holds a count or an index is a [Z] or a
        [nat]; a number that holds a score is a rational [Q]: arithmetic is
        exact, IEEE-754 rounding is not modelled.
      - Promises are elided: every [await] is sequential in the source.
      - A thrown [QuoteServiceError] is the [Throw] case of [Result]. *)

From Stdlib Require Import ZArith QArith Qminmax Lqa Lia List Ascii String Bool.
From Stdlib Require Import Sorting.Sorted.
From stdpp Require Import gmap strings list.

Local Open Scope string_scope.
Local Open Scope Z_scope.

(** ** JavaScript strings *)

Module JsString.

(** [String.prototype.toLowerCase] on one Latin-1 code unit: A-Z and
    U+00C0..U+00DE (except the multiplication sign U+00D7) move by 32. *)
Definition lowerChar (c : ascii) : ascii :=
  let n := N_of_ascii c in
  if ((65 <=? n) && (n <=? 90))%N
     || ((192 <=? n) && (n <=? 222) && negb (n =? 215))%N
  then ascii_of_N (n + 32) else c.

Fixpoint toLowerCase (s : string) : string :=
  match s with
  | EmptyString => EmptyString
  | String c r => String (lowerChar c) (toLowerCase r)
  end.

(** White space of [trim] and of the class [\s]: TAB, LF, VT, FF, CR,
    SPACE and NBSP. *)
Definition isSpace (c : ascii) : bool :=
  let n := N_of_ascii c in
  (((9 <=? n) && (n <=? 13)) || (n =? 32) || (n =? 160))%N.

(** The class [\w]: [A-Za-z0-9_]. *)
Definition isWord (c : ascii) : bool :=
  let n := N_of_ascii c in
  (((65 <=? n) && (n <=? 90)) || ((97 <=? n) && (n <=? 122))
   || ((48 <=? n) && (n <=? 57)) || (n =? 95))%N.

Fixpoint trimStart (s : string) : string :=
  match s with
  | EmptyString => EmptyString
  | String c r => if isSpace c then trimStart r else s
  end.

Fixpoint trimEnd (s : string) : string :=
  match s with
  | EmptyString => EmptyString
  | String c r =>
      let t := trimEnd r in
      if isSpace c && String.eqb t EmptyString then EmptyString
      else String c t
  end.

Definition trim (s : string) : string := trimEnd (trimStart s).

(** [s.includes(t)]: [t] occurs in [s] as a contiguous substring. *)
Fixpoint includes (s t : string) : bool :=
  String.prefix t s
  || match s with
     | EmptyString => false
     | String _ r => includes r t
     end.

(** [s.replace(/[^\w\s]/g, '')]. *)
Fixpoint removePunctuation (s : string) : string :=
  match s with
  | EmptyString => EmptyString
  | String c r =>
      if isWord c || isSpace c then String c (removePunctuation r)
      else removePunctuation r
  end.

(** [s.split(/\s+/)]: [cur] is the piece being read, [inSep] tells that
    the previous code unit belonged to a separator.  A separator at either
    end of the string yields an empty piece there, as in JavaScript. *)
Fixpoint splitLoop (s cur : string) (inSep : bool) : list string :=
  match s with
  | EmptyString => [cur]
  | String c r =>
      if isSpace c then
        if inSep then splitLoop r cur true
        else cur :: splitLoop r EmptyString true
      else splitLoop r (cur ++ String c EmptyString) false
  end.

Definition splitWhitespace (s : string) : list string :=
  splitLoop s EmptyString false.

(** [s[i]]: [None] is [undefined]. *)
Definition charAt (s : string) (i : nat) : option ascii := String.get i s.

End JsString.

(** ** JavaScript arrays of strings and [Set] *)

Module JsArray.

(** [arr.includes(x)]. *)
Definition includes (arr : list string) (x : string) : bool :=
  existsb (String.eqb x) arr.

(** [arr.indexOf(x)], counting from [i]; -1 when absent. *)
Fixpoint indexOfFrom (i : Z) (arr : list string) (x : string) : Z :=
  match arr with
  | [] => -1
  | y :: r => if String.eqb y x then i else indexOfFrom (i + 1) r x
  end.

Definition indexOf (arr : list string) (x : string) : Z :=
  indexOfFrom 0 arr x.

(** [arr.filter((x, index) => p x index)], with [i] the index of the head. *)
Fixpoint filterIndexed (p : string -> Z -> bool) (i : Z) (l : list string)
  : list string :=
  match l with
  | [] => []
  | x :: r =>
      if p x i then x :: filterIndexed p (i + 1) r
      else filterIndexed p (i + 1) r
  end.

(** [new Set(arr)] spread back into an array: the elements in order of
    first insertion. *)
Definition setAdd (s : list string) (x : string) : list string :=
  if includes s x then s else s ++ [x].

Definition newSet (arr : list string) : list string :=
  fold_left setAdd arr [].

(** [arr.slice(0, end)]: a negative [end] counts from the end of the
    array. *)
Definition slice0 {A} (arr : list A) (end_ : Z) : list A :=
  if end_ <? 0 then firstn (Z.to_nat (Z.of_nat (List.length arr) + end_)) arr
  else firstn (Z.to_nat end_) arr.

(** A stable sort, as [Array.prototype.sort] is since ECMAScript 2019
    and as the result of a stable sort is determined by the order alone:
    [inFront a b] tells that [a] may stay in front of [b] (the comparator is
    not positive).  An entry is inserted in front of the first entry it may
    stay in front of, the entries being taken from the last to the first. *)
Fixpoint sortInsert {A} (inFront : A -> A -> bool) (x : A) (l : list A)
  : list A :=
  match l with
  | [] => [x]
  | y :: r => if inFront x y then x :: y :: r
              else y :: sortInsert inFront x r
  end.

Definition sort {A} (inFront : A -> A -> bool) (l : list A) : list A :=
  fold_right (sortInsert inFront) [] l.

End JsArray.

(** ** Data model (src/types/index.ts) *)

Inductive Source := quotable | dummyjson | internal.

Record Quote := mkQuote {
  id : string;
  text : string;
  author : string;
  tags : option (list string);      (* tags?: string[] *)
  likes : Z;
  source : Source;
  createdAt : Z;                    (* Date, as milliseconds *)
  updatedAt : Z
}.

Record SimilarityScore := mkSimilarityScore {
  quote : Quote;
  score : Q
}.

Inductive ErrorCode :=
| QUOTE_NOT_FOUND | EXTERNAL_API_ERROR | VALIDATION_ERROR
| RATE_LIMIT_EXCEEDED | DATABASE_ERROR.

Record QuoteServiceError := mkError {
  code : ErrorCode;
  statusCode : Z
}.

Inductive Result (A : Type) :=
| Ok (a : A)
| Throw (e : QuoteServiceError).
Arguments Ok {A} a.
Arguments Throw {A} e.

Definition isThrow {A} (r : Result A) : bool :=
  match r with Ok _ => false | Throw _ => true end.

(** ** SimilarityEngine (src/services/SimilarityEngine.ts) *)

Module SimilarityEngine.

Local Open Scope Q_scope.

Definition MINIMUM_SIMILARITY_SCORE : Q := 8 # 100.
Definition KEYWORD_WEIGHT : Q := 4 # 10.
Definition SEMANTIC_WEIGHT : Q := 6 # 10.

(** Counts and lengths enter the arithmetic as numbers. *)
Definition num (n : nat) : Q := inject_Z (Z.of_nat n).

(** [a > b] on numbers. *)
Definition Qgtb (a b : Q) : bool := negb (Qle_bool a b).

Definition stopWords : list string :=
  ["the"; "a"; "an"; "and"; "or"; "but"; "in"; "on"; "at"; "to"; "for"; "of";
   "with"; "by"; "is"; "are"; "was"; "were"; "be"; "been"; "being"; "have";
   "has"; "had"; "do"; "does"; "did"; "will"; "would"; "could"; "should";
   "may"; "might"; "must"; "can"; "shall"; "this"; "that"; "these"; "those";
   "i"; "you"; "he"; "she"; "it"; "we"; "they"; "me"; "him"; "her"; "us";
   "them"; "my"; "your"; "his"; "her"; "its"; "our"; "their"; "not"; "no";
   "yes"]%string.

Definition extractKeywords (text : string) : list string :=
  let words :=
    List.filter
      (fun word => (2 <? String.length word)%nat
                   && negb (JsArray.includes stopWords word))
      (JsString.splitWhitespace
         (JsString.removePunctuation (JsString.toLowerCase text))) in
  JsArray.filterIndexed
    (fun word index => (JsArray.indexOf words word =? index)%Z) 0%Z words.

Definition calculateKeywordSimilarity (quote1 quote2 : Quote) : Q :=
  let keywords1 := extractKeywords (text quote1) in
  let keywords2 := extractKeywords (text quote2) in
  if (length keywords1 =? 0)%nat && (length keywords2 =? 0)%nat then 0
  else
    let intersection :=
      List.filter (fun keyword => JsArray.includes keywords2 keyword)
                  keywords1 in
    let union := JsArray.newSet (keywords1 ++ keywords2) in
    num (length intersection) / num (length union).

(** The matrix of [calculateLevenshteinDistance]: rows of cells, a cell is
    [null] ([None]) or a number. *)
Abbreviation Matrix := (list (list (option Z))).

(** [matrix[j][i]] read as a number: [null] counts as 0 in arithmetic.
    Every read of the algorithm is inside the matrix. *)
Definition mget (m : Matrix) (j i : nat) : Z :=
  match m !! j with
  | Some row => match row !! i with Some (Some v) => v | _ => 0%Z end
  | None => 0%Z
  end.

(** [matrix[j][i] = v]. *)
Definition mset (m : Matrix) (j i : nat) (v : Z) : Matrix :=
  alter (fun row => <[i := Some v]> row) j m.

Definition indicator (c1 c2 : option ascii) : Z :=
  if decide (c1 = c2) then 0%Z else 1%Z.

Definition min3 (a b c : Z) : Z := Z.min (Z.min a b) c.

Definition calculateLevenshteinDistance (str1 str2 : string) : Z :=
  let n1 := String.length str1 in
  let n2 := String.length str2 in
  let matrix : Matrix := replicate (S n2) (replicate (S n1) None) in
  let matrix :=
    fold_left (fun m i => mset m 0 i (Z.of_nat i)) (seq 0 (S n1)) matrix in
  let matrix :=
    fold_left (fun m j => mset m j 0 (Z.of_nat j)) (seq 0 (S n2)) matrix in
  let matrix :=
    fold_left
      (fun m j =>
         fold_left
           (fun m i =>
              let ind := indicator (JsString.charAt str1 (i - 1))
                                   (JsString.charAt str2 (j - 1)) in
              mset m j i
                (min3 (mget m j (i - 1) + 1)
                      (mget m (j - 1) i + 1)
                      (mget m (j - 1) (i - 1) + ind))%Z)
           (seq 1 n1) m)
      (seq 1 n2) matrix in
  mget matrix n2 n1.

Definition calculateAuthorSimilarity (author1 author2 : string) : Q :=
  let name1 := JsString.trim (JsString.toLowerCase author1) in
  let name2 := JsString.trim (JsString.toLowerCase author2) in
  if String.eqb name1 name2 then 1
  else if JsString.includes name1 name2 || JsString.includes name2 name1
  then 8 # 10
  else
    let maxLength := Nat.max (String.length name1) (String.length name2) in
    let distance := calculateLevenshteinDistance name1 name2 in
    Qmax 0 ((num maxLength - inject_Z distance) / num maxLength).

Definition calculateTagSimilarity (tags1 tags2 : list string) : Q :=
  if (length tags1 =? 0)%nat && (length tags2 =? 0)%nat then 5 # 10
  else if (length tags1 =? 0)%nat || (length tags2 =? 0)%nat then 0
  else
    let normalizedTags1 := map JsString.toLowerCase tags1 in
    let normalizedTags2 := map JsString.toLowerCase tags2 in
    let intersection :=
      List.filter (fun tag => JsArray.includes normalizedTags2 tag)
                  normalizedTags1 in
    let union := JsArray.newSet (normalizedTags1 ++ normalizedTags2) in
    num (length intersection) / num (length union).

Definition calculateLengthSimilarity (text1 text2 : string) : Q :=
  let len1 := String.length text1 in
  let len2 := String.length text2 in
  let maxLength := Nat.max len1 len2 in
  let minLength := Nat.min len1 len2 in
  if (maxLength =? 0)%nat then 1 else num minLength / num maxLength.

(** The author block of [calculateSemanticSimilarity] (lines 88-97): the
    value of [semanticScore] after it, from its value before. *)
Definition authorBlock (semanticScore authorWeight : Q) (quote1 quote2 : Quote)
  : Q :=
  if String.eqb (JsString.toLowerCase (author quote1))
                (JsString.toLowerCase (author quote2))
  then semanticScore + (9 # 10) * authorWeight
  else
    let authorSim := calculateAuthorSimilarity (author quote1) (author quote2) in
    if Qgtb authorSim (7 # 10) then semanticScore + authorSim * authorWeight
    else semanticScore.

(** [tags || []]. *)
Definition tagsOrEmpty (q : Quote) : list string :=
  match tags q with Some t => t | None => [] end.

Definition calculateSemanticSimilarity (quote1 quote2 : Quote) : Q :=
  let semanticScore := 0 in
  let totalWeight := 0 in
  let authorWeight := 5 # 10 in
  let semanticScore := authorBlock semanticScore authorWeight quote1 quote2 in
  let totalWeight := totalWeight + authorWeight in
  let tagWeight := 3 # 10 in
  let tagSimilarity :=
    calculateTagSimilarity (tagsOrEmpty quote1) (tagsOrEmpty quote2) in
  let semanticScore := semanticScore + tagSimilarity * tagWeight in
  let totalWeight := totalWeight + tagWeight in
  let lengthWeight := 2 # 10 in
  let lengthSimilarity :=
    calculateLengthSimilarity (text quote1) (text quote2) in
  let semanticScore := semanticScore + lengthSimilarity * lengthWeight in
  let totalWeight := totalWeight + lengthWeight in
  if Qgtb totalWeight 0 then semanticScore / totalWeight else 0.

Definition calculateOverallSimilarity (quote1 quote2 : Quote) : Q :=
  let keywordSimilarity := calculateKeywordSimilarity quote1 quote2 in
  let semanticSimilarity := calculateSemanticSimilarity quote1 quote2 in
  keywordSimilarity * KEYWORD_WEIGHT + semanticSimilarity * SEMANTIC_WEIGHT.

(** [similarities.sort((a, b) => b.score - a.score)]: [a] stays in front of
    [b] when the comparator is not positive. *)
Definition sortByScoreDesc (l : list SimilarityScore) : list SimilarityScore :=
  JsArray.sort (fun a b => Qle_bool (score b - score a) 0) l.

(** One turn of the [for] loop of [findSimilarQuotes]. *)
Definition considerCandidate (targetQuote : Quote)
    (similarities : list SimilarityScore) (candidate : Quote)
  : list SimilarityScore :=
  if String.eqb (id candidate) (id targetQuote) then similarities
  else
    let score := calculateOverallSimilarity targetQuote candidate in
    if Qle_bool MINIMUM_SIMILARITY_SCORE score
    then similarities ++ [mkSimilarityScore candidate score]
    else similarities.

Definition findSimilarQuotes (targetQuote : Quote)
    (candidateQuotes : list Quote) (limit : Z) : list SimilarityScore :=
  let similarities :=
    fold_left (considerCandidate targetQuote) candidateQuotes [] in
  JsArray.slice0 (sortByScoreDesc similarities) limit.

End SimilarityEngine.

(** ** Collaborators: Math.random, Prisma and Redis *)

(** A computation that may call [Math.random()]: either it returns without
    a draw, or it draws a number of [0, 1) and goes on. *)
Inductive Rand (A : Type) :=
| Ret (a : A)
| MathRandom (k : Q -> Rand A).
Arguments Ret {A} a.
Arguments MathRandom {A} k.

(** Runs a computation on the sequence of numbers [Math.random] returns. *)
Fixpoint runRand {A} (m : Rand A) (draws : nat -> Q) : A :=
  match m with
  | Ret a => a
  | MathRandom k => runRand (k (draws O)) (fun n => draws (S n))
  end.


Inductive PrismaOp := FindUnique | FindMany | Count | Update.
Inductive RedisOp := RedisGet | RedisSet | RedisDel.

(** Which calls to the collaborators are rejected during a request. *)
Record Env := mkEnv {
  prismaFails : PrismaOp -> bool;
  redisFails : RedisOp -> bool
}.

(** A row of the table [quote_similarities]. *)
Record SimilarityRow := mkSimilarityRow {
  quoteId : string;
  similarQuoteId : string;
  similarityScore : Q
}.

(** The value under a Redis key: the list a [similar:] key holds, or the
    payload of another kind of key, which nothing here reads. *)
Inductive CacheValue :=
| SimilarEntry (l : list SimilarityScore)
| OtherEntry.

(** The stores: the two tables of the database and the Redis key space.
    A row of the table [quotes] is kept as the [Quote] that
    [transformPrismaQuote] makes of it, and a Redis value as the data its
    JSON text denotes.  Expiry of Redis keys is not modelled: an entry stays
    until deleted. *)
Record World := mkWorld {
  quoteTable : list Quote;
  similarityTable : list SimilarityRow;
  redis : gmap string CacheValue
}.

(** ** QuoteRepository (src/repositories/QuoteRepository.ts) *)

Module QuoteRepository.

Definition databaseError : QuoteServiceError := mkError DATABASE_ERROR 500.
Definition notFoundError : QuoteServiceError := mkError QUOTE_NOT_FOUND 404.

Record WeightedRandomOptions := mkOptions {
  excludeIds : option (list string);
  minLikes : option Z
}.

(** [orderBy: { likes: 'desc' }]; rows of equal likes keep the table order. *)
Definition orderByLikesDesc (rows : list Quote) : list Quote :=
  JsArray.sort (fun a b => (likes b <=? likes a)%Z) rows.

Definition findById (env : Env) (w : World) (id_ : string)
  : Result (option Quote) :=
  if prismaFails env FindUnique then Throw databaseError
  else Ok (List.find (fun q => String.eqb (id q) id_) (quoteTable w)).

Definition exists_ (env : Env) (w : World) (id_ : string) : Result bool :=
  if prismaFails env Count then Throw databaseError
  else
    let count :=
      length (List.filter (fun q => String.eqb (id q) id_) (quoteTable w)) in
    Ok (0 <? count)%nat.

Definition findAll (env : Env) (w : World) : Result (list Quote) :=
  if prismaFails env FindMany then Throw databaseError
  else Ok (orderByLikesDesc (quoteTable w)).



(** The query of [getWeightedRandom]: [where] likes >= minLikes and id not
    in excludeIds, [orderBy] likes descending. *)
Definition findManyCandidates (w : World) (minLikes : Z)
    (excludeIds : list string) : list Quote :=
  orderByLikesDesc
    (List.filter
       (fun q => (minLikes <=? likes q)%Z
                 && negb (JsArray.includes excludeIds (id q)))
       (quoteTable w)).

(** The [for] loop of [getWeightedRandom]: [None] when it ends without a
    [return]. *)
Fixpoint selectLoop (random : Q) (currentWeight : Z)
    (quotes : list Quote) (weights : list Z) : option Quote :=
  match quotes, weights with
  | q :: quotes', w :: weights' =>
      let currentWeight := (currentWeight + w)%Z in
      if Qle_bool random (inject_Z currentWeight) then Some q
      else selectLoop random currentWeight quotes' weights'
  | _, _ => None
  end.

Definition getWeightedRandom (env : Env) (w : World)
    (options : WeightedRandomOptions) : Rand (Result (option Quote)) :=
  let excludeIds := default [] (excludeIds options) in
  let minLikes := default 0%Z (minLikes options) in
  if prismaFails env FindMany then Ret (Throw databaseError)
  else
    let quotes := findManyCandidates w minLikes excludeIds in
    if (length quotes =? 0)%nat then Ret (Ok None)
    else if (length quotes =? 1)%nat then Ret (Ok (quotes !! O))
    else
      let weights := map (fun q => (likes q + 1)%Z) quotes in
      let totalWeight := fold_left Z.add weights 0%Z in
      MathRandom (fun u =>
        let random := (u * inject_Z totalWeight)%Q in
        match selectLoop random 0 quotes weights with
        | Some q => Ret (Ok (Some q))
        | None => Ret (Ok (last quotes))
        end).

(** The persistent store of similarities: [getCachedSimilarities] reads the
    rows of one quote, best score first. *)
Definition getCachedSimilarities (env : Env) (w : World) (quoteId_ : string)
    (limit : Z) : Result (list SimilarityScore) :=
  if prismaFails env FindMany then Throw databaseError
  else
    let rows :=
      JsArray.sort
        (fun a b => Qle_bool (similarityScore b) (similarityScore a))
        (List.filter (fun r => String.eqb (quoteId r) quoteId_)
                     (similarityTable w)) in
    Ok (omap
          (fun r =>
             match List.find (fun q => String.eqb (id q) (similarQuoteId r))
                             (quoteTable w) with
             | Some q => Some (mkSimilarityScore q (similarityScore r))
             | None => None
             end)
          (firstn (Z.to_nat limit) rows)).

End QuoteRepository.

(** ** CacheService (src/services/CacheService.ts) *)

Module CacheService.

Definition QUOTE_PREFIX : string := "quote:".
Definition SIMILAR_QUOTES_PREFIX : string := "similar:".

(** [null] is [None]; a rejected Redis call is caught and reported as
    [null]. *)
Definition getSimilarQuotes (env : Env) (w : World) (quoteId_ : string)
  : option (list SimilarityScore) :=
  if redisFails env RedisGet then None
  else
    match redis w !! (SIMILAR_QUOTES_PREFIX ++ quoteId_)%string with
    | Some (SimilarEntry l) => Some l
    | _ => None
    end.

Definition setSimilarQuotes (env : Env) (w : World) (quoteId_ : string)
    (similarQuotes : list SimilarityScore) : World :=
  if redisFails env RedisSet then w
  else
    mkWorld (quoteTable w) (similarityTable w)
      (<[(SIMILAR_QUOTES_PREFIX ++ quoteId_)%string :=
           SimilarEntry similarQuotes]> (redis w)).

(** Both deletions are in one [try]: a rejected call leaves the store as
    it is. *)
Definition invalidateQuote (env : Env) (w : World) (id_ : string) : World :=
  if redisFails env RedisDel then w
  else
    mkWorld (quoteTable w) (similarityTable w)
      (delete (SIMILAR_QUOTES_PREFIX ++ id_)%string
         (delete (QUOTE_PREFIX ++ id_)%string (redis w))).


End CacheService.

(** ** QuoteService (src/services/QuoteService.ts) *)

Module QuoteService.

Definition validationError : QuoteServiceError := mkError VALIDATION_ERROR 400.

(** [!id || typeof id !== 'string' || id.trim().length === 0]. *)
Definition blankId (id_ : string) : bool :=
  (String.length (JsString.trim id_) =? 0)%nat.

Definition getSimilarQuotes (env : Env) (w : World) (id_ : string)
    (limit : Z) : Result (list SimilarityScore) * World :=
  if blankId id_ then (Throw validationError, w)
  else if (limit <=? 0)%Z || (50 <? limit)%Z then (Throw validationError, w)
  else
    let trimmedId := JsString.trim id_ in
    match QuoteRepository.findById env w trimmedId with
    | Throw e => (Throw e, w)
    | Ok None => (Throw QuoteRepository.notFoundError, w)
    | Ok (Some targetQuote) =>
        let cachedSimilarities := CacheService.getSimilarQuotes env w trimmedId in
        match cachedSimilarities with
        | Some (c :: cs) => (Ok (JsArray.slice0 (c :: cs) limit), w)
        | _ =>
            match QuoteRepository.findAll env w with
            | Throw e => (Throw e, w)
            | Ok allQuotes =>
                let similarities :=
                  SimilarityEngine.findSimilarQuotes targetQuote allQuotes
                                                     limit in
                let w := CacheService.setSimilarQuotes env w trimmedId
                                                       similarities in
                (Ok similarities, w)
            end
        end
    end.


End QuoteService.

(** ** The scoring formula and the edit distance as the specification
       words them *)

Module Spec.

Import SimilarityEngine.
Local Open Scope Q_scope.

(** The classic dynamic-programming edit distance with unit costs:
    [prefixDistance a b i j] is the distance between the first [i] code
    units of [a] and the first [j] code units of [b], by the recurrence
    D(0,j) = j, D(i,0) = i,
    D(i,j) = min (D(i-1,j) + 1, D(i,j-1) + 1, D(i-1,j-1) + [a_i <> b_j]). *)
Fixpoint prefixDistance (a b : string) (i : nat) : nat -> Z :=
  match i with
  | O => fun j => Z.of_nat j
  | S i' =>
      fix row (j : nat) : Z :=
        match j with
        | O => Z.of_nat (S i')
        | S j' =>
            min3 (prefixDistance a b i' (S j') + 1)
                 (row j' + 1)
                 (prefixDistance a b i' j'
                  + indicator (JsString.charAt a i') (JsString.charAt b j'))%Z
        end
  end.

Definition editDistance (a b : string) : Z :=
  prefixDistance a b (String.length a) (String.length b).

(** The normalized name of an author: lower-cased and trimmed. *)
Definition normalized (name : string) : string :=
  JsString.trim (JsString.toLowerCase name).

(** [t] occurs in [s] as a contiguous substring. *)
Definition isSubstring (t s : string) : Prop :=
  exists pre post : string, s = (pre ++ t ++ post)%string.

(** Jaccard coefficient of two sets. *)
Definition jaccard (X Y : gset string) : Q :=
  num (size (X ∩ Y)) / num (size (X ∪ Y)).

Definition keywords (q : Quote) : gset string :=
  list_to_set (extractKeywords (text q)).

Definition tagSet (q : Quote) : gset string :=
  list_to_set (map JsString.toLowerCase (tagsOrEmpty q)).

Definition keywordSim (q1 q2 : Quote) : Q :=
  if decide (keywords q1 = ∅ /\ keywords q2 = ∅) then 0
  else jaccard (keywords q1) (keywords q2).

(** What the author sub-score contributes to the weighted sum. *)
Definition authorContribution (q1 q2 : Quote) : Q :=
  if decide (JsString.toLowerCase (author q1) = JsString.toLowerCase (author q2))
  then (9 # 10) * (5 # 10)
  else if Qlt_le_dec (7 # 10) (calculateAuthorSimilarity (author q1) (author q2))
  then calculateAuthorSimilarity (author q1) (author q2) * (5 # 10)
  else 0.

Definition tagSubScore (q1 q2 : Quote) : Q :=
  match tagsOrEmpty q1, tagsOrEmpty q2 with
  | [], [] => 5 # 10
  | [], _ :: _ | _ :: _, [] => 0
  | _ :: _, _ :: _ => jaccard (tagSet q1) (tagSet q2)
  end.

Definition lengthSubScore (q1 q2 : Quote) : Q :=
  let l1 := String.length (text q1) in
  let l2 := String.length (text q2) in
  if decide (l1 = O /\ l2 = O) then 1
  else num (Nat.min l1 l2) / num (Nat.max l1 l2).

Definition semanticSim (q1 q2 : Quote) : Q :=
  (authorContribution q1 q2
   + tagSubScore q1 q2 * (3 # 10)
   + lengthSubScore q1 q2 * (2 # 10))
  / ((5 # 10) + (3 # 10) + (2 # 10)).

Definition overall (q1 q2 : Quote) : Q :=
  keywordSim q1 q2 * (4 # 10) + semanticSim q1 q2 * (6 # 10).

(** A quote whose tags form a set of lower-case strings: once lower-cased,
    no tag occurs twice. *)
Definition tagsFormSet (q : Quote) : Prop :=
  NoDup (map JsString.toLowerCase (tagsOrEmpty q)).

(** The entry a candidate of the pool gets in the ranking of [target], if
    any: none for the target itself and none below the threshold. *)
Definition scored (target candidate : Quote) : option SimilarityScore :=
  if String.eqb (id candidate) (id target) then None
  else if Qle_bool MINIMUM_SIMILARITY_SCORE
                   (calculateOverallSimilarity target candidate)
       then Some (mkSimilarityScore candidate
                    (calculateOverallSimilarity target candidate))
       else None.

(** The comparator of the ranking, as an order: [a] may stay in front of
    [b]. *)
Definition byScoreDesc (a b : SimilarityScore) : bool :=
  Qle_bool (score b - score a) 0.

(** The entries of score [s]. *)
Definition hasScore (s : Q) (e : SimilarityScore) : bool :=
  Qeq_bool (score e) s.

(** The candidates of the pool, other than the target, whose similarity to
    the target is [s]. *)
Definition candidateWithScore (target : Quote) (s : Q) (c : Quote) : bool :=
  negb (String.eqb (id c) (id target))
  && Qeq_bool (calculateOverallSimilarity target c) s.



End Spec.

(** ** Invariants of the matrix of [calculateLevenshteinDistance] *)

Module MatrixInvariant.

Import SimilarityEngine.

(** A matrix of [rows] rows of [cols] cells. *)
Definition wellShaped (rows cols : nat) (m : Matrix) : Prop :=
  length m = rows /\ forall j row, m !! j = Some row -> length row = cols.

(** The cells of the region [R] hold the distances of the recurrence. *)
Definition filled (str1 str2 : string) (R : nat -> nat -> Prop) (m : Matrix)
  : Prop :=
  wellShaped (S (String.length str2)) (S (String.length str1)) m
  /\ forall j i,
      (j <= String.length str2)%nat -> (i <= String.length str1)%nat ->
      R j i -> mget m j i = Spec.prefixDistance str1 str2 i j.

End MatrixInvariant.

(** ** The cache protocol as the specification words it *)

Module Claimed.

(** An environment in which no call to a collaborator is rejected. *)
Definition reliable : Env := mkEnv (fun _ => false) (fun _ => false).

(** The entry of the ephemeral tier (Redis) for a target. *)
Definition ephemeralEntry (w : World) (targetId : string) : option CacheValue :=
  redis w !! (CacheService.SIMILAR_QUOTES_PREFIX ++ targetId)%string.

(** The entry of the persistent tier (table [quote_similarities]) for a
    target, as [getCachedSimilarities] reads it; empty when absent. *)
Definition persistentEntry (w : World) (targetId : string)
  : list SimilarityScore :=
  match QuoteRepository.getCachedSimilarities
          reliable w targetId (Z.of_nat (length (similarityTable w))) with
  | Ok l => l
  | Throw _ => []
  end.

(** The read path of the specification: ephemeral tier first; on a miss
    the persistent tier, whose entry is served and copied to the ephemeral
    tier; on a miss in both, the result is computed and written to both. *)
Definition twoTierReadPath (w : World) (targetId : string) (limit : Z)
  : Prop :=
  let result := fst (QuoteService.getSimilarQuotes reliable w targetId limit) in
  let w' := snd (QuoteService.getSimilarQuotes reliable w targetId limit) in
  match ephemeralEntry w targetId with
  | Some (SimilarEntry (e :: l)) =>
      result = Ok (JsArray.slice0 (e :: l) limit)
  | _ =>
      match persistentEntry w targetId with
      | e :: l =>
          result = Ok (JsArray.slice0 (e :: l) limit)
          /\ ephemeralEntry w' targetId = Some (SimilarEntry (e :: l))
      | [] =>
          exists computed,
            result = Ok computed
            /\ ephemeralEntry w' targetId = Some (SimilarEntry computed)
            /\ persistentEntry w' targetId = computed
      end
  end.

(** The entry the ephemeral tier holds for a target after a request. *)
Definition entryWrittenBy (w : World) (targetId : string) (limit : Z)
  : option CacheValue :=
  ephemeralEntry
    (snd (QuoteService.getSimilarQuotes reliable w targetId limit)) targetId.

(** The entry written does not depend on the limit of the request that
    triggers the computation. *)
Definition storedAtCanonicalLimit (w : World) (targetId : string) : Prop :=
  forall limit1 limit2 : Z,
    (1 <= limit1 <= 50)%Z -> (1 <= limit2 <= 50)%Z ->
    entryWrittenBy w targetId limit1 = entryWrittenBy w targetId limit2.


(** The target is a quote of the table. *)
Definition knownId (w : World) (id_ : string) : Prop :=
  exists q, q ∈ quoteTable w /\ id q = JsString.trim id_.

(** A request fails exactly when the caller breaks the contract: a limit
    outside 1..50 or an unknown target. *)
Definition errorsOnlyOnContractBreach (env : Env) (w : World)
    (id_ : string) (limit : Z) : Prop :=
  isThrow (fst (QuoteService.getSimilarQuotes env w id_ limit)) = true
  <-> ((limit < 1)%Z \/ (50 < limit)%Z \/ ~ knownId w id_).

(** The same stores with other rows in the table [quote_similarities]. *)
Definition withSimilarityTable (w : World) (rows : list SimilarityRow)
  : World :=
  mkWorld (quoteTable w) rows (redis w).

(** [cachedSimilarities && cachedSimilarities.length > 0]. *)
Definition cacheHit (env : Env) (w : World) (targetId : string) : bool :=
  match CacheService.getSimilarQuotes env w targetId with
  | Some (_ :: _) => true
  | _ => false
  end.

(** The arguments pass the checks of [getSimilarQuotes]. *)
Definition validRequest (id_ : string) (limit : Z) : bool :=
  negb (QuoteService.blankId id_) && (1 <=? limit)%Z && (limit <=? 50)%Z.

End Claimed.

(** ** Sample data *)

Module Sample.

Definition quoteOf (id_ text_ author_ : string) (tags_ : list string)
    (likes_ : Z) : Quote :=
  mkQuote id_ text_ author_ (Some tags_) likes_ internal 0 0.

Definition hardWork : Quote :=
  quoteOf "q1" "Hard work beats talent" "Tim Notke" ["work"; "talent"] 5.

Definition talent : Quote :=
  quoteOf "q2" "Talent without hard work is nothing" "tim notke " ["work"] 0.

Definition greatWork : Quote :=
  quoteOf "q3" "The only way to do great work is to love what you do."
          "Steve Jobs" ["work"; "passion"] 10.

Definition zebras : Quote :=
  quoteOf "q4" "Zebras gallop through purple meadows under moonlight."
          "Fantasy Author" [] 1.

Definition pool : list Quote := [greatWork; hardWork; talent; zebras].

(** The quotes in the table, nothing cached in either tier. *)
Definition world : World := mkWorld pool [] ∅.

(** The same, with a row of the table [quote_similarities] for "q1". *)
Definition worldWithRow : World :=
  mkWorld pool [mkSimilarityRow "q1" "q2" (3 # 4)] ∅.

(** The database rejects [findMany]; everything else works. *)
Definition poolFetchFails : Env :=
  mkEnv (fun op => match op with FindMany => true | _ => false end)
        (fun _ => false).

End Sample.

(** ** More of JavaScript strings *)

Module JsText.

(** Every code unit of [s] satisfies [p]. *)
Fixpoint allChars (p : ascii -> bool) (s : string) : bool :=
  match s with
  | EmptyString => true
  | String c r => p c && allChars p r
  end.

(** The code units a keyword is made of: a-z, 0-9 and the underscore. *)
Definition isKeywordChar (c : ascii) : bool :=
  let n := N_of_ascii c in
  (((97 <=? n) && (n <=? 122)) || ((48 <=? n) && (n <=? 57)) || (n =? 95))%N.

(** [s.replace(/\s+/g, by)]: every maximal run of white space becomes
    [by]; [inRun] tells that the previous code unit was white space. *)
Fixpoint replaceRuns (by_ : string) (s : string) (inRun : bool) : string :=
  match s with
  | EmptyString => EmptyString
  | String c r =>
      if JsString.isSpace c then
        if inRun then replaceRuns by_ r true
        else (by_ ++ replaceRuns by_ r true)%string
      else String c (replaceRuns by_ r false)
  end.

Definition replaceWhitespace (by_ : string) (s : string) : string :=
  replaceRuns by_ s false.

(** Strings without white space. *)
Definition spaceFree (s : string) : bool :=
  allChars (fun c => negb (JsString.isSpace c)) s.

(** Strings in which white space occurs as single spaces between other
    code units only; [afterSpace] tells that the code unit in front of [s]
    is a space.  [singleSpaced true s] holds for the non-empty strings
    without white space at either end whose runs of white space are single
    spaces. *)
Fixpoint singleSpaced (afterSpace : bool) (s : string) : bool :=
  match s with
  | EmptyString => negb afterSpace
  | String c r =>
      if JsString.isSpace c
      then Ascii.eqb c " " && negb afterSpace && singleSpaced true r
      else singleSpaced false r
  end.

(** A tag in normal form: 1 to 50 code units, no white space, lower
    case. *)
Definition cleanTag (t : string) : Prop :=
  (1 <= String.length t <= 50)%nat
  /\ spaceFree t = true
  /\ JsString.toLowerCase t = t.

End JsText.

(** ** Sanitizers (src/utils/quoteTransformers.ts, src/utils/database.ts) *)

Module QuoteTransformers.

Definition validationError : QuoteServiceError := mkError VALIDATION_ERROR 400.

(** [sanitizeQuoteText] and [sanitizeAuthorName] differ in the greatest
    length only: 1000 and 200. *)
Definition sanitizeLine (maxLength : nat) (line : string) : Result string :=
  if (String.length line =? 0)%nat then Throw validationError
  else
    let sanitized :=
      JsText.replaceWhitespace " " (JsString.trim line) in
    if (String.length sanitized =? 0)%nat then Throw validationError
    else if (maxLength <? String.length sanitized)%nat
         then Throw validationError
         else Ok sanitized.

Definition sanitizeQuoteText (text : string) : Result string :=
  sanitizeLine 1000 text.

Definition sanitizeAuthorName (author : string) : Result string :=
  sanitizeLine 200 author.

(** An element of an array of unknown content: a string or something
    else. *)
Inductive JsItem :=
| ItemString (s : string)
| ItemOther.

(** The argument [tags: unknown] of [sanitizeTags]: a falsy value, a truthy
    value that is no array, or an array. *)
Inductive TagsInput :=
| TagsFalsy
| TagsNotArray
| TagsArray (items : list JsItem).

(** One turn of the [for] loop of [sanitizeTags]. *)
Definition sanitizeTagStep (sanitizedTags : list string) (tag : JsItem)
  : list string :=
  match tag with
  | ItemString tag =>
      if (0 <? String.length (JsString.trim tag))%nat then
        let sanitizedTag :=
          JsText.replaceWhitespace
            "-" (JsString.toLowerCase (JsString.trim tag)) in
        if (String.length sanitizedTag <=? 50)%nat
           && negb (JsArray.includes sanitizedTags sanitizedTag)
        then sanitizedTags ++ [sanitizedTag]
        else sanitizedTags
      else sanitizedTags
  | ItemOther => sanitizedTags
  end.

Definition sanitizeTags (tags : TagsInput) : Result (list string) :=
  match tags with
  | TagsFalsy => Ok []
  | TagsNotArray => Throw validationError
  | TagsArray items =>
      Ok (JsArray.slice0 (fold_left sanitizeTagStep items []) 10)
  end.

End QuoteTransformers.

Module DatabaseUtils.

(** [sanitizeTags] of src/utils/database.ts, which [QuoteRepository] uses:
    [undefined] is [None]. *)
Definition sanitizeTags (tags : option (list string)) : option (list string) :=
  match tags with
  | None => None
  | Some tags =>
      Some (JsArray.slice0
              (map (fun tag => JsString.toLowerCase (JsString.trim tag))
                   (List.filter
                      (fun tag => (0 <? String.length (JsString.trim tag))%nat)
                      tags))
              10)
  end.

End DatabaseUtils.

(** ** More of the repository, the cache and the service *)

From Stdlib Require Import Qround.

(** Calls to the collaborators besides those of [PrismaOp] and [RedisOp]. *)
Inductive ExtraOp := FindFirst | DeleteMany | CreateMany | RedisKeys.

(** An environment with the outcome of those calls too. *)
Record Faults := mkFaults {
  baseEnv : Env;
  extraFails : ExtraOp -> bool
}.

Module QuoteRepositoryMore.

Import QuoteRepository.



Definition withSimilarityRows (w : World) (rows : list SimilarityRow) : World :=
  mkWorld (quoteTable w) rows (redis w).

(** The constraints of the table [quote_similarities] on a [createMany]
    into a table without rows for [quoteId]: both ids refer to rows of the
    table [quotes], and no pair (quote_id, similar_quote_id) occurs
    twice. *)
Definition rowsAccepted (w : World) (rows : list SimilarityRow) : bool :=
  forallb
    (fun r =>
       JsArray.includes (map id (quoteTable w)) (quoteId r)
       && JsArray.includes (map id (quoteTable w)) (similarQuoteId r))
    rows
  && bool_decide (NoDup (map similarQuoteId rows)).

(** The row [cacheSimilarities] writes for one entry of a ranking. *)
Definition rowOf (quoteId_ : string) (similarity : SimilarityScore)
  : SimilarityRow :=
  mkSimilarityRow quoteId_ (id (quote similarity)) (score similarity).

(** [cacheSimilarities]: [deleteMany] the rows of the quote, then
    [createMany] the new ones; the two calls are not in a transaction. *)
Definition cacheSimilarities (f : Faults) (w : World) (quoteId_ : string)
    (similarities : list SimilarityScore) : Result unit * World :=
  if extraFails f DeleteMany then (Throw databaseError, w)
  else
    let w :=
      withSimilarityRows w
        (List.filter (fun r => negb (String.eqb (quoteId r) quoteId_))
                     (similarityTable w)) in
    if (0 <? length similarities)%nat then
      let similarityData := map (rowOf quoteId_) similarities in
      if extraFails f CreateMany || negb (rowsAccepted w similarityData)
      then (Throw databaseError, w)
      else (Ok tt, withSimilarityRows w (similarityTable w ++ similarityData))
    else (Ok tt, w).

(** [clearCachedSimilarities]: the rows with the quote on either side. *)
Definition clearCachedSimilarities (f : Faults) (w : World)
    (quoteId_ : string) : Result unit * World :=
  if extraFails f DeleteMany then (Throw databaseError, w)
  else
    (Ok tt,
     withSimilarityRows w
       (List.filter
          (fun r => negb (String.eqb (quoteId r) quoteId_
                          || String.eqb (similarQuoteId r) quoteId_))
          (similarityTable w))).

End QuoteRepositoryMore.

Module CacheServiceMore.

Import CacheService.

(** [invalidateAllSimilarQuotes]: [keys('similar:*')], then [del] of the
    keys found, if any. *)
Definition invalidateAllSimilarQuotes (f : Faults) (w : World) : World :=
  if extraFails f RedisKeys then w
  else
    let keys :=
      List.filter (String.prefix SIMILAR_QUOTES_PREFIX)
                  (map fst (map_to_list (redis w))) in
    if (0 <? length keys)%nat then
      if redisFails (baseEnv f) RedisDel then w
      else
        mkWorld (quoteTable w) (similarityTable w)
                (fold_right (fun key store => delete key store) (redis w) keys)
    else w.

End CacheServiceMore.

Module QuoteServiceMore.

Import QuoteService.

Definition getQuoteById (env : Env) (w : World) (id_ : string)
  : Result (option Quote) :=
  if blankId id_ then Throw validationError
  else QuoteRepository.findById env w (JsString.trim id_).

(** [quoteExists] catches every failure and answers [false]. *)
Definition quoteExists (env : Env) (w : World) (id_ : string) : bool :=
  if blankId id_ then false
  else
    match QuoteRepository.exists_ env w (JsString.trim id_) with
    | Ok b => b
    | Throw _ => false
    end.

End QuoteServiceMore.


(** ** ExternalAPIClient (src/services/ExternalAPIClient.ts) *)

Fixpoint mapRand {A B} (f : A -> B) (m : Rand A) : Rand B :=
  match m with
  | Ret a => Ret (f a)
  | MathRandom k => MathRandom (fun u => mapRand f (k u))
  end.

Fixpoint bindRand {A B} (m : Rand A) (f : A -> Rand B) : Rand B :=
  match m with
  | Ret a => f a
  | MathRandom k => MathRandom (fun u => bindRand (k u) f)
  end.

(** How many numbers a computation draws on a given sequence. *)
Fixpoint drawsUsed {A} (m : Rand A) (draws : nat -> Q) : nat :=
  match m with
  | Ret _ => O
  | MathRandom k => S (drawsUsed (k (draws O)) (fun n => draws (S n)))
  end.

Module QuotableResponse.
Record t := mk {
  _id : string;
  content : string;
  author : string;
  tags : list string
}.
End QuotableResponse.

Module DummyJSONResponse.
Record t := mk {
  id : Z;
  quote : string;
  author : string
}.
End DummyJSONResponse.

Module ExternalQuote.
Record t := mk {
  _id : option string;
  id : option Z;
  content : option string;
  quote : option string;
  author : string;
  tags : option (list string)
}.
End ExternalQuote.

(** The entries of Redis under the prefix [external:]. *)
Abbreviation ExternalCache := (gmap string ExternalQuote.t).

Module ExternalCacheService.

Definition EXTERNAL_API_PREFIX : string := "external:".

Definition getExternalApiResponse (env : Env) (cache : ExternalCache)
    (apiKey : string) : option ExternalQuote.t :=
  if redisFails env RedisGet then None
  else cache !! (EXTERNAL_API_PREFIX ++ apiKey)%string.

Definition setExternalApiResponse (env : Env) (cache : ExternalCache)
    (apiKey : string) (response : ExternalQuote.t) : ExternalCache :=
  if redisFails env RedisSet then cache
  else <[(EXTERNAL_API_PREFIX ++ apiKey)%string := response]> cache.

End ExternalCacheService.

Module ExternalAPIClient.

Import ExternalCacheService.

Definition maxRetries : Z := 3.
Definition baseDelay : Z := 1000.

(** What one HTTP request gives: the body of the response, or the error
    the promise is rejected with. *)
Inductive Attempt (A E : Type) :=
| Response (data : A)
| Rejected (error : E).
Arguments Response {A E} data.
Arguments Rejected {A E} error.

(** [retryWithBackoff(operation, attempt)].  [operation n] is what the
    call made at attempt [n] gives; the result comes with the delays slept,
    in milliseconds and in order.  The recursion of the source ends because
    [attempt] grows up to [maxRetries]; here it is on [fuel], and [None]
    says that the fuel ran out first. *)
Fixpoint retryFrom {A E} (fuel : nat) (operation : Z -> Attempt A E)
    (attempt : Z) : Rand (option (Attempt A E * list Q)) :=
  match operation attempt with
  | Response data => Ret (Some (Response data, []))
  | Rejected error =>
      if (maxRetries <=? attempt)%Z then Ret (Some (Rejected error, []))
      else
        MathRandom (fun u =>
          let delay :=
            (inject_Z (baseDelay * 2 ^ (attempt - 1)) + u * 1000)%Q in
          match fuel with
          | O => Ret None
          | S fuel =>
              mapRand
                (option_map (fun '(outcome, sleeps) =>
                               (outcome, delay :: sleeps)))
                (retryFrom fuel operation (attempt + 1))
          end)
  end.

Definition retryWithBackoff {A E} (operation : Z -> Attempt A E)
  : Rand (option (Attempt A E * list Q)) :=
  retryFrom (Z.to_nat maxRetries) operation 1.

Definition externalApiError : QuoteServiceError :=
  mkError EXTERNAL_API_ERROR 503.

(** What a fetch leaves: its result, the cache afterwards, the number of
    HTTP requests made and the delays slept between them. *)
Record Fetch := mkFetch {
  fetched : Result ExternalQuote.t;
  cacheAfter : ExternalCache;
  requests : nat;
  sleeps : list Q
}.

Definition fromQuotable (data : QuotableResponse.t) : ExternalQuote.t :=
  ExternalQuote.mk (Some (QuotableResponse._id data)) None
                   (Some (QuotableResponse.content data)) None
                   (QuotableResponse.author data)
                   (Some (QuotableResponse.tags data)).

Definition fromDummyJSON (data : DummyJSONResponse.t) : ExternalQuote.t :=
  ExternalQuote.mk None (Some (DummyJSONResponse.id data))
                   None (Some (DummyJSONResponse.quote data))
                   (DummyJSONResponse.author data) None.

(** The body shared by [fetchFromQuotable] and [fetchFromDummyJSON]: the
    cached response if there is one, else the request with its retries,
    whose response is cached; a failure of the request is an
    EXTERNAL_API_ERROR. *)
Definition fetchFrom {A E} (cacheKey : string) (convert : A -> ExternalQuote.t)
    (env : Env) (cache : ExternalCache) (operation : Z -> Attempt A E)
  : Rand (option Fetch) :=
  match getExternalApiResponse env cache cacheKey with
  | Some cached => Ret (Some (mkFetch (Ok cached) cache O []))
  | None =>
      mapRand
        (option_map (fun '(outcome, sleeps) =>
           match outcome with
           | Response data =>
               let externalQuote := convert data in
               mkFetch (Ok externalQuote)
                       (setExternalApiResponse env cache cacheKey
                                               externalQuote)
                       (S (length sleeps)) sleeps
           | Rejected _ =>
               mkFetch (Throw externalApiError) cache
                       (S (length sleeps)) sleeps
           end))
        (retryWithBackoff operation)
  end.

Definition fetchFromQuotable {E} :=
  @fetchFrom QuotableResponse.t E "quotable_random" fromQuotable.

Definition fetchFromDummyJSON {E} :=
  @fetchFrom DummyJSONResponse.t E "dummyjson_random" fromDummyJSON.

(** [fetchRandomQuote]: quotable.io first, dummyjson.com when that
    throws. *)
Definition fetchRandomQuote {E} (env : Env) (cache : ExternalCache)
    (quotable : Z -> Attempt QuotableResponse.t E)
    (dummyJSON : Z -> Attempt DummyJSONResponse.t E)
  : Rand (option Fetch) :=
  bindRand (fetchFromQuotable env cache quotable) (fun first =>
    match first with
    | None => Ret None
    | Some first =>
        match fetched first with
        | Ok _ => Ret (Some first)
        | Throw _ =>
            mapRand
              (option_map (fun second =>
                 mkFetch
                   match fetched second with
                   | Ok externalQuote => Ok externalQuote
                   | Throw _ => Throw externalApiError
                   end
                   (cacheAfter second)
                   (requests first + requests second)
                   (sleeps first ++ sleeps second)))
              (fetchFromDummyJSON env (cacheAfter first) dummyJSON)
        end
    end).

End ExternalAPIClient.

(** ** RateLimitService (src/services/RateLimitService.ts) *)

Module RateLimitService.

Record RateLimitOptions := mkRateLimitOptions {
  windowMs : Z;
  max : Z
}.

Record RateLimitInfo := mkRateLimitInfo {
  totalHits : Z;
  totalHitsRemaining : Z;
  resetTime : Z;
  infoWindowMs : Z
}.

(** The sorted sets of Redis, one for each key.  [incrementCounter] adds
    the member [now.toString()] with the score [now]: a member is the
    decimal notation of its score, so a sorted set is the set of its
    scores, the times of [Date.now()] in milliseconds. *)
Abbreviation SortedSets := (gmap string (gset Z)).

Definition keyGenerator (identifier : string) : string :=
  ("rate_limit:" ++ identifier)%string.

Definition members (store : SortedSets) (key : string) : gset Z :=
  default ∅ (store !! key).

(** [zCount(key, windowStart, '+inf')]. *)
Definition zCount (store : SortedSets) (key : string) (windowStart : Z) : Z :=
  Z.of_nat (size (filter (fun t => (windowStart <= t)%Z) (members store key))).

(** [getCurrentCount] answers 0 when the call to Redis fails. *)
Definition getCurrentCount (redisDown : bool) (store : SortedSets)
    (key : string) (windowStart : Z) : Z :=
  if redisDown then 0%Z else zCount store key windowStart.

Definition rateLimitExceeded : QuoteServiceError :=
  mkError RATE_LIMIT_EXCEEDED 429.

(** [checkRateLimit]: [now] and [later] are the two readings of
    [Date.now()], for the start of the window and for the reset time. *)
Definition checkRateLimit (redisDown : bool) (store : SortedSets)
    (identifier : string) (opts : RateLimitOptions) (now later : Z)
  : Result RateLimitInfo :=
  let key := keyGenerator identifier in
  let windowStart := (now - windowMs opts)%Z in
  let currentCount := getCurrentCount redisDown store key windowStart in
  let resetTime := (later + windowMs opts)%Z in
  let rateLimitInfo :=
    mkRateLimitInfo currentCount (Z.max 0 (max opts - currentCount))
                    resetTime (windowMs opts) in
  if (max opts <=? currentCount)%Z then Throw rateLimitExceeded
  else Ok rateLimitInfo.

(** [incrementCounter]: in one transaction, [zRemRangeByScore(key, 0,
    windowStart)] and [zAdd] of the current time; a failure is logged and
    leaves the store as it is. *)
Definition incrementCounter (redisDown : bool) (store : SortedSets)
    (identifier : string) (opts : RateLimitOptions) (now : Z) : SortedSets :=
  let key := keyGenerator identifier in
  let windowStart := (now - windowMs opts)%Z in
  if redisDown then store
  else
    let kept :=
      filter (fun t => ~ (0 <= t <= windowStart)%Z) (members store key) in
    <[key := kept ∪ {[now]}]> store.

Definition resetRateLimit (redisDown : bool) (store : SortedSets)
    (identifier : string) : SortedSets :=
  if redisDown then store else delete (keyGenerator identifier) store.

Definition getRateLimitStatus (redisDown : bool) (store : SortedSets)
    (identifier : string) (opts : RateLimitOptions) (now later : Z)
  : RateLimitInfo :=
  let key := keyGenerator identifier in
  let windowStart := (now - windowMs opts)%Z in
  let currentCount := getCurrentCount redisDown store key windowStart in
  mkRateLimitInfo currentCount (Z.max 0 (max opts - currentCount))
                  (later + windowMs opts)%Z (windowMs opts).

End RateLimitService.

(** ** transformExternalQuoteInterface and getRandomQuote *)

Module ExternalTransformers.

Definition validationError : QuoteServiceError := mkError VALIDATION_ERROR 400.

(** Truthiness of an optional string and of an optional number. *)
Definition truthyString (s : option string) : bool :=
  match s with
  | Some s => negb (String.length s =? 0)%nat
  | None => false
  end.

Definition truthyNumber (n : option Z) : bool :=
  match n with
  | Some n => negb (n =? 0)%Z
  | None => false
  end.

(** [transformExternalQuoteInterface]; [uuid] is what [uuidv4()] returns
    and [now] the time of [new Date()]. *)
Definition transformExternalQuoteInterface (uuid : string) (now : Z)
    (externalQuote : ExternalQuote.t) : Result Quote :=
  let build (text : string) (source : Source) : Quote :=
    mkQuote uuid text (ExternalQuote.author externalQuote)
            (Some (default [] (ExternalQuote.tags externalQuote)))
            0 source now now in
  if truthyString (ExternalQuote._id externalQuote)
     && truthyString (ExternalQuote.content externalQuote)
  then Ok (build (default EmptyString (ExternalQuote.content externalQuote))
                 quotable)
  else if truthyNumber (ExternalQuote.id externalQuote)
          && truthyString (ExternalQuote.quote externalQuote)
  then Ok (build (default EmptyString (ExternalQuote.quote externalQuote))
                 dummyjson)
  else Throw validationError.

End ExternalTransformers.

Module QuoteServiceRandom.

Import ExternalTransformers.



End QuoteServiceRandom.

(** ** RedisRateLimiter (src/middleware/rateLimit.ts) *)

Module RedisRateLimiter.

Record RateLimitOptions := mkOptions {
  max : Z;
  window : Z                             (* in milliseconds *)
}.

Record RateLimitInfo := mkInfo {
  totalHits : Z;
  totalTime : Z;
  timeToExpire : Z;
  limit : Z
}.

(** The counters of Redis: the value of a key and the time, in
    milliseconds, at which it expires.  A key whose time has come is
    gone. *)
Abbreviation Counters := (gmap string (Z * Z)).

Definition liveValue (store : Counters) (key : string) (now : Z) : Z :=
  match store !! key with
  | Some (value, expiresAt) => if (now <? expiresAt)%Z then value else 0%Z
  | None => 0%Z
  end.

(** [Math.ceil(window / 1000)]. *)
Definition windowInSeconds (opts : RateLimitOptions) : Z :=
  (- ((- window opts) / 1000))%Z.

(** [checkRateLimit]: in one transaction at the time [now], [incr] of the
    key, [expire] with the window, [ttl].  [expire] with a time that is
    not positive deletes the key, and [ttl] of a key that is gone is -2.
    With Redis down the request is let through as a first hit. *)
Definition checkRateLimit (redisDown : bool) (store : Counters)
    (key : string) (opts : RateLimitOptions) (now : Z)
  : RateLimitInfo * Counters :=
  if redisDown
  then (mkInfo 1 (window opts) (window opts) (max opts), store)
  else
    let totalHits := (liveValue store key now + 1)%Z in
    let seconds := windowInSeconds opts in
    let store :=
      if (0 <? seconds)%Z
      then <[key := (totalHits, (now + seconds * 1000)%Z)]> store
      else delete key store in
    let ttl := if (0 <? seconds)%Z then seconds else (-2)%Z in
    let timeToExpire :=
      if (0 <? ttl)%Z then (ttl * 1000)%Z else window opts in
    (mkInfo totalHits (window opts) timeToExpire (max opts), store).

Definition resetRateLimit (redisDown : bool) (store : Counters)
    (key : string) : Counters :=
  if redisDown then store else delete key store.

Record Headers := mkHeaders {
  xRateLimitLimit : Z;
  xRateLimitRemaining : Z;
  retryAfter : option Z
}.

Definition rateLimitExceeded : QuoteServiceError :=
  mkError RATE_LIMIT_EXCEEDED 429.

(** The middleware of [createRateLimitMiddleware]: the headers it sets,
    whether it throws, and the counters afterwards. *)
Definition rateLimitMiddleware (redisDown : bool) (store : Counters)
    (key : string) (opts : RateLimitOptions) (now : Z)
  : Headers * Result unit * Counters :=
  let '(rateLimitInfo, store) := checkRateLimit redisDown store key opts now in
  let remaining := Z.max 0 (limit rateLimitInfo - totalHits rateLimitInfo) in
  if (limit rateLimitInfo <? totalHits rateLimitInfo)%Z
  then
    let retryAfter := (- ((- timeToExpire rateLimitInfo) / 1000))%Z in
    (mkHeaders (limit rateLimitInfo) remaining (Some retryAfter),
     Throw rateLimitExceeded, store)
  else (mkHeaders (limit rateLimitInfo) remaining None, Ok tt, store).

End RedisRateLimiter.

(** Sequences of calls, for the statements on the limiter. *)
Module Workload.

Import RedisRateLimiter.

(** One request of a key at the time [now]: what the middleware told,
    the header [X-RateLimit-Remaining] and whether it threw, is added to
    what it told before. *)
Definition step (key : string) (opts : RateLimitOptions)
    (state : list (Z * bool) * Counters) (now : Z)
  : list (Z * bool) * Counters :=
  let '(served, store) := state in
  let '(headers, outcome, store) :=
    rateLimitMiddleware false store key opts now in
  ((served ++ [(xRateLimitRemaining headers, isThrow outcome)])%list, store).

(** The requests of one key at the times [times], one after the other. *)
Definition serve (store : Counters) (key : string) (opts : RateLimitOptions)
    (times : list Z) : list (Z * bool) * Counters :=
  fold_left (step key opts) times ([], store).

(** What the middleware tells of the request counted as number [k]. *)
Definition told (opts : RateLimitOptions) (k : Z) : Z * bool :=
  (Z.max 0 (max opts - k), (max opts <? k)%Z).

End Workload.

(** * Properties *)

(** ** Arrays, sets and the stable sort *)

Section ArrayFacts.

Lemma includes_In (arr : list string) (x : string) :
  JsArray.includes arr x = true <-> In x arr.
Proof.
  unfold JsArray.includes. rewrite existsb_exists. split.
  - intros (y & Hy & E). apply String.eqb_eq in E. now subst.
  - intros H. exists x. split; [exact H | apply String.eqb_refl].
Qed.

Lemma includes_false (arr : list string) (x : string) :
  JsArray.includes arr x = false <-> ~ In x arr.
Proof.
  rewrite <- includes_In. destruct (JsArray.includes arr x); split; congruence.
Qed.

Lemma setAdd_spec (s : list string) (x y : string) :
  In y (JsArray.setAdd s x) <-> In y s \/ y = x.
Proof.
  unfold JsArray.setAdd. destruct (JsArray.includes s x) eqn:E.
  - apply includes_In in E. split; [tauto | intros [H | ->]; assumption].
  - rewrite in_app_iff. simpl. intuition congruence.
Qed.

Lemma setAdd_NoDup (s : list string) (x : string) :
  NoDup s -> NoDup (JsArray.setAdd s x).
Proof.
  intros H. unfold JsArray.setAdd. destruct (JsArray.includes s x) eqn:E.
  - exact H.
  - apply includes_false in E. apply NoDup_app; repeat split.
    + exact H.
    + intros y Hy Hx. apply list_elem_of_In in Hy.
      apply list_elem_of_In in Hx. destruct Hx as [<- | []]. tauto.
    + apply NoDup_singleton.
Qed.

Lemma fold_setAdd_spec (l acc : list string) (y : string) :
  In y (fold_left JsArray.setAdd l acc) <-> In y acc \/ In y l.
Proof.
  revert acc. induction l as [| x l IH]; intros acc; simpl.
  - tauto.
  - rewrite IH, setAdd_spec. intuition congruence.
Qed.

Lemma fold_setAdd_NoDup (l acc : list string) :
  NoDup acc -> NoDup (fold_left JsArray.setAdd l acc).
Proof.
  revert acc. induction l as [| x l IH]; intros acc H; simpl.
  - exact H.
  - apply IH, setAdd_NoDup, H.
Qed.

(** The array spread from [new Set(arr)] has as many elements as the set
    of the elements of [arr]. *)
Lemma newSet_size (l : list string) :
  length (JsArray.newSet l) = size (list_to_set l : gset string).
Proof.
  rewrite <- (size_list_to_set (C := gset string) (JsArray.newSet l)).
  - f_equal. apply set_eq. intros x.
    rewrite !elem_of_list_to_set, !list_elem_of_In.
    unfold JsArray.newSet. rewrite fold_setAdd_spec. simpl. tauto.
  - apply fold_setAdd_NoDup, NoDup_nil_2.
Qed.

(** Filtering an array without repetition by membership in another one
    counts the intersection of the two sets. *)
Lemma filter_includes_size (l1 l2 : list string) :
  NoDup l1 ->
  length (List.filter (fun x => JsArray.includes l2 x) l1)
  = size ((list_to_set l1 : gset string) ∩ list_to_set l2).
Proof.
  intros H.
  rewrite <- (size_list_to_set (C := gset string)
                (List.filter (fun x => JsArray.includes l2 x) l1)).
  - f_equal. apply set_eq. intros x.
    rewrite elem_of_intersection, !elem_of_list_to_set, !list_elem_of_In.
    rewrite filter_In, includes_In. tauto.
  - apply NoDup_ListNoDup, List.NoDup_filter, NoDup_ListNoDup, H.
Qed.

Lemma indexOfFrom_bounds (l : list string) (x : string) (i : Z) :
  In x l ->
  (i <= JsArray.indexOfFrom i l x < i + Z.of_nat (length l))%Z.
Proof.
  revert i. induction l as [| y l IH]; intros i H; simpl in *.
  - destruct H.
  - destruct (String.eqb_spec y x) as [-> | Hne].
    + lia.
    + destruct H as [-> | H]; [congruence |].
      specialize (IH (i + 1)%Z H). lia.
Qed.

Lemma indexOfFrom_app (pre l : list string) (x : string) (i : Z) :
  ~ In x pre ->
  JsArray.indexOfFrom i (pre ++ l) x
  = JsArray.indexOfFrom (i + Z.of_nat (length pre)) l x.
Proof.
  revert i. induction pre as [| y pre IH]; intros i H; simpl in *.
  - f_equal. lia.
  - destruct (String.eqb_spec y x) as [-> | Hne]; [tauto |].
    rewrite IH by tauto. f_equal. lia.
Qed.

Lemma indexOfFrom_app_l (pre l : list string) (x : string) (i : Z) :
  In x pre ->
  JsArray.indexOfFrom i (pre ++ l) x = JsArray.indexOfFrom i pre x.
Proof.
  revert i. induction pre as [| y pre IH]; intros i H; simpl in *.
  - destruct H.
  - destruct (String.eqb_spec y x) as [-> | Hne]; [reflexivity |].
    apply IH. destruct H; [congruence | assumption].
Qed.

(** The test [arr.indexOf(word) === index] holds at the first occurrence of
    a word and nowhere else. *)
Lemma first_occurrence_test (pre suf : list string) (x : string) :
  (JsArray.indexOf (pre ++ x :: suf) x =? Z.of_nat (length pre))%Z
  = negb (JsArray.includes pre x).
Proof.
  unfold JsArray.indexOf.
  destruct (JsArray.includes pre x) eqn:E; simpl.
  - apply includes_In in E. rewrite indexOfFrom_app_l by exact E.
    pose proof (indexOfFrom_bounds pre x 0 E). apply Z.eqb_neq. lia.
  - apply includes_false in E. rewrite indexOfFrom_app by exact E.
    simpl. rewrite String.eqb_refl. apply Z.eqb_eq. lia.
Qed.

Lemma dedup_suffix (pre suf : list string) :
  let kept :=
    JsArray.filterIndexed
      (fun w i => (JsArray.indexOf (pre ++ suf) w =? i)%Z)
      (Z.of_nat (length pre)) suf in
  NoDup kept /\ (forall x, In x kept <-> In x suf /\ ~ In x pre).
Proof.
  revert pre. induction suf as [| x suf IH]; intros pre; simpl.
  - split; [apply NoDup_nil_2 | intros x; tauto].
  - rewrite first_occurrence_test.
    specialize (IH (pre ++ [x])%list).
    rewrite <- app_assoc in IH. simpl in IH.
    rewrite length_app in IH. simpl in IH.
    replace (Z.of_nat (length pre + 1)) with (Z.of_nat (length pre) + 1)%Z
      in IH by lia.
    destruct IH as [IHn IHm].
    destruct (JsArray.includes pre x) eqn:E; simpl.
    + apply includes_In in E. split; [exact IHn |].
      intros y. rewrite IHm, in_app_iff. simpl.
      split; [tauto |]. intros [[<- | H] Hn]; [tauto |]. split; [exact H |].
      intros [H1 | [<- | []]]; tauto.
    + apply includes_false in E. split.
      * apply NoDup_cons. split; [| exact IHn].
        rewrite list_elem_of_In, IHm, in_app_iff. simpl. tauto.
      * intros y. rewrite IHm, in_app_iff. simpl.
        destruct (string_dec x y) as [<- | Hne]; [tauto |]. tauto.
Qed.

End ArrayFacts.

Section SortFacts.

Context {A : Type} (inFront : A -> A -> bool).

Lemma sortInsert_perm (x : A) (l : list A) :
  JsArray.sortInsert inFront x l ≡ₚ x :: l.
Proof.
  induction l as [| y l IH]; simpl.
  - reflexivity.
  - destruct (inFront x y); [reflexivity |].
    rewrite IH. apply Permutation_swap.
Qed.

Lemma sort_perm (l : list A) : JsArray.sort inFront l ≡ₚ l.
Proof.
  induction l as [| x l IH]; simpl.
  - reflexivity.
  - rewrite sortInsert_perm. now rewrite IH.
Qed.

Lemma sort_elem_of (l : list A) (x : A) :
  x ∈ JsArray.sort inFront l <-> x ∈ l.
Proof. now rewrite sort_perm. Qed.

Lemma sort_length (l : list A) : length (JsArray.sort inFront l) = length l.
Proof. now rewrite sort_perm. Qed.

(** Stability: the entries of a class whose members may all stay in front of
    one another keep their relative order. *)
Lemma sortInsert_filter (p : A -> bool) (x : A) (l : list A) :
  (forall a b, p a = true -> p b = true -> inFront a b = true) ->
  List.filter p (JsArray.sortInsert inFront x l)
  = List.filter p (x :: l).
Proof.
  intros Hclass. induction l as [| y l IH]; simpl in *.
  - reflexivity.
  - destruct (inFront x y) eqn:E; simpl.
    + reflexivity.
    + rewrite IH. destruct (p x) eqn:Px, (p y) eqn:Py; try reflexivity.
      rewrite (Hclass x y Px Py) in E. discriminate.
Qed.

Lemma sort_stable (p : A -> bool) (l : list A) :
  (forall a b, p a = true -> p b = true -> inFront a b = true) ->
  List.filter p (JsArray.sort inFront l) = List.filter p l.
Proof.
  intros Hclass. induction l as [| x l IH]; simpl.
  - reflexivity.
  - rewrite sortInsert_filter by exact Hclass. simpl. now rewrite IH.
Qed.

Hypothesis inFront_total : forall a b, inFront a b = true \/ inFront b a = true.
Hypothesis inFront_trans :
  forall a b c, inFront a b = true -> inFront b c = true -> inFront a c = true.

Lemma sortInsert_sorted (x : A) (l : list A) :
  StronglySorted (fun a b => inFront a b = true) l ->
  StronglySorted (fun a b => inFront a b = true)
                 (JsArray.sortInsert inFront x l).
Proof.
  induction 1 as [| y l Hs IH Hy]; simpl.
  - repeat constructor.
  - destruct (inFront x y) eqn:E.
    + constructor; [constructor; assumption |].
      constructor; [exact E |].
      eapply Forall_impl; [exact Hy |]. intros z Hz.
      eapply inFront_trans; eassumption.
    + constructor; [exact IH |].
      apply Forall_forall. intros z Hz.
      rewrite sortInsert_perm, elem_of_cons in Hz.
      destruct Hz as [-> | Hz].
      * destruct (inFront_total x y) as [H | H]; congruence.
      * rewrite Forall_forall in Hy. apply Hy, Hz.
Qed.

Lemma sort_sorted (l : list A) :
  StronglySorted (fun a b => inFront a b = true) (JsArray.sort inFront l).
Proof.
  induction l as [| x l IH]; simpl.
  - constructor.
  - apply sortInsert_sorted, IH.
Qed.

End SortFacts.

Lemma StronglySorted_firstn {A} (R : A -> A -> Prop) (n : nat) (l : list A) :
  StronglySorted R l -> StronglySorted R (firstn n l).
Proof.
  intros H. revert n. induction H as [| x l Hs IH Hx]; intros [| n]; simpl;
    try constructor.
  - apply IH.
  - apply Forall_forall. intros y Hy. rewrite Forall_forall in Hx.
    apply Hx. eapply subseteq_take, Hy.
Qed.

Lemma filter_firstn_prefix {A} (p : A -> bool) (n : nat) (l : list A) :
  List.filter p (firstn n l) `prefix_of` List.filter p l.
Proof.
  rewrite <- (firstn_skipn n l) at 2. rewrite List.filter_app.
  now exists (List.filter p (skipn n l)).
Qed.

Lemma slice0_firstn {A} (l : list A) (limit : Z) :
  exists n, JsArray.slice0 l limit = firstn n l.
Proof. unfold JsArray.slice0. destruct (limit <? 0)%Z; eauto. Qed.

Lemma slice0_length {A} (l : list A) (limit : Z) :
  (0 <= limit)%Z -> (Z.of_nat (length (JsArray.slice0 l limit)) <= limit)%Z.
Proof.
  intros H. unfold JsArray.slice0.
  destruct (Z.ltb_spec limit 0); [lia |].
  rewrite length_firstn. lia.
Qed.

Lemma slice0_all {A} (l : list A) (limit : Z) :
  (Z.of_nat (length l) <= limit)%Z -> JsArray.slice0 l limit = l.
Proof.
  intros H. unfold JsArray.slice0.
  destruct (Z.ltb_spec limit 0); [lia |].
  apply firstn_all2. lia.
Qed.

Lemma map_prefix {A B} (f : A -> B) (l1 l2 : list A) :
  l1 `prefix_of` l2 -> map f l1 `prefix_of` map f l2.
Proof. intros [k ->]. rewrite map_app. now exists (map f k). Qed.

Lemma filter_none {A} (p : A -> bool) (l : list A) :
  (forall x, x ∈ l -> p x = false) -> List.filter p l = [].
Proof.
  induction l as [| x l IH]; intros H; simpl; [reflexivity |].
  rewrite (H x) by (apply elem_of_cons; now left).
  apply IH. intros y Hy. apply H. apply elem_of_cons. now right.
Qed.

(** ** The edit distance *)

Lemma fold_left_seq_ind {S : Type} (P : nat -> S -> Prop)
    (f : S -> nat -> S) (n a : nat) (s0 : S) :
  P a s0 ->
  (forall k s, (a <= k < a + n)%nat -> P k s -> P (Datatypes.S k) (f s k)) ->
  P (a + n)%nat (fold_left f (seq a n) s0).
Proof.
  revert a s0. induction n as [| n IH]; intros a s0 H0 Hstep; simpl.
  - now rewrite Nat.add_0_r.
  - replace (a + Datatypes.S n)%nat with (Datatypes.S a + n)%nat by lia.
    apply IH.
    + apply Hstep; [lia | exact H0].
    + intros k s Hk. apply Hstep. lia.
Qed.

Section Matrix.

Import SimilarityEngine MatrixInvariant.

Lemma mset_shaped rows cols m j i v :
  wellShaped rows cols m -> wellShaped rows cols (mset m j i v).
Proof.
  intros [Hl Hr]. unfold mset. split.
  - now rewrite length_alter.
  - intros j' row. destruct (decide (j = j')) as [<- | Hne].
    + rewrite list_lookup_alter_eq. destruct (m !! j) as [r |] eqn:E; [| easy].
      simpl. intros [= <-]. rewrite length_insert. eauto.
    + rewrite list_lookup_alter_ne by exact Hne. apply Hr.
Qed.

Lemma mget_mset_eq rows cols m j i v :
  wellShaped rows cols m -> (j < rows)%nat -> (i < cols)%nat ->
  mget (mset m j i v) j i = v.
Proof.
  intros [Hl Hr] Hj Hi. unfold mget, mset.
  rewrite list_lookup_alter_eq.
  destruct (m !! j) as [r |] eqn:E.
  - simpl. rewrite list_lookup_insert_eq; [reflexivity |].
    rewrite (Hr _ _ E). exact Hi.
  - apply lookup_ge_None in E. lia.
Qed.

Lemma mget_mset_ne m j i v j' i' :
  (j', i') <> (j, i) -> mget (mset m j i v) j' i' = mget m j' i'.
Proof.
  intros Hne. unfold mget, mset.
  destruct (decide (j = j')) as [<- | Hj].
  - rewrite list_lookup_alter_eq. destruct (m !! j) as [r |]; [| reflexivity].
    simpl. rewrite list_lookup_insert_ne; [reflexivity | congruence].
  - now rewrite list_lookup_alter_ne.
Qed.

Variables str1 str2 : string.

Let n1 := String.length str1.
Let n2 := String.length str2.
Let D (i j : nat) : Z := Spec.prefixDistance str1 str2 i j.

Let filled := MatrixInvariant.filled str1 str2.

Lemma filled_mset (R R' : nat -> nat -> Prop) m j0 i0 v :
  filled R m -> (j0 <= n2)%nat -> (i0 <= n1)%nat -> v = D i0 j0 ->
  (forall j i, (j <= n2)%nat -> (i <= n1)%nat ->
               R' j i -> R j i \/ (j = j0 /\ i = i0)) ->
  filled R' (mset m j0 i0 v).
Proof.
  intros [Hs Hf] Hj Hi -> Hsub. split.
  - apply mset_shaped, Hs.
  - intros j i Hj' Hi' HR.
    destruct (decide ((j, i) = (j0, i0))) as [[= -> ->] | Hne].
    + eapply mget_mset_eq; [exact Hs | lia | cbv beta; lia].
    + rewrite mget_mset_ne by exact Hne.
      apply Hf; try assumption.
      destruct (Hsub _ _ Hj' Hi' HR) as [H | [-> ->]]; [exact H | congruence].
Qed.

Lemma filled_weaken (R R' : nat -> nat -> Prop) m :
  filled R m ->
  (forall j i, (j <= n2)%nat -> (i <= n1)%nat -> R' j i -> R j i) ->
  filled R' m.
Proof. intros [Hs Hf] Hsub. split; [exact Hs | eauto]. Qed.

Lemma D_row0 j : D 0 j = Z.of_nat j.
Proof. reflexivity. Qed.

Lemma D_col0 i : D i 0 = Z.of_nat i.
Proof. destruct i; reflexivity. Qed.

Lemma D_step i j :
  D (S i) (S j)
  = min3 (D i (S j) + 1) (D (S i) j + 1)
         (D i j + indicator (JsString.charAt str1 i) (JsString.charAt str2 j)).
Proof. reflexivity. Qed.

Lemma D_nonneg i j : (0 <= D i j)%Z.
Proof.
  revert j. induction i as [| i IHi]; intros j.
  - rewrite D_row0. lia.
  - induction j as [| j IHj].
    + rewrite D_col0. lia.
    + rewrite D_step. unfold min3, indicator.
      pose proof (IHi (S j)). pose proof (IHi j).
      destruct (decide _); lia.
Qed.

(** The matrix algorithm computes the recurrence. *)
Lemma levenshtein_matrix :
  calculateLevenshteinDistance str1 str2 = D n1 n2.
Proof.
  unfold calculateLevenshteinDistance. fold n1 n2.
  set (m0 := replicate (S n2) (replicate (S n1) None) : Matrix).
  assert (H0 : filled (fun _ _ => False) m0).
  { split; [| tauto]. split.
    - apply length_replicate.
    - intros j row Hrow. apply lookup_replicate in Hrow as [-> _].
      apply length_replicate. }
  set (m1 := fold_left _ (seq 0 (S n1)) m0).
  assert (H1 : filled (fun j i => j = O) m1).
  { eapply filled_weaken.
    - apply (fold_left_seq_ind
               (fun k m => filled (fun j i => j = O /\ (i < k)%nat) m)
               _ (S n1) 0 m0).
      + eapply filled_weaken; [exact H0 | cbv beta; lia].
      + intros k m Hk Hm. eapply filled_mset; [exact Hm | lia | lia | |].
        * symmetry. apply D_col0.
        * intros j i _ _ [-> Hi].
          destruct (decide (i = k)); [right | left]; lia.
    - cbv beta. lia. }
  clearbody m1. clear H0 m0.
  set (m2 := fold_left _ (seq 0 (S n2)) m1).
  assert (H2 : filled (fun j i => j = O \/ i = O) m2).
  { eapply filled_weaken.
    - apply (fold_left_seq_ind
               (fun k m => filled (fun j i => j = O \/ (i = O /\ (j < k)%nat)) m)
               _ (S n2) 0 m1).
      + eapply filled_weaken; [exact H1 | cbv beta; lia].
      + intros k m Hk Hm. eapply filled_mset; [exact Hm | lia | lia | |].
        * symmetry. apply D_row0.
        * intros j i _ _ [-> | [-> Hj]]; [left; now left |].
          destruct (decide (j = k)); [right | left]; lia.
    - cbv beta. lia. }
  clearbody m2. clear H1 m1.
  set (m3 := fold_left _ (seq 1 n2) m2).
  assert (H3 : filled (fun j i => True) m3).
  { eapply filled_weaken.
    - apply (fold_left_seq_ind
               (fun k m => filled (fun j i => (j < k)%nat \/ i = O) m)
               _ n2 1 m2).
      + eapply filled_weaken; [exact H2 | cbv beta; lia].
      + intros J m HJ Hm.
        eapply filled_weaken.
        * apply (fold_left_seq_ind
                   (fun k m => filled (fun j i => (j < J)%nat \/ i = O
                                        \/ (j = J /\ (i < k)%nat)) m)
                   _ n1 1 m).
          -- eapply filled_weaken; [exact Hm | cbv beta; lia].
          -- intros I m' HI [Hs Hf].
             eapply filled_mset; [split; [exact Hs | exact Hf] | lia | lia | |].
             ++ destruct J as [| J']; [lia |]. destruct I as [| I']; [lia |].
                rewrite D_step. simpl.
                rewrite !Nat.sub_0_r.
                rewrite !Hf by lia. reflexivity.
             ++ intros j i _ _ [H | [H | [-> H]]]; [left; lia | left; lia |].
                destruct (decide (i = I)); [right | left]; lia.
        * cbv beta. lia.
    - cbv beta. lia. }
  destruct H3 as [_ H3]. apply H3; [lia | lia | exact I].
Qed.

End Matrix.

(** ** Strings and the similarity of author names *)

Section AuthorFacts.

Import SimilarityEngine.
Local Open Scope Q_scope.

Lemma append_String (c : ascii) (t post : string) :
  (String c t ++ post)%string = String c (t ++ post)%string.
Proof. reflexivity. Qed.
Lemma prefix_spec (t s : string) :
  String.prefix t s = true <-> exists post, s = (t ++ post)%string.
Proof.
  revert s. induction t as [| c t IH]; intros s; simpl.
  - split; [intros _; now exists s | intros _; now destruct s].
  - destruct s as [| d s]; simpl.
    + split; [discriminate | intros [post [=]]].
    + destruct (Ascii.ascii_dec c d) as [<- | Hne].
      * rewrite IH. split; intros [post E]; exists post;
          rewrite append_String in *; congruence.
      * split; [discriminate | intros [post E]].
        rewrite append_String in E. congruence.
Qed.
Lemma includes_spec (s t : string) :
  JsString.includes s t = true <-> Spec.isSubstring t s.
Proof.
  unfold Spec.isSubstring. induction s as [| c s IH].
  - change (JsString.includes EmptyString t) with (String.prefix t EmptyString || false).
    rewrite orb_false_r, prefix_spec. split.
    + intros [post E]. now exists EmptyString, post.
    + intros ([| d pre] & post & E); [now exists post | discriminate].
  - change (JsString.includes (String c s) t)
      with (String.prefix t (String c s) || JsString.includes s t).
    rewrite orb_true_iff, prefix_spec, IH. split.
    + intros [[post E] | (pre & post & E)].
      * now exists EmptyString, post.
      * exists (String c pre), post. rewrite append_String. now rewrite E.
    + intros ([| d pre] & post & E).
      * left. now exists post.
      * right. rewrite append_String in E. injection E as -> E. now exists pre, post.
Qed.

Lemma includes_empty (s : string) : JsString.includes s EmptyString = true.
Proof. destruct s; reflexivity. Qed.

Lemma num_pos (n : nat) : (0 < n)%nat -> 0 < num n.
Proof. intros H. unfold num, Qlt. simpl. lia. Qed.

Lemma num_nonneg (n : nat) : 0 <= num n.
Proof. unfold num, Qle. simpl. lia. Qed.

Lemma num_le (n m : nat) : (n <= m)%nat -> num n <= num m.
Proof. intros H. unfold num. rewrite <- Zle_Qle. lia. Qed.

(** A quotient of two counts, the first at most the second, is in [0, 1]. *)
Lemma ratio_bounds (n m : nat) : (n <= m)%nat -> 0 <= num n / num m <= 1.
Proof.
  intros H. destruct m as [| m].
  - destruct n; [| lia]. unfold Qdiv, Qle. simpl. lia.
  - assert (Hm : 0 < num (S m)) by (apply num_pos; lia). split.
    + apply Qle_shift_div_l; [exact Hm |]. rewrite Qmult_0_l. apply num_nonneg.
    + apply Qle_shift_div_r; [exact Hm |]. rewrite Qmult_1_l. now apply num_le.
Qed.


(** The three branches of [calculateAuthorSimilarity], on the normalized
    names. *)
Lemma authorSimilarity_cases (a b : string) :
  let na := Spec.normalized a in
  let nb := Spec.normalized b in
  let maxLen := num (Nat.max (String.length na) (String.length nb)) in
  (na = nb -> calculateAuthorSimilarity a b = 1)
  /\ (na <> nb -> Spec.isSubstring nb na \/ Spec.isSubstring na nb ->
      calculateAuthorSimilarity a b = 8 # 10)
  /\ (na <> nb -> ~ (Spec.isSubstring nb na \/ Spec.isSubstring na nb) ->
      0 < maxLen
      /\ calculateAuthorSimilarity a b
         = Qmax 0 ((maxLen - inject_Z (Spec.editDistance na nb)) / maxLen)).
Proof.
  intros na nb maxLen. unfold calculateAuthorSimilarity.
  fold (Spec.normalized a) (Spec.normalized b). fold na nb.
  destruct (String.eqb_spec na nb) as [E | Hne].
  - split; [reflexivity |]. split; intros; congruence.
  - destruct (JsString.includes na nb || JsString.includes nb na) eqn:Hi.
    + split; [congruence |]. split; [reflexivity |].
      intros _ Hn. exfalso. apply Hn.
      apply orb_true_iff in Hi. rewrite !includes_spec in Hi. exact Hi.
    + apply orb_false_iff in Hi. destruct Hi as [Hi1 Hi2].
      split; [congruence |]. split.
      * intros _ [H | H]; apply includes_spec in H; congruence.
      * intros _ _. split.
        -- apply num_pos. destruct na as [| c na'].
           ++ rewrite includes_empty in Hi2. discriminate.
           ++ simpl. lia.
        -- rewrite levenshtein_matrix. reflexivity.
Qed.

Lemma authorSimilarity_bounds (a b : string) :
  0 <= calculateAuthorSimilarity a b <= 1.
Proof.
  pose proof (authorSimilarity_cases a b) as H. cbv zeta in H.
  destruct H as (H1 & H2 & H3).
  set (na := Spec.normalized a) in *. set (nb := Spec.normalized b) in *.
  destruct (string_dec na nb) as [E | Hne].
  - rewrite (H1 E). split; discriminate.
  - destruct (JsString.includes na nb || JsString.includes nb na) eqn:Hi.
    + rewrite H2; [split; discriminate | exact Hne |].
      apply orb_true_iff in Hi. rewrite !includes_spec in Hi. tauto.
    + destruct H3 as [Hpos ->]; [exact Hne | |].
      * apply orb_false_iff in Hi. destruct Hi as [Hi1 Hi2].
        intros [H | H]; apply includes_spec in H; congruence.
      * split; [apply Q.le_max_l |].
        apply Q.max_lub; [discriminate |].
        apply Qle_shift_div_r; [exact Hpos |]. rewrite Qmult_1_l.
        pose proof (D_nonneg na nb (String.length na) (String.length nb)) as Hd.
        rewrite Zle_Qle in Hd. change (inject_Z 0) with 0 in Hd.
        unfold Spec.editDistance. set (d := inject_Z _) in *.
        set (m := num _) in *. lra.
Qed.


End AuthorFacts.

(** ** The scoring formula *)

Section ScoreFacts.

Import SimilarityEngine.
Local Open Scope Q_scope.

Lemma extractKeywords_NoDup (t : string) : NoDup (extractKeywords t).
Proof.
  unfold extractKeywords. set (words := List.filter _ _).
  exact (proj1 (dedup_suffix [] words)).
Qed.

Lemma list_to_set_empty_iff (l : list string) :
  (list_to_set l : gset string) = ∅ <-> length l = O.
Proof.
  destruct l as [| x l].
  - split; reflexivity.
  - split; [| discriminate]. intros H. exfalso.
    assert (Hx : x ∈ (list_to_set (x :: l) : gset string)) by set_solver.
    rewrite H in Hx. set_solver.
Qed.

Lemma jaccard_lists (l1 l2 : list string) :
  NoDup l1 ->
  num (length (List.filter (fun x => JsArray.includes l2 x) l1))
  / num (length (JsArray.newSet (l1 ++ l2)))
  = Spec.jaccard (list_to_set l1) (list_to_set l2).
Proof.
  intros H. unfold Spec.jaccard.
  now rewrite filter_includes_size, newSet_size, list_to_set_app_L.
Qed.

Lemma jaccard_bounds (X Y : gset string) : 0 <= Spec.jaccard X Y <= 1.
Proof.
  apply ratio_bounds, subseteq_size. intros x.
  rewrite elem_of_intersection, elem_of_union. tauto.
Qed.

Lemma keywordSimilarity_jaccard (q1 q2 : Quote) :
  calculateKeywordSimilarity q1 q2 = Spec.keywordSim q1 q2.
Proof.
  unfold calculateKeywordSimilarity, Spec.keywordSim, Spec.keywords.
  rewrite jaccard_lists by apply extractKeywords_NoDup.
  destruct (decide _) as [[H1 H2] | Hn].
  - apply list_to_set_empty_iff in H1, H2. now rewrite H1, H2.
  - destruct (Nat.eqb_spec (length (extractKeywords (text q1))) 0) as [E1 |];
      [| reflexivity].
    destruct (Nat.eqb_spec (length (extractKeywords (text q2))) 0) as [E2 |];
      [| reflexivity].
    exfalso. apply Hn. now rewrite !list_to_set_empty_iff.
Qed.

Lemma tagSimilarity_jaccard (q1 q2 : Quote) :
  Spec.tagsFormSet q1 ->
  calculateTagSimilarity (tagsOrEmpty q1) (tagsOrEmpty q2)
  = Spec.tagSubScore q1 q2.
Proof.
  intros Hset. unfold calculateTagSimilarity, Spec.tagSubScore, Spec.tagSet.
  unfold Spec.tagsFormSet in Hset.
  destruct (tagsOrEmpty q1) as [| t1 l1], (tagsOrEmpty q2) as [| t2 l2];
    try reflexivity.
  cbn [length Nat.eqb andb orb]. now apply jaccard_lists.
Qed.

Lemma lengthSimilarity_ratio (q1 q2 : Quote) :
  calculateLengthSimilarity (text q1) (text q2) = Spec.lengthSubScore q1 q2.
Proof.
  unfold calculateLengthSimilarity, Spec.lengthSubScore.
  destruct (decide _) as [[-> ->] | Hn]; [reflexivity |].
  destruct (Nat.eqb_spec (String.length (text q1) `max` String.length (text q2)) 0);
    [exfalso; apply Hn; lia | reflexivity].
Qed.

Lemma Qgtb_spec (a b : Q) : Qgtb a b = true <-> b < a.
Proof.
  unfold Qgtb. rewrite negb_true_iff, <- not_true_iff_false, Qle_bool_iff.
  split; [apply Qnot_le_lt | apply Qlt_not_le].
Qed.

Lemma authorBlock_contribution (q1 q2 : Quote) :
  authorBlock 0 (5 # 10) q1 q2 == Spec.authorContribution q1 q2.
Proof.
  unfold authorBlock, Spec.authorContribution.
  destruct (String.eqb_spec (JsString.toLowerCase (author q1))
                            (JsString.toLowerCase (author q2))) as [E | Hne];
    destruct (decide _) as [E' | Hne']; try congruence.
  - apply Qplus_0_l.
  - destruct (Qlt_le_dec _ _) as [Hlt | Hle].
    + apply Qgtb_spec in Hlt. rewrite Hlt. apply Qplus_0_l.
    + destruct (Qgtb _ _) eqn:Hg; [| reflexivity].
      apply Qgtb_spec in Hg. exfalso. exact (Qlt_not_le _ _ Hg Hle).
Qed.

Lemma authorContribution_bounds (q1 q2 : Quote) :
  0 <= Spec.authorContribution q1 q2 <= 5 # 10.
Proof.
  unfold Spec.authorContribution.
  destruct (decide _); [split; discriminate |].
  destruct (Qlt_le_dec _ _); [| split; discriminate].
  pose proof (authorSimilarity_bounds (author q1) (author q2)). lra.
Qed.

Lemma semanticSimilarity_formula (q1 q2 : Quote) :
  Spec.tagsFormSet q1 ->
  calculateSemanticSimilarity q1 q2 == Spec.semanticSim q1 q2.
Proof.
  intros Hset. unfold calculateSemanticSimilarity, Spec.semanticSim.
  cbv zeta.
  replace (Qgtb (0 + (5 # 10) + (3 # 10) + (2 # 10)) 0) with true
    by reflexivity.
  rewrite tagSimilarity_jaccard by exact Hset.
  rewrite lengthSimilarity_ratio, authorBlock_contribution.
  apply Qdiv_comp; reflexivity.
Qed.

Lemma overallSimilarity_formula (q1 q2 : Quote) :
  Spec.tagsFormSet q1 ->
  calculateOverallSimilarity q1 q2 == Spec.overall q1 q2.
Proof.
  intros Hset. unfold calculateOverallSimilarity, Spec.overall.
  cbv zeta. rewrite keywordSimilarity_jaccard.
  now rewrite semanticSimilarity_formula by exact Hset.
Qed.

Lemma keywordSim_bounds (q1 q2 : Quote) : 0 <= Spec.keywordSim q1 q2 <= 1.
Proof.
  unfold Spec.keywordSim. destruct (decide _); [split; discriminate |].
  apply jaccard_bounds.
Qed.

Lemma tagSubScore_bounds (q1 q2 : Quote) : 0 <= Spec.tagSubScore q1 q2 <= 1.
Proof.
  unfold Spec.tagSubScore.
  destruct (tagsOrEmpty q1), (tagsOrEmpty q2); try (split; discriminate).
  apply jaccard_bounds.
Qed.

Lemma lengthSubScore_bounds (q1 q2 : Quote) :
  0 <= Spec.lengthSubScore q1 q2 <= 1.
Proof.
  unfold Spec.lengthSubScore. cbv zeta.
  destruct (decide _); [split; discriminate |].
  apply ratio_bounds. lia.
Qed.

Lemma semanticSim_bounds (q1 q2 : Quote) : 0 <= Spec.semanticSim q1 q2 <= 1.
Proof.
  unfold Spec.semanticSim.
  pose proof (authorContribution_bounds q1 q2).
  pose proof (tagSubScore_bounds q1 q2).
  pose proof (lengthSubScore_bounds q1 q2).
  setoid_replace ((5 # 10) + (3 # 10) + (2 # 10)) with 1 using relation Qeq
    by reflexivity.
  unfold Qdiv. change (/ 1) with 1. lra.
Qed.

Lemma overall_bounds (q1 q2 : Quote) : 0 <= Spec.overall q1 q2 <= 1.
Proof.
  unfold Spec.overall.
  pose proof (keywordSim_bounds q1 q2).
  pose proof (semanticSim_bounds q1 q2). lra.
Qed.

Lemma overallSimilarity_bounds (q1 q2 : Quote) :
  Spec.tagsFormSet q1 -> 0 <= calculateOverallSimilarity q1 q2 <= 1.
Proof.
  intros Hset. rewrite (overallSimilarity_formula q1 q2 Hset).
  apply overall_bounds.
Qed.

End ScoreFacts.

(** ** The ranking *)

Section RankFacts.

Import SimilarityEngine.
Local Open Scope Q_scope.

Lemma similarities_omap (target : Quote) (pool : list Quote)
    (acc : list SimilarityScore) :
  fold_left (considerCandidate target) pool acc
  = (acc ++ omap (Spec.scored target) pool)%list.
Proof.
  revert acc. induction pool as [| c pool IH]; intros acc; simpl.
  - now rewrite app_nil_r.
  - rewrite IH. unfold considerCandidate, Spec.scored.
    destruct (String.eqb (id c) (id target)); [reflexivity |].
    destruct (Qle_bool _ _); [| reflexivity].
    now rewrite <- app_assoc.
Qed.

Lemma findSimilarQuotes_unfold (target : Quote) (pool : list Quote)
    (limit : Z) :
  findSimilarQuotes target pool limit
  = JsArray.slice0
      (JsArray.sort Spec.byScoreDesc (omap (Spec.scored target) pool)) limit.
Proof.
  unfold findSimilarQuotes. now rewrite similarities_omap.
Qed.

Lemma scored_Some (target c : Quote) (e : SimilarityScore) :
  Spec.scored target c = Some e ->
  id c <> id target
  /\ e = mkSimilarityScore c (calculateOverallSimilarity target c)
  /\ MINIMUM_SIMILARITY_SCORE <= calculateOverallSimilarity target c.
Proof.
  unfold Spec.scored.
  destruct (String.eqb_spec (id c) (id target)); [discriminate |].
  destruct (Qle_bool _ _) eqn:E; [| discriminate].
  intros [= <-]. apply Qle_bool_iff in E. auto.
Qed.

(** Every entry of the ranking is the entry of a candidate of the pool. *)
Lemma findSimilarQuotes_elem (target : Quote) (pool : list Quote)
    (limit : Z) (e : SimilarityScore) :
  e ∈ findSimilarQuotes target pool limit ->
  exists c, c ∈ pool /\ Spec.scored target c = Some e.
Proof.
  rewrite findSimilarQuotes_unfold.
  destruct (slice0_firstn
              (JsArray.sort Spec.byScoreDesc (omap (Spec.scored target) pool))
              limit) as [n ->].
  intros H. apply subseteq_take in H. rewrite sort_elem_of in H.
  apply list_elem_of_omap in H. exact H.
Qed.

Lemma byScoreDesc_spec (a b : SimilarityScore) :
  Spec.byScoreDesc a b = true <-> score b <= score a.
Proof.
  unfold Spec.byScoreDesc. rewrite Qle_bool_iff. split; intros; lra.
Qed.

Lemma byScoreDesc_total (a b : SimilarityScore) :
  Spec.byScoreDesc a b = true \/ Spec.byScoreDesc b a = true.
Proof.
  rewrite !byScoreDesc_spec.
  destruct (Qlt_le_dec (score a) (score b)); [right | left]; lra.
Qed.

Lemma byScoreDesc_trans (a b c : SimilarityScore) :
  Spec.byScoreDesc a b = true -> Spec.byScoreDesc b c = true ->
  Spec.byScoreDesc a c = true.
Proof. rewrite !byScoreDesc_spec. intros. lra. Qed.

Lemma hasScore_class (s : Q) (a b : SimilarityScore) :
  Spec.hasScore s a = true -> Spec.hasScore s b = true ->
  Spec.byScoreDesc a b = true.
Proof.
  unfold Spec.hasScore. rewrite !Qeq_bool_iff, byScoreDesc_spec.
  intros -> ->. apply Qle_refl.
Qed.

Lemma StronglySorted_weaken {A} (R R' : A -> A -> Prop) (l : list A) :
  (forall a b, R a b -> R' a b) -> StronglySorted R l -> StronglySorted R' l.
Proof.
  intros HR. induction 1 as [| x l Hs IH Hx]; constructor.
  - exact IH.
  - eapply Forall_impl; [exact Hx | auto].
Qed.

Lemma findSimilarQuotes_sorted (target : Quote) (pool : list Quote)
    (limit : Z) :
  StronglySorted (fun a b => score b <= score a)
                 (findSimilarQuotes target pool limit).
Proof.
  rewrite findSimilarQuotes_unfold.
  destruct (slice0_firstn
              (JsArray.sort Spec.byScoreDesc (omap (Spec.scored target) pool))
              limit) as [n ->].
  apply StronglySorted_firstn.
  eapply StronglySorted_weaken; [apply byScoreDesc_spec |].
  apply sort_sorted; [apply byScoreDesc_total | apply byScoreDesc_trans].
Qed.

(** The candidates of a given score, in the order of the pool. *)
Lemma scored_with_score (target : Quote) (s : Q) (pool : list Quote) :
  map quote (List.filter (Spec.hasScore s) (omap (Spec.scored target) pool))
  = List.filter
      (fun c => Spec.candidateWithScore target s c
                && Qle_bool MINIMUM_SIMILARITY_SCORE
                            (calculateOverallSimilarity target c))
      pool.
Proof.
  induction pool as [| c pool IH]; simpl; [reflexivity |].
  unfold Spec.scored at 1, Spec.candidateWithScore at 1.
  destruct (String.eqb (id c) (id target)); simpl; [exact IH |].
  destruct (Qle_bool MINIMUM_SIMILARITY_SCORE _); simpl.
  - unfold Spec.hasScore at 1. simpl. rewrite andb_true_r.
    destruct (Qeq_bool _ s); simpl; [f_equal |]; exact IH.
  - rewrite andb_false_r. exact IH.
Qed.

Lemma findSimilarQuotes_ties (target : Quote) (pool : list Quote)
    (limit : Z) (s : Q) :
  map quote (List.filter (Spec.hasScore s)
                         (findSimilarQuotes target pool limit))
  `prefix_of` List.filter (Spec.candidateWithScore target s) pool.
Proof.
  rewrite findSimilarQuotes_unfold.
  destruct (slice0_firstn
              (JsArray.sort Spec.byScoreDesc (omap (Spec.scored target) pool))
              limit) as [n ->].
  destruct (Qlt_le_dec s MINIMUM_SIMILARITY_SCORE) as [Hlow | Hhigh].
  - (* no entry has a score below the threshold *)
    replace (List.filter (Spec.hasScore s) _) with (@nil SimilarityScore);
      [apply prefix_nil |].
    symmetry. apply filter_none. intros e He.
    apply subseteq_take in He. rewrite sort_elem_of in He.
    apply list_elem_of_omap in He as (c & _ & Hc).
    apply scored_Some in Hc as (_ & -> & Hmin). unfold Spec.hasScore. simpl.
    destruct (Qeq_bool _ s) eqn:E; [| reflexivity].
    apply Qeq_bool_iff in E. lra.
  - etrans.
    + apply map_prefix, filter_firstn_prefix.
    + rewrite sort_stable by apply hasScore_class.
      rewrite scored_with_score.
      erewrite List.filter_ext; [reflexivity |].
      intros c. simpl. unfold Spec.candidateWithScore.
      destruct (negb _); simpl; [| reflexivity].
      destruct (Qeq_bool _ s) eqn:E; simpl; [| reflexivity].
      apply Qeq_bool_iff in E. apply Qle_bool_iff. lra.
Qed.

End RankFacts.

(** ** The weighted selection *)

Section SelectFacts.

Import QuoteRepository.
Local Open Scope Q_scope.










End SelectFacts.

Section DrawFacts.

Local Open Scope Q_scope.



End DrawFacts.

(** ** The cache and the service *)

Section ServiceFacts.

Import QuoteService.

Lemma similar_key_inj (a b : string) :
  (CacheService.SIMILAR_QUOTES_PREFIX ++ a)%string
  = (CacheService.SIMILAR_QUOTES_PREFIX ++ b)%string -> a = b.
Proof. cbv [CacheService.SIMILAR_QUOTES_PREFIX append]. now intros [= H]. Qed.

Lemma quote_key_not_similar (a b : string) :
  (CacheService.QUOTE_PREFIX ++ a)%string
  <> (CacheService.SIMILAR_QUOTES_PREFIX ++ b)%string.
Proof.
  cbv [CacheService.SIMILAR_QUOTES_PREFIX CacheService.QUOTE_PREFIX append].
  discriminate.
Qed.


Lemma validRequest_true (id_ : string) (limit : Z) :
  Claimed.validRequest id_ limit = true
  <-> blankId id_ = false /\ (1 <= limit <= 50)%Z.
Proof.
  unfold Claimed.validRequest.
  rewrite !andb_true_iff, negb_true_iff, !Z.leb_le. tauto.
Qed.

Lemma limit_check (limit : Z) :
  (1 <= limit <= 50)%Z -> (limit <=? 0)%Z || (50 <? limit)%Z = false.
Proof. intros H. apply orb_false_iff. rewrite Z.leb_gt, Z.ltb_ge. lia. Qed.

(** The request after the checks and the lookup of the target. *)
Lemma getSimilarQuotes_valid (env : Env) (w : World) (id_ : string)
    (limit : Z) (target : Quote) :
  blankId id_ = false -> (1 <= limit <= 50)%Z ->
  QuoteRepository.findById env w (JsString.trim id_) = Ok (Some target) ->
  getSimilarQuotes env w id_ limit
  = match CacheService.getSimilarQuotes env w (JsString.trim id_) with
    | Some (e :: l) => (Ok (JsArray.slice0 (e :: l) limit), w)
    | _ =>
        match QuoteRepository.findAll env w with
        | Throw e => (Throw e, w)
        | Ok allQuotes =>
            (Ok (SimilarityEngine.findSimilarQuotes target allQuotes limit),
             CacheService.setSimilarQuotes env w (JsString.trim id_)
               (SimilarityEngine.findSimilarQuotes target allQuotes limit))
        end
    end.
Proof.
  intros Hid Hlimit Hfind. unfold getSimilarQuotes.
  rewrite Hid, (limit_check limit Hlimit), Hfind. reflexivity.
Qed.

(** The table [quote_similarities] is neither read nor written. *)
Lemma getSimilarQuotes_frame (env : Env) (w : World) (id_ : string)
    (limit : Z) (rows : list SimilarityRow) :
  getSimilarQuotes env (Claimed.withSimilarityTable w rows) id_ limit
  = (fst (getSimilarQuotes env w id_ limit),
     Claimed.withSimilarityTable (snd (getSimilarQuotes env w id_ limit)) rows).
Proof.
  unfold getSimilarQuotes.
  destruct (blankId id_); [reflexivity |].
  destruct (_ || _); [reflexivity |].
  unfold QuoteRepository.findById, QuoteRepository.findAll,
    CacheService.getSimilarQuotes, CacheService.setSimilarQuotes.
  cbn [quoteTable redis Claimed.withSimilarityTable].
  destruct (prismaFails env FindUnique); [reflexivity |].
  destruct (find _ _); [| reflexivity].
  destruct (redisFails env RedisGet).
  - destruct (prismaFails env FindMany); [reflexivity |].
    destruct (redisFails env RedisSet); reflexivity.
  - destruct (redis w !! _) as [[[| e l] |] |];
      try reflexivity;
      (destruct (prismaFails env FindMany); [reflexivity |];
       destruct (redisFails env RedisSet); reflexivity).
Qed.

Lemma getSimilarQuotes_tables (env : Env) (w : World) (id_ : string)
    (limit : Z) :
  quoteTable (snd (getSimilarQuotes env w id_ limit)) = quoteTable w
  /\ similarityTable (snd (getSimilarQuotes env w id_ limit))
     = similarityTable w.
Proof.
  unfold getSimilarQuotes.
  destruct (blankId id_); [auto |].
  destruct (_ || _); [auto |].
  destruct (QuoteRepository.findById _ _ _) as [[target |] | e]; [| auto | auto].
  destruct (CacheService.getSimilarQuotes _ _ _) as [[| c cs] |]; [| auto |];
    (destruct (QuoteRepository.findAll env w); [| auto];
     unfold CacheService.setSimilarQuotes;
     destruct (redisFails env RedisSet); auto).
Qed.

Lemma setSimilarQuotes_entry (env : Env) (w : World) (targetId : string)
    (l : list SimilarityScore) :
  redisFails env RedisSet = false ->
  Claimed.ephemeralEntry (CacheService.setSimilarQuotes env w targetId l)
                         targetId
  = Some (SimilarEntry l).
Proof.
  intros H. unfold CacheService.setSimilarQuotes, Claimed.ephemeralEntry.
  rewrite H. cbn [redis]. apply lookup_insert_eq.
Qed.


Lemma find_count (x : string) (table : list Quote) :
  (0 <? length (List.filter (fun q => String.eqb (id q) x) table))%nat
  = true ->
  exists q, List.find (fun q => String.eqb (id q) x) table = Some q.
Proof.
  induction table as [| q table IH]; simpl; [discriminate |].
  destruct (String.eqb (id q) x); [eauto | exact IH].
Qed.

End ServiceFacts.

(** ** The embedding on concrete inputs *)

Section Examples.

Import SimilarityEngine.
Local Open Scope Q_scope.

Example splitWhitespace_ends :
  JsString.splitWhitespace " a  b " = [""; "a"; "b"; ""]%string.
Proof. reflexivity. Qed.

Example trim_author : JsString.trim "  Bob Dylan  " = "Bob Dylan"%string.
Proof. reflexivity. Qed.

Example extractKeywords_sentence :
  extractKeywords "Hard work beats talent, when talent doesn't work  hard!"
  = ["hard"; "work"; "beats"; "talent"; "when"; "doesnt"]%string.
Proof. vm_compute. reflexivity. Qed.

Example levenshtein_kitten_sitting :
  calculateLevenshteinDistance "kitten" "sitting" = 3%Z.
Proof. vm_compute. reflexivity. Qed.

Example levenshtein_empty : calculateLevenshteinDistance "" "abc" = 3%Z.
Proof. vm_compute. reflexivity. Qed.

Example authorSimilarity_substring :
  calculateAuthorSimilarity "Steve Jobs" "steve jobs jr" = 8 # 10.
Proof. vm_compute. reflexivity. Qed.

Example authorSimilarity_distance :
  calculateAuthorSimilarity "Mark" "Marc" == 3 # 4.
Proof. vm_compute. reflexivity. Qed.

(** Same author, same tag, shared keywords: the score exceeds 0.5. *)
Example overall_same_author :
  5 # 10 < calculateOverallSimilarity
             (Sample.quoteOf "1" "Hard work beats talent" "A" ["work"] 0)
             (Sample.quoteOf "2" "Talent without hard work is nothing" "A"
                             ["work"] 0).
Proof. vm_compute. reflexivity. Qed.

Example ranking_of_sample :
  map (fun e => id (quote e))
      (findSimilarQuotes Sample.hardWork Sample.pool 10)
  = ["q2"; "q3"]%string.
Proof. vm_compute. reflexivity. Qed.

(** A tag repeated in the first quote is counted twice in the intersection
    and once in the union: the score then leaves [0, 1]. *)
Example overall_with_repeated_tag :
  1 < calculateOverallSimilarity
        (Sample.quoteOf "1" "same" "A" ["work"; "work"] 0)
        (Sample.quoteOf "2" "same" "A" ["work"] 0).
Proof. vm_compute. reflexivity. Qed.

Example weighted_walk_sample :
  runRand (QuoteRepository.getWeightedRandom Claimed.reliable Sample.world
             (QuoteRepository.mkOptions None None))
          (fun _ => 9 # 10)
  = Ok (Some Sample.zebras).
Proof. vm_compute. reflexivity. Qed.

(** A negative limit makes [slice] count from the end of the ranking. *)
Example ranking_negative_limit :
  map (fun e => id (quote e))
      (findSimilarQuotes Sample.hardWork Sample.pool (-1))
  = ["q2"]%string.
Proof. vm_compute. reflexivity. Qed.

Example request_limit_out_of_range :
  fst (QuoteService.getSimilarQuotes Claimed.reliable Sample.world "q1" 51)
  = Throw QuoteService.validationError
  /\ fst (QuoteService.getSimilarQuotes Claimed.reliable Sample.world "q1" 0)
     = Throw QuoteService.validationError.
Proof. split; reflexivity. Qed.

Example request_blank_id :
  fst (QuoteService.getSimilarQuotes Claimed.reliable Sample.world "  " 10)
  = Throw QuoteService.validationError.
Proof. reflexivity. Qed.

Example request_unknown_id :
  fst (QuoteService.getSimilarQuotes Claimed.reliable Sample.world "q9" 10)
  = Throw QuoteRepository.notFoundError.
Proof. reflexivity. Qed.

(** Redis rejects every call: the request is served by a computation. *)
Example request_without_redis :
  isThrow
    (fst (QuoteService.getSimilarQuotes
            (mkEnv (fun _ => false) (fun _ => true)) Sample.world " q1 " 10))
  = false.
Proof. vm_compute. reflexivity. Qed.

Example request_without_pool :
  fst (QuoteService.getSimilarQuotes Sample.poolFetchFails Sample.world
                                     "q1" 10)
  = Throw QuoteRepository.databaseError.
Proof. vm_compute. reflexivity. Qed.

End Examples.

(** * The claims *)

Section EngineClaims.

Import SimilarityEngine.
Local Open Scope Q_scope.

(** C1. For a pair of quotes whose tags form a set, the similarity score is
    keywordSim * 0.4 + semanticSim * 0.6, where keywordSim is the Jaccard
    coefficient of the two keyword sets (0 when both are empty) and
    semanticSim is the sum of the author contribution (0.9 * 0.5 on exact
    case-insensitive match, authorSimilarity * 0.5 when authorSimilarity
    exceeds 0.7, else 0), the tag sub-score times 0.3 (Jaccard of the
    lower-cased tag sets, 0.5 without tags on both sides, 0 with tags on
    one side only) and the length ratio times 0.2 (1 for two empty texts),
    divided by the total weight 0.5 + 0.3 + 0.2. *)
Theorem C1_overall_similarity_formula (quote1 quote2 : Quote) :
  Spec.tagsFormSet quote1 ->
  calculateOverallSimilarity quote1 quote2 == Spec.overall quote1 quote2.
Proof. apply overallSimilarity_formula. Qed.

Lemma C1_overall_similarity_formula_witness :
  calculateOverallSimilarity Sample.hardWork Sample.talent
  == Spec.overall Sample.hardWork Sample.talent.
Proof.
  apply (C1_overall_similarity_formula Sample.hardWork Sample.talent).
  apply (bool_decide_unpack _). vm_compute. reflexivity.
Defined.

(** C2. The ranking of [findSimilarQuotes] never holds the target; each of
    its entries is a candidate of the pool with its similarity to the
    target, which is at least 0.08, so a candidate below the threshold is
    dropped; the entries are in descending order of score; entries of equal
    score are in the order of the pool; and for a limit that is not
    negative the ranking has at most [limit] entries. *)
Theorem C2_findSimilarQuotes_ranking (target : Quote) (pool : list Quote)
    (limit : Z) :
  let result := findSimilarQuotes target pool limit in
  (forall e, e ∈ result -> id (quote e) <> id target)
  /\ (forall e, e ∈ result ->
        quote e ∈ pool
        /\ score e = calculateOverallSimilarity target (quote e)
        /\ MINIMUM_SIMILARITY_SCORE <= score e)
  /\ (forall c, c ∈ pool ->
        calculateOverallSimilarity target c < MINIMUM_SIMILARITY_SCORE ->
        forall e, e ∈ result -> quote e <> c)
  /\ StronglySorted (fun a b => score b <= score a) result
  /\ (forall s,
        map quote (List.filter (Spec.hasScore s) result)
        `prefix_of` List.filter (Spec.candidateWithScore target s) pool)
  /\ ((0 <= limit)%Z -> (Z.of_nat (length result) <= limit)%Z).
Proof.
  intros result.
  assert (Helem : forall e, e ∈ result ->
            id (quote e) <> id target
            /\ quote e ∈ pool
            /\ score e = calculateOverallSimilarity target (quote e)
            /\ MINIMUM_SIMILARITY_SCORE <= score e).
  { intros e He. apply findSimilarQuotes_elem in He as (c & Hc & Hs).
    apply scored_Some in Hs as (Hid & -> & Hmin). simpl. auto. }
  split; [| split; [| split; [| split; [| split]]]].
  - intros e He. now apply Helem.
  - intros e He. now apply Helem.
  - intros c _ Hlow e He <-. apply Helem in He as (_ & _ & Heq & Hmin).
    rewrite Heq in Hmin. lra.
  - apply findSimilarQuotes_sorted.
  - intros s. apply findSimilarQuotes_ties.
  - intros Hlimit. unfold result, findSimilarQuotes.
    now apply slice0_length.
Qed.

(** C8. For a target whose tags form a set, the similarity score to any
    candidate lies in [0, 1], and so does the score of every entry of every
    ranking of that target. *)
Theorem C8_score_in_unit_interval (target : Quote) :
  Spec.tagsFormSet target ->
  (forall candidate,
     0 <= calculateOverallSimilarity target candidate <= 1)
  /\ (forall pool limit e,
        e ∈ findSimilarQuotes target pool limit -> 0 <= score e <= 1).
Proof.
  intros Hset. split.
  - intros candidate. now apply overallSimilarity_bounds.
  - intros pool limit e He.
    apply findSimilarQuotes_elem in He as (c & _ & Hs).
    apply scored_Some in Hs as (_ & -> & _). simpl.
    now apply overallSimilarity_bounds.
Qed.

Lemma C8_score_in_unit_interval_witness :
  (forall candidate,
     0 <= calculateOverallSimilarity Sample.hardWork candidate <= 1)
  /\ (forall pool limit e,
        e ∈ findSimilarQuotes Sample.hardWork pool limit ->
        0 <= score e <= 1).
Proof.
  apply (C8_score_in_unit_interval Sample.hardWork).
  apply (bool_decide_unpack _). vm_compute. reflexivity.
Defined.


(** C10. The author contribution is not greatest on exact equality: when
    the authors are equal case-insensitively it is 0.9 * 0.5 = 0.45, but
    when they differ only by leading or trailing white space the exact
    match fails, [calculateAuthorSimilarity] is 1 and the contribution is
    0.5, which is more; and such pairs of authors exist. *)
Theorem C10_exact_author_match_not_maximal :
  (forall q1 q2,
     JsString.toLowerCase (author q1) = JsString.toLowerCase (author q2) ->
     authorBlock 0 (5 # 10) q1 q2 == (9 # 10) * (5 # 10))
  /\ (forall q1 q2,
        JsString.toLowerCase (author q1) <> JsString.toLowerCase (author q2) ->
        Spec.normalized (author q1) = Spec.normalized (author q2) ->
        calculateAuthorSimilarity (author q1) (author q2) = 1
        /\ authorBlock 0 (5 # 10) q1 q2 == 1 * (5 # 10)
        /\ (9 # 10) * (5 # 10) < authorBlock 0 (5 # 10) q1 q2)
  /\ JsString.toLowerCase (author Sample.hardWork)
     <> JsString.toLowerCase (author Sample.talent)
  /\ Spec.normalized (author Sample.hardWork)
     = Spec.normalized (author Sample.talent).
Proof.
  split; [| split; [| split]].
  - intros q1 q2 E. unfold authorBlock.
    apply String.eqb_eq in E. rewrite E. apply Qplus_0_l.
  - intros q1 q2 Hne Hnorm.
    assert (Hsim : calculateAuthorSimilarity (author q1) (author q2) = 1)
      by (now apply authorSimilarity_cases).
    assert (Hblock : authorBlock 0 (5 # 10) q1 q2 == 1 * (5 # 10)).
    { unfold authorBlock. apply String.eqb_neq in Hne. rewrite Hne, Hsim.
      reflexivity. }
    split; [exact Hsim |]. split; [exact Hblock |].
    rewrite Hblock. reflexivity.
  - vm_compute. discriminate.
  - vm_compute. reflexivity.
Qed.

End EngineClaims.

Section SelectionClaims.

Import QuoteRepository.
Local Open Scope Q_scope.



End SelectionClaims.

Section ServiceClaims.

Import QuoteService.

(** C4, as the specification states it, fails.  With nothing cached in
    either tier, a request computes the ranking and stores it in Redis, but
    the persistent tier is not written; and with a row in the persistent
    tier and nothing in Redis, the row is not served: the ranking is
    computed. *)
Lemma C4_two_tier_read_path_counterexample :
  ~ Claimed.twoTierReadPath Sample.world "q1" 10
  /\ ~ Claimed.twoTierReadPath Sample.worldWithRow "q1" 10.
Proof.
  split.
  - unfold Claimed.twoTierReadPath. vm_compute.
    intros (computed & Hresult & _ & Hpersistent).
    rewrite <- Hpersistent in Hresult. discriminate Hresult.
  - unfold Claimed.twoTierReadPath. vm_compute.
    intros [Hresult _]. discriminate Hresult.
Qed.

(** C4, amended. A valid request for a known target consults the
    ephemeral tier (Redis) only: a non-empty entry found there is returned
    truncated to the limit and nothing changes; otherwise (no entry, an
    empty entry or a rejected read) the ranking is computed over the full
    pool and written to the ephemeral tier alone.  The persistent tier
    (table [quote_similarities]) is neither read nor written. *)
Theorem C4_read_path_single_tier (env : Env) (w : World) (id_ : string)
    (limit : Z) (target : Quote) :
  blankId id_ = false -> (1 <= limit <= 50)%Z ->
  QuoteRepository.findById env w (JsString.trim id_) = Ok (Some target) ->
  let result := fst (getSimilarQuotes env w id_ limit) in
  let w' := snd (getSimilarQuotes env w id_ limit) in
  similarityTable w' = similarityTable w
  /\ (forall rows,
        getSimilarQuotes env (Claimed.withSimilarityTable w rows) id_ limit
        = (result, Claimed.withSimilarityTable w' rows))
  /\ match CacheService.getSimilarQuotes env w (JsString.trim id_) with
     | Some (e :: l) => result = Ok (JsArray.slice0 (e :: l) limit) /\ w' = w
     | _ =>
         match QuoteRepository.findAll env w with
         | Ok allQuotes =>
             let computed :=
               SimilarityEngine.findSimilarQuotes target allQuotes limit in
             result = Ok computed
             /\ w' = CacheService.setSimilarQuotes env w (JsString.trim id_)
                                                   computed
             /\ (redisFails env RedisSet = false ->
                 Claimed.ephemeralEntry w' (JsString.trim id_)
                 = Some (SimilarEntry computed))
         | Throw e => result = Throw e /\ w' = w
         end
     end.
Proof.
  intros Hid Hlimit Hfind result w'.
  split; [apply getSimilarQuotes_tables |].
  split; [intros rows; apply getSimilarQuotes_frame |].
  unfold result, w'.
  rewrite (getSimilarQuotes_valid env w id_ limit target Hid Hlimit Hfind).
  destruct (CacheService.getSimilarQuotes _ _ _) as [[| e l] |];
    [| split; reflexivity |];
    (destruct (QuoteRepository.findAll env w) as [allQuotes | e'];
     [| split; reflexivity];
     cbn [fst snd]; split; [reflexivity |]; split; [reflexivity |];
     apply setSimilarQuotes_entry).
Qed.

Lemma C4_read_path_single_tier_witness :
  similarityTable
    (snd (getSimilarQuotes Claimed.reliable Sample.worldWithRow "q1" 10))
  = similarityTable Sample.worldWithRow.
Proof.
  refine (proj1 (C4_read_path_single_tier Claimed.reliable
                   Sample.worldWithRow "q1" 10 Sample.hardWork _ _ _)).
  - reflexivity.
  - lia.
  - reflexivity.
Defined.

(** C5, as the specification states it, fails: the entry written for "q1"
    by a request of limit 1 differs from the one written by a request of
    limit 2. *)
Lemma C5_canonical_limit_counterexample :
  ~ Claimed.storedAtCanonicalLimit Sample.world "q1".
Proof.
  intros H. specialize (H 1%Z 2%Z ltac:(lia) ltac:(lia)).
  vm_compute in H. discriminate H.
Qed.

(** C5, amended. The entry written on a miss is the ranking computed for
    the request that triggered it, already truncated to that request's
    limit; a read truncates the entry to its own limit, so a later request
    served from a non-empty entry receives the entry cut to its limit,
    and with a limit at least as large exactly the entries the first
    request received, never more. *)
Theorem C5_entry_truncated_to_request_limit (env : Env) (w : World)
    (id_ : string) (limit1 limit2 : Z) (target : Quote)
    (allQuotes : list Quote) :
  blankId id_ = false ->
  (1 <= limit1 <= 50)%Z -> (1 <= limit2 <= 50)%Z ->
  QuoteRepository.findById env w (JsString.trim id_) = Ok (Some target) ->
  QuoteRepository.findAll env w = Ok allQuotes ->
  redisFails env RedisGet = false -> redisFails env RedisSet = false ->
  Claimed.cacheHit env w (JsString.trim id_) = false ->
  let computed := SimilarityEngine.findSimilarQuotes target allQuotes limit1 in
  let w1 := snd (getSimilarQuotes env w id_ limit1) in
  fst (getSimilarQuotes env w id_ limit1) = Ok computed
  /\ Claimed.ephemeralEntry w1 (JsString.trim id_) = Some (SimilarEntry computed)
  /\ (Z.of_nat (length computed) <= limit1)%Z
  /\ (computed <> [] ->
      getSimilarQuotes env w1 id_ limit2
      = (Ok (JsArray.slice0 computed limit2), w1)
      /\ ((limit1 <= limit2)%Z ->
          fst (getSimilarQuotes env w1 id_ limit2) = Ok computed)).
Proof.
  intros Hid Hl1 Hl2 Hfind Hall Hget Hset Hmiss computed w1.
  assert (E1 : getSimilarQuotes env w id_ limit1
               = (Ok computed,
                  CacheService.setSimilarQuotes env w (JsString.trim id_)
                                                computed)).
  { rewrite (getSimilarQuotes_valid env w id_ limit1 target Hid Hl1 Hfind).
    unfold Claimed.cacheHit in Hmiss. rewrite Hall.
    destruct (CacheService.getSimilarQuotes _ _ _) as [[| e l] |];
      [reflexivity | discriminate | reflexivity]. }
  assert (Hlen : (Z.of_nat (length computed) <= limit1)%Z).
  { unfold computed, SimilarityEngine.findSimilarQuotes.
    apply slice0_length. lia. }
  unfold w1. rewrite E1. cbn [fst snd].
  split; [reflexivity |].
  split; [now apply setSimilarQuotes_entry |].
  split; [exact Hlen |].
  intros Hne.
  set (w2 := CacheService.setSimilarQuotes env w (JsString.trim id_) computed).
  assert (Hfind2 : QuoteRepository.findById env w2 (JsString.trim id_)
                   = Ok (Some target)).
  { unfold w2, CacheService.setSimilarQuotes. rewrite Hset. exact Hfind. }
  assert (Hhit : CacheService.getSimilarQuotes env w2 (JsString.trim id_)
                 = Some computed).
  { unfold CacheService.getSimilarQuotes. rewrite Hget.
    pose proof (setSimilarQuotes_entry env w (JsString.trim id_) computed Hset)
      as He.
    unfold Claimed.ephemeralEntry in He. fold w2 in He. now rewrite He. }
  assert (E2 : getSimilarQuotes env w2 id_ limit2
               = (Ok (JsArray.slice0 computed limit2), w2)).
  { rewrite (getSimilarQuotes_valid env w2 id_ limit2 target Hid Hl2 Hfind2).
    rewrite Hhit. destruct computed; [congruence | reflexivity]. }
  split; [exact E2 |].
  intros Hle. rewrite E2. cbn [fst]. f_equal. apply slice0_all. lia.
Qed.

Lemma C5_entry_truncated_to_request_limit_witness :
  fst (getSimilarQuotes Claimed.reliable Sample.world "q1" 1)
  = Ok (SimilarityEngine.findSimilarQuotes
          Sample.hardWork
          (QuoteRepository.orderByLikesDesc Sample.pool) 1).
Proof.
  refine (proj1 (C5_entry_truncated_to_request_limit Claimed.reliable
                   Sample.world "q1" 1 2 Sample.hardWork
                   (QuoteRepository.orderByLikesDesc Sample.pool)
                   _ _ _ _ _ _ _ _)).
  - reflexivity.
  - lia.
  - lia.
  - reflexivity.
  - reflexivity.
  - reflexivity.
  - reflexivity.
  - reflexivity.
Defined.




(** C7, as the specification states it, fails: when the database rejects
    the fetch of the pool, a request with a limit in range for a known
    target fails with DATABASE_ERROR. *)
Lemma C7_pool_fetch_failure_counterexample :
  ~ Claimed.errorsOnlyOnContractBreach Sample.poolFetchFails Sample.world
      "q1" 10.
Proof.
  unfold Claimed.errorsOnlyOnContractBreach. intros [H _].
  destruct (H ltac:(vm_compute; reflexivity)) as [Hl | [Hl | Hk]];
    [lia | lia |].
  apply Hk. exists Sample.hardWork. split; [| reflexivity].
  unfold Sample.world, Sample.pool. cbn [quoteTable].
  apply elem_of_cons. right. apply elem_of_cons. now left.
Qed.

(** C7, amended. [getSimilarQuotes] fails with VALIDATION_ERROR on a blank
    id or a limit outside 1..50 and with QUOTE_NOT_FOUND on an unknown
    target; a rejected Redis call is treated as a miss or a no-op and never
    fails the request; but a rejected database call is surfaced as
    DATABASE_ERROR: the lookup of the target always, the fetch of the pool
    whenever the cache does not answer. *)
Theorem C7_errors_of_getSimilarQuotes (env : Env) (w : World) (id_ : string)
    (limit : Z) :
  let result := fst (getSimilarQuotes env w id_ limit) in
  let target :=
    List.find (fun q => String.eqb (id q) (JsString.trim id_)) (quoteTable w) in
  let valid := Claimed.validRequest id_ limit in
  (valid = false -> result = Throw validationError)
  /\ (valid = true -> prismaFails env FindUnique = true ->
      result = Throw QuoteRepository.databaseError)
  /\ (valid = true -> prismaFails env FindUnique = false -> target = None ->
      result = Throw QuoteRepository.notFoundError)
  /\ (valid = true -> prismaFails env FindUnique = false -> is_Some target ->
      (Claimed.cacheHit env w (JsString.trim id_) = true ->
       isThrow result = false)
      /\ (Claimed.cacheHit env w (JsString.trim id_) = false ->
          prismaFails env FindMany = true ->
          result = Throw QuoteRepository.databaseError)
      /\ (Claimed.cacheHit env w (JsString.trim id_) = false ->
          prismaFails env FindMany = false -> isThrow result = false))
  /\ (valid = true -> is_Some target ->
      prismaFails env FindUnique = false ->
      prismaFails env FindMany = false ->
      isThrow result = false).
Proof.
  intros result target valid.
  assert (Hinvalid : valid = false -> result = Throw validationError).
  { unfold valid, Claimed.validRequest, result, getSimilarQuotes.
    destruct (blankId id_); [reflexivity |]. cbn [negb andb].
    intros H. apply andb_false_iff in H.
    replace ((limit <=? 0)%Z || (50 <? limit)%Z) with true; [reflexivity |].
    symmetry. apply orb_true_iff. rewrite Z.leb_le, Z.ltb_lt.
    rewrite Z.leb_gt, Z.leb_gt in H. lia. }
  assert (Hknown : valid = true -> prismaFails env FindUnique = false ->
            forall q, target = Some q ->
            (Claimed.cacheHit env w (JsString.trim id_) = true ->
             isThrow result = false)
            /\ (Claimed.cacheHit env w (JsString.trim id_) = false ->
                prismaFails env FindMany = true ->
                result = Throw QuoteRepository.databaseError)
            /\ (Claimed.cacheHit env w (JsString.trim id_) = false ->
                prismaFails env FindMany = false -> isThrow result = false)).
  { intros Hv Hfu q Hq. apply validRequest_true in Hv as [Hid Hlimit].
    unfold result.
    rewrite (getSimilarQuotes_valid env w id_ limit q Hid Hlimit)
      by (unfold QuoteRepository.findById; fold target; now rewrite Hfu, Hq).
    unfold Claimed.cacheHit, QuoteRepository.findAll.
    destruct (CacheService.getSimilarQuotes _ _ _) as [[| e l] |];
      destruct (prismaFails env FindMany);
      repeat split; intros; try reflexivity; discriminate. }
  split; [exact Hinvalid |].
  split; [| split; [| split]].
  - intros Hv Hfu. apply validRequest_true in Hv as [Hid Hlimit].
    unfold result, getSimilarQuotes, QuoteRepository.findById.
    now rewrite Hid, (limit_check limit Hlimit), Hfu.
  - intros Hv Hfu Hnone. apply validRequest_true in Hv as [Hid Hlimit].
    unfold result, getSimilarQuotes, QuoteRepository.findById.
    fold target. now rewrite Hid, (limit_check limit Hlimit), Hfu, Hnone.
  - intros Hv Hfu [q Hq]. now apply (Hknown Hv Hfu q).
  - intros Hv [q Hq] Hfu Hfm.
    destruct (Hknown Hv Hfu q Hq) as (Hhit & _ & Hmiss).
    destruct (Claimed.cacheHit env w (JsString.trim id_)); auto.
Qed.

End ServiceClaims.

(** * Further properties of the code *)

(** ** The edit distance as a distance *)

Section DistanceFacts.

Import SimilarityEngine.

Lemma indicator_sym (c d : option ascii) : indicator c d = indicator d c.
Proof. unfold indicator. repeat destruct (decide _); congruence. Qed.

Lemma indicator_bounds (c d : option ascii) : (0 <= indicator c d <= 1)%Z.
Proof. unfold indicator. destruct (decide _); lia. Qed.

Lemma indicator_zero (c d : option ascii) : indicator c d = 0%Z <-> c = d.
Proof. unfold indicator. destruct (decide _); split; intros; congruence || lia. Qed.

Lemma prefixDistance_sym (a b : string) (i j : nat) :
  Spec.prefixDistance a b i j = Spec.prefixDistance b a j i.
Proof.
  revert j. induction i as [| i IHi]; intros j.
  - now rewrite D_row0, D_col0.
  - induction j as [| j IHj].
    + now rewrite D_row0, D_col0.
    + rewrite !D_step, IHj, (IHi (S j)), (IHi j), indicator_sym.
      unfold min3. lia.
Qed.

Lemma prefixDistance_lower (a b : string) (i j : nat) :
  (Z.abs (Z.of_nat i - Z.of_nat j) <= Spec.prefixDistance a b i j)%Z.
Proof.
  revert j. induction i as [| i IHi]; intros j.
  - rewrite D_row0. lia.
  - induction j as [| j IHj].
    + rewrite D_col0. lia.
    + rewrite D_step. pose proof (IHi (S j)). pose proof (IHi j).
      pose proof (indicator_bounds (JsString.charAt a i) (JsString.charAt b j)).
      unfold min3. lia.
Qed.

Lemma prefixDistance_upper (a b : string) (i j : nat) :
  (Spec.prefixDistance a b i j <= Z.of_nat (Nat.max i j))%Z.
Proof.
  revert j. induction i as [| i IHi]; intros j.
  - rewrite D_row0. lia.
  - induction j as [| j IHj].
    + rewrite D_col0. lia.
    + rewrite D_step. pose proof (IHi j).
      pose proof (indicator_bounds (JsString.charAt a i) (JsString.charAt b j)).
      unfold min3. lia.
Qed.

Lemma prefixDistance_diag (a : string) (i : nat) :
  Spec.prefixDistance a a i i = 0%Z.
Proof.
  induction i as [| i IH]; [reflexivity |].
  rewrite D_step, IH.
  pose proof (D_nonneg a a i (S i)). pose proof (D_nonneg a a (S i) i).
  replace (indicator _ _) with 0%Z by (symmetry; now apply indicator_zero).
  unfold min3. lia.
Qed.

Lemma prefixDistance_zero (a b : string) (i j : nat) :
  Spec.prefixDistance a b i j = 0%Z ->
  i = j /\ forall k, (k < i)%nat -> JsString.charAt a k = JsString.charAt b k.
Proof.
  revert j. induction i as [| i IHi]; intros j.
  - rewrite D_row0. intros H. split; [lia | intros k Hk; lia].
  - induction j as [| j IHj].
    + rewrite D_col0. lia.
    + rewrite D_step. intros H.
      pose proof (D_nonneg a b i (S j)) as N1.
      pose proof (D_nonneg a b (S i) j) as N2.
      pose proof (D_nonneg a b i j) as N3.
      pose proof (indicator_bounds (JsString.charAt a i) (JsString.charAt b j))
        as N4.
      assert (H0 : Spec.prefixDistance a b i j = 0%Z) by (unfold min3 in H; lia).
      assert (H1 : indicator (JsString.charAt a i) (JsString.charAt b j) = 0%Z)
        by (unfold min3 in H; lia).
      apply IHi in H0 as [<- Hk]. apply indicator_zero in H1.
      split; [reflexivity |]. intros k Hlt.
      destruct (decide (k = i)) as [-> | Hne]; [exact H1 | apply Hk; lia].
Qed.

(** Two strings of the same length with the same code units are equal. *)
Lemma string_ext (a b : string) :
  String.length a = String.length b ->
  (forall k, (k < String.length a)%nat ->
             JsString.charAt a k = JsString.charAt b k) ->
  a = b.
Proof.
  revert b. induction a as [| c a IH]; intros [| d b]; simpl;
    try discriminate; [reflexivity |].
  intros [= Hlen] Hk. f_equal.
  - specialize (Hk O ltac:(lia)). now injection Hk.
  - apply IH; [exact Hlen |]. intros k Hlt.
    exact (Hk (S k) ltac:(lia)).
Qed.

Lemma editDistance_zero (a b : string) :
  Spec.editDistance a b = 0%Z <-> a = b.
Proof.
  unfold Spec.editDistance. split.
  - intros H. apply prefixDistance_zero in H as [Hlen Hk].
    now apply string_ext.
  - intros ->. apply prefixDistance_diag.
Qed.

End DistanceFacts.

(** ** Keywords, symmetry and truncation *)

(** A case analysis over the 256 code units. *)
Ltac each_code_unit c :=
  destruct c as [b0 b1 b2 b3 b4 b5 b6 b7];
  destruct b0, b1, b2, b3, b4, b5, b6, b7; vm_compute.

Section EngineFacts.

Import SimilarityEngine.
Local Open Scope Q_scope.

Lemma lowerChar_idem (c : ascii) :
  JsString.lowerChar (JsString.lowerChar c) = JsString.lowerChar c.
Proof.
  each_code_unit c; reflexivity.
Qed.

Lemma lowerChar_space (c : ascii) :
  JsString.isSpace (JsString.lowerChar c) = JsString.isSpace c.
Proof.
  each_code_unit c; reflexivity.
Qed.

Lemma lowerChar_word (c : ascii) :
  JsString.isWord (JsString.lowerChar c) = true ->
  JsText.isKeywordChar (JsString.lowerChar c) = true.
Proof.
  each_code_unit c; congruence.
Qed.

Lemma keywordChar_not_space (c : ascii) :
  JsText.isKeywordChar c = true -> JsString.isSpace c = false.
Proof.
  each_code_unit c; congruence.
Qed.

Lemma toLowerCase_idem (s : string) :
  JsString.toLowerCase (JsString.toLowerCase s) = JsString.toLowerCase s.
Proof.
  induction s as [| c s IH]; simpl; [reflexivity |].
  now rewrite lowerChar_idem, IH.
Qed.

Lemma allChars_app (p : ascii -> bool) (s t : string) :
  JsText.allChars p (s ++ t)%string
  = JsText.allChars p s && JsText.allChars p t.
Proof.
  induction s as [| c s IH]; [reflexivity |].
  rewrite append_String. simpl. rewrite IH. now rewrite andb_assoc.
Qed.

(** The text [extractKeywords] splits: its code units outside white space
    are keyword characters. *)
Lemma cleaned_chars (text : string) :
  JsText.allChars
    (fun c => JsString.isSpace c || JsText.isKeywordChar c)
    (JsString.removePunctuation (JsString.toLowerCase text)) = true.
Proof.
  induction text as [| c text IH]; [reflexivity |].
  cbn [JsString.toLowerCase JsString.removePunctuation].
  destruct (JsString.isWord (JsString.lowerChar c)) eqn:Hw.
  - cbn [orb JsText.allChars]. rewrite IH, (lowerChar_word c Hw).
    now rewrite orb_true_r.
  - cbn [orb]. destruct (JsString.isSpace (JsString.lowerChar c)) eqn:Hs.
    + cbn [JsText.allChars]. now rewrite Hs, IH.
    + exact IH.
Qed.

Lemma splitLoop_chars (s cur : string) (inSep : bool) (piece : string) :
  JsText.allChars (fun c => JsString.isSpace c || JsText.isKeywordChar c) s
  = true ->
  JsText.allChars JsText.isKeywordChar cur = true ->
  In piece (JsString.splitLoop s cur inSep) ->
  JsText.allChars JsText.isKeywordChar piece = true.
Proof.
  revert cur inSep. induction s as [| c s IH]; intros cur inSep Hs Hcur.
  - simpl. intros [<- | []]. exact Hcur.
  - cbn [JsText.allChars] in Hs. apply andb_true_iff in Hs as [Hc Hs].
    cbn [JsString.splitLoop]. destruct (JsString.isSpace c) eqn:Hsp.
    + destruct inSep.
      * apply IH; assumption.
      * intros [<- | H]; [exact Hcur |]. revert H. apply IH; auto.
    + apply IH; [exact Hs |]. rewrite allChars_app, Hcur.
      cbn [JsText.allChars]. simpl in Hc. now rewrite Hc.
Qed.

Lemma extractKeywords_In (text w : string) :
  In w (extractKeywords text) ->
  In w (List.filter
          (fun word => (2 <? String.length word)%nat
                       && negb (JsArray.includes stopWords word))
          (JsString.splitWhitespace
             (JsString.removePunctuation (JsString.toLowerCase text)))).
Proof.
  unfold extractKeywords. set (words := List.filter _ _).
  intros H. now apply (proj2 (dedup_suffix [] words)) in H.
Qed.

Lemma calculateAuthorSimilarity_sym (a b : string) :
  calculateAuthorSimilarity a b = calculateAuthorSimilarity b a.
Proof.
  unfold calculateAuthorSimilarity.
  rewrite (String.eqb_sym (JsString.trim (JsString.toLowerCase a))).
  rewrite (orb_comm (JsString.includes (JsString.trim (JsString.toLowerCase a)) _)).
  rewrite (Nat.max_comm (String.length (JsString.trim (JsString.toLowerCase a)))).
  rewrite !levenshtein_matrix.
  now rewrite (prefixDistance_sym (JsString.trim (JsString.toLowerCase a))).
Qed.

Lemma authorSimilarity_one (a b : string) :
  calculateAuthorSimilarity a b == 1
  <-> Spec.normalized a = Spec.normalized b.
Proof.
  pose proof (authorSimilarity_cases a b) as H. cbv zeta in H.
  destruct H as (H1 & H2 & H3). split; [| intros E; now rewrite (H1 E)].
  intros Hone.
  destruct (string_dec (Spec.normalized a) (Spec.normalized b)) as [E | Hne];
    [exact E | exfalso].
  destruct (JsString.includes (Spec.normalized a) (Spec.normalized b)
            || JsString.includes (Spec.normalized b) (Spec.normalized a))
    eqn:Hi.
  - rewrite H2 in Hone; [discriminate Hone | exact Hne |].
    apply orb_true_iff in Hi. rewrite !includes_spec in Hi. exact Hi.
  - destruct H3 as [Hpos Heq]; [exact Hne | |].
    + apply orb_false_iff in Hi. destruct Hi as [Hi1 Hi2].
      intros [H | H]; apply includes_spec in H; congruence.
    + rewrite Heq in Hone. clear Heq.
      set (m := num _) in *.
      set (d := Spec.editDistance (Spec.normalized a) (Spec.normalized b)) in *.
      assert (Hd : (0 < d)%Z).
      { assert (Hnz : d <> 0%Z)
          by (unfold d; rewrite editDistance_zero; exact Hne).
        assert (Hnn : (0 <= d)%Z) by apply D_nonneg.
        lia. }
      assert (Hlt : (m - inject_Z d) / m < 1).
      { apply Qlt_shift_div_r; [exact Hpos |]. rewrite Qmult_1_l.
        rewrite Zlt_Qlt in Hd. change (inject_Z 0) with 0 in Hd. lra. }
      destruct (Q.max_spec 0 ((m - inject_Z d) / m)) as [[_ E] | [_ E]];
        rewrite E in Hone; [lra | discriminate Hone].
Qed.

Lemma jaccard_sym (X Y : gset string) : Spec.jaccard X Y = Spec.jaccard Y X.
Proof.
  unfold Spec.jaccard.
  now rewrite (intersection_comm_L X Y), (union_comm_L X Y).
Qed.

Lemma keywordSim_sym (q1 q2 : Quote) :
  Spec.keywordSim q1 q2 = Spec.keywordSim q2 q1.
Proof.
  unfold Spec.keywordSim. rewrite jaccard_sym.
  repeat destruct (decide _); tauto || reflexivity.
Qed.

Lemma authorContribution_sym (q1 q2 : Quote) :
  Spec.authorContribution q1 q2 = Spec.authorContribution q2 q1.
Proof.
  unfold Spec.authorContribution.
  rewrite (calculateAuthorSimilarity_sym (author q2) (author q1)).
  repeat destruct (decide _); congruence || reflexivity.
Qed.

Lemma tagSubScore_sym (q1 q2 : Quote) :
  Spec.tagSubScore q1 q2 = Spec.tagSubScore q2 q1.
Proof.
  unfold Spec.tagSubScore, Spec.tagSet.
  destruct (tagsOrEmpty q1), (tagsOrEmpty q2); try reflexivity.
  apply jaccard_sym.
Qed.

Lemma lengthSubScore_sym (q1 q2 : Quote) :
  Spec.lengthSubScore q1 q2 = Spec.lengthSubScore q2 q1.
Proof.
  unfold Spec.lengthSubScore. cbv zeta.
  rewrite (Nat.min_comm (String.length (text q2))).
  rewrite (Nat.max_comm (String.length (text q2))).
  repeat destruct (decide _); tauto || reflexivity.
Qed.

Lemma overall_sym (q1 q2 : Quote) : Spec.overall q1 q2 = Spec.overall q2 q1.
Proof.
  unfold Spec.overall, Spec.semanticSim.
  now rewrite keywordSim_sym, authorContribution_sym, tagSubScore_sym,
    lengthSubScore_sym.
Qed.

Lemma firstn_firstn_le {A} (l : list A) (n m : nat) :
  (n <= m)%nat -> firstn n (firstn m l) = firstn n l.
Proof. intros H. rewrite List.firstn_firstn. f_equal. lia. Qed.

Lemma slice0_nonneg {A} (l : list A) (limit : Z) :
  (0 <= limit)%Z -> JsArray.slice0 l limit = firstn (Z.to_nat limit) l.
Proof.
  intros H. unfold JsArray.slice0. destruct (Z.ltb_spec limit 0); [lia |].
  reflexivity.
Qed.

Lemma omap_length {A B} (f : A -> option B) (l : list A) :
  (length (omap f l) <= length l)%nat.
Proof.
  induction l as [| x l IH]; [simpl; lia |].
  change (omap f (x :: l))
    with (match f x with Some y => y :: omap f l | None => omap f l end).
  destruct (f x); cbn [length]; lia.
Qed.

End EngineFacts.

(** ** Trimming and white-space runs *)

Section TrimFacts.

Lemma trimStart_length (s : string) :
  (String.length (JsString.trimStart s) <= String.length s)%nat.
Proof.
  induction s as [| c s IH]; simpl; [lia |].
  destruct (JsString.isSpace c); simpl; lia.
Qed.

(** A string [trimStart] leaves alone is empty or starts outside white
    space. *)
Lemma trimStart_fixed (c : ascii) (s : string) :
  JsString.trimStart (String c s) = String c s <-> JsString.isSpace c = false.
Proof.
  simpl. destruct (JsString.isSpace c); split; try congruence.
  intros H. pose proof (trimStart_length s) as Hl. rewrite H in Hl.
  simpl in Hl. lia.
Qed.

Lemma trimStart_idem (s : string) :
  JsString.trimStart (JsString.trimStart s) = JsString.trimStart s.
Proof.
  induction s as [| c s IH]; [reflexivity |].
  simpl. destruct (JsString.isSpace c) eqn:E; [exact IH |].
  simpl. now rewrite E.
Qed.

Lemma trimEnd_cons (c : ascii) (s : string) :
  JsString.trimEnd (String c s)
  = if JsString.isSpace c && String.eqb (JsString.trimEnd s) EmptyString
    then EmptyString else String c (JsString.trimEnd s).
Proof. reflexivity. Qed.

Lemma trimEnd_idem (s : string) :
  JsString.trimEnd (JsString.trimEnd s) = JsString.trimEnd s.
Proof.
  induction s as [| c s IH]; [reflexivity |].
  rewrite trimEnd_cons.
  destruct (JsString.isSpace c && String.eqb (JsString.trimEnd s) EmptyString)
    eqn:E; [reflexivity |].
  now rewrite trimEnd_cons, IH, E.
Qed.

Lemma trimStart_trimEnd (s : string) :
  JsString.trimStart s = s ->
  JsString.trimStart (JsString.trimEnd s) = JsString.trimEnd s.
Proof.
  destruct s as [| c s]; [reflexivity |].
  intros H. apply trimStart_fixed in H.
  rewrite trimEnd_cons, H. cbn [andb]. now apply trimStart_fixed.
Qed.

Lemma trim_trimStart (s : string) :
  JsString.trimStart (JsString.trim s) = JsString.trim s.
Proof. apply trimStart_trimEnd, trimStart_idem. Qed.

Lemma trim_trimEnd (s : string) :
  JsString.trimEnd (JsString.trim s) = JsString.trim s.
Proof. apply trimEnd_idem. Qed.

Lemma trim_idem (s : string) : JsString.trim (JsString.trim s) = JsString.trim s.
Proof.
  unfold JsString.trim at 1. now rewrite trim_trimStart, trim_trimEnd.
Qed.

Lemma toLowerCase_length (s : string) :
  String.length (JsString.toLowerCase s) = String.length s.
Proof. induction s as [| c s IH]; simpl; congruence. Qed.

Lemma toLowerCase_trimStart (s : string) :
  JsString.trimStart (JsString.toLowerCase s)
  = JsString.toLowerCase (JsString.trimStart s).
Proof.
  induction s as [| c s IH]; [reflexivity |].
  simpl. rewrite lowerChar_space. destruct (JsString.isSpace c); [exact IH |].
  reflexivity.
Qed.

Lemma toLowerCase_empty (s : string) :
  String.eqb (JsString.toLowerCase s) EmptyString = String.eqb s EmptyString.
Proof. destruct s; reflexivity. Qed.

Lemma toLowerCase_trimEnd (s : string) :
  JsString.trimEnd (JsString.toLowerCase s)
  = JsString.toLowerCase (JsString.trimEnd s).
Proof.
  induction s as [| c s IH]; [reflexivity |].
  cbn [JsString.toLowerCase]. rewrite !trimEnd_cons, IH, lowerChar_space.
  rewrite toLowerCase_empty.
  destruct (JsString.isSpace c && String.eqb (JsString.trimEnd s) EmptyString);
    reflexivity.
Qed.

Lemma toLowerCase_trim (s : string) :
  JsString.trim (JsString.toLowerCase s)
  = JsString.toLowerCase (JsString.trim s).
Proof.
  unfold JsString.trim. now rewrite toLowerCase_trimStart, toLowerCase_trimEnd.
Qed.

Import JsText.

Lemma spaceFree_trimEnd (s : string) :
  spaceFree s = true -> JsString.trimEnd s = s.
Proof.
  induction s as [| c s IH]; [reflexivity |].
  unfold spaceFree. cbn [JsText.allChars]. intros H.
  apply andb_true_iff in H as [Hc Hs]. apply negb_true_iff in Hc.
  rewrite trimEnd_cons, Hc. cbn [andb]. now rewrite (IH Hs).
Qed.

Lemma spaceFree_trim (s : string) : spaceFree s = true -> JsString.trim s = s.
Proof.
  intros H. unfold JsString.trim.
  assert (E : JsString.trimStart s = s).
  { destruct s as [| c s]; [reflexivity |]. apply trimStart_fixed.
    unfold spaceFree in H. cbn [JsText.allChars] in H.
    apply andb_true_iff in H as [Hc _]. now apply negb_true_iff in Hc. }
  rewrite E. now apply spaceFree_trimEnd.
Qed.

Lemma spaceFree_replaceRuns (by_ s : string) (inRun : bool) :
  spaceFree s = true -> JsText.replaceRuns by_ s inRun = s.
Proof.
  revert inRun. induction s as [| c s IH]; intros inRun; [reflexivity |].
  unfold spaceFree. cbn [JsText.allChars]. intros H.
  apply andb_true_iff in H as [Hc Hs]. apply negb_true_iff in Hc.
  cbn [JsText.replaceRuns]. rewrite Hc. now rewrite (IH false Hs).
Qed.

Lemma replaceRuns_spaceFree (by_ s : string) (inRun : bool) :
  spaceFree by_ = true -> spaceFree (JsText.replaceRuns by_ s inRun) = true.
Proof.
  intros Hby. revert inRun. induction s as [| c s IH]; intros inRun;
    [reflexivity |].
  cbn [JsText.replaceRuns]. destruct (JsString.isSpace c) eqn:Hc.
  - destruct inRun; [apply IH |].
    unfold spaceFree. rewrite allChars_app. fold (spaceFree by_).
    rewrite Hby. apply IH.
  - unfold spaceFree. cbn [JsText.allChars]. rewrite Hc. apply IH.
Qed.

Lemma toLowerCase_app (s t : string) :
  JsString.toLowerCase (s ++ t)%string
  = (JsString.toLowerCase s ++ JsString.toLowerCase t)%string.
Proof.
  induction s as [| c s IH]; [reflexivity |].
  rewrite append_String. cbn [JsString.toLowerCase].
  now rewrite append_String, IH.
Qed.

Lemma replaceRuns_lower (by_ s : string) (inRun : bool) :
  JsString.toLowerCase by_ = by_ ->
  JsString.toLowerCase (JsText.replaceRuns by_ (JsString.toLowerCase s) inRun)
  = JsText.replaceRuns by_ (JsString.toLowerCase s) inRun.
Proof.
  intros Hby. revert inRun. induction s as [| c s IH]; intros inRun;
    [reflexivity |].
  cbn [JsString.toLowerCase JsText.replaceRuns].
  destruct (JsString.isSpace (JsString.lowerChar c)).
  - destruct inRun; [apply IH |]. now rewrite toLowerCase_app, Hby, IH.
  - cbn [JsString.toLowerCase]. now rewrite lowerChar_idem, IH.
Qed.

Lemma replaceRuns_nonempty (by_ : string) (c : ascii) (s : string) :
  JsString.isSpace c = false ->
  JsText.replaceRuns by_ (String c s) false
  = String c (JsText.replaceRuns by_ s false).
Proof. intros H. cbn [JsText.replaceRuns]. now rewrite H. Qed.

Lemma trimEnd_fixed_tail (c : ascii) (s : string) :
  JsString.trimEnd (String c s) = String c s ->
  JsString.trimEnd s = s /\ (JsString.isSpace c = true -> s <> EmptyString).
Proof.
  rewrite trimEnd_cons.
  destruct (JsString.isSpace c) eqn:Hc; cbn [andb].
  - destruct (String.eqb_spec (JsString.trimEnd s) EmptyString) as [E | Hne];
      [discriminate |].
    intros [= H]. split; [exact H |]. intros _ ->. now apply Hne.
  - intros [= H]. split; [exact H | discriminate].
Qed.

Lemma replaceRuns_singleSpaced (s : string) (inRun : bool) :
  JsString.trimEnd s = s -> (inRun = true -> s <> EmptyString) ->
  singleSpaced inRun (replaceRuns " " s inRun) = true.
Proof.
  revert inRun. induction s as [| c s IH]; intros inRun Hfix Hne.
  - destruct inRun; [now exfalso; apply Hne | reflexivity].
  - apply trimEnd_fixed_tail in Hfix as [Hfix Htail].
    cbn [replaceRuns]. destruct (JsString.isSpace c) eqn:Hc.
    + destruct inRun.
      * apply IH; [exact Hfix | intros _; now apply Htail].
      * change (" " ++ replaceRuns " " s true)%string
          with (String " " (replaceRuns " " s true)).
        cbn [singleSpaced].
        replace (JsString.isSpace " ") with true by reflexivity.
        cbn [Ascii.eqb Bool.eqb negb andb].
        apply IH; [exact Hfix | intros _; now apply Htail].
    + cbn [singleSpaced]. rewrite Hc. apply IH; [exact Hfix | discriminate].
Qed.

Lemma singleSpaced_nonempty (s : string) :
  singleSpaced true s = true -> (1 <= String.length s)%nat.
Proof. destruct s; simpl; [discriminate | lia]. Qed.

Lemma singleSpaced_replaceRuns (s : string) (b : bool) :
  singleSpaced b s = true -> replaceRuns " " s b = s.
Proof.
  revert b. induction s as [| c s IH]; intros b H; [reflexivity |].
  cbn [singleSpaced] in H. cbn [replaceRuns].
  destruct (JsString.isSpace c) eqn:Hc.
  - apply andb_true_iff in H as [H Hs]. apply andb_true_iff in H as [Hsp Hb].
    apply Ascii.eqb_eq in Hsp. apply negb_true_iff in Hb. subst b c.
    change (" " ++ replaceRuns " " s true)%string
      with (String " " (replaceRuns " " s true)).
    now rewrite (IH true Hs).
  - now rewrite (IH false H).
Qed.

Lemma singleSpaced_trimEnd (s : string) (b : bool) :
  singleSpaced b s = true -> JsString.trimEnd s = s.
Proof.
  revert b. induction s as [| c s IH]; intros b H; [reflexivity |].
  cbn [singleSpaced] in H. rewrite trimEnd_cons.
  destruct (JsString.isSpace c) eqn:Hc; cbn [andb].
  - apply andb_true_iff in H as [_ Hs]. rewrite (IH true Hs).
    destruct s; [discriminate Hs | reflexivity].
  - now rewrite (IH false H).
Qed.

Lemma singleSpaced_trim (s : string) :
  singleSpaced true s = true -> JsString.trim s = s.
Proof.
  intros H. unfold JsString.trim.
  assert (E : JsString.trimStart s = s).
  { destruct s as [| c s]; [reflexivity |]. apply trimStart_fixed.
    cbn [singleSpaced] in H. destruct (JsString.isSpace c); [| reflexivity].
    rewrite andb_false_r in H. discriminate H. }
  rewrite E. now apply (singleSpaced_trimEnd s true).
Qed.

(** What [sanitizeLine] returns is in normal form. *)
Lemma sanitizeLine_Ok (maxLength : nat) (line s : string) :
  QuoteTransformers.sanitizeLine maxLength line = Ok s ->
  s = replaceWhitespace " " (JsString.trim line)
  /\ (String.length s <= maxLength)%nat
  /\ singleSpaced true s = true.
Proof.
  unfold QuoteTransformers.sanitizeLine.
  destruct (String.length line =? 0)%nat; [discriminate |].
  destruct (Nat.eqb_spec
              (String.length (replaceWhitespace " " (JsString.trim line))) 0)
    as [| Hlen]; [discriminate |].
  destruct (Nat.ltb_spec maxLength
              (String.length (replaceWhitespace " " (JsString.trim line))));
    [discriminate |].
  intros [= <-]. split; [reflexivity |]. split; [assumption |].
  pose proof (trim_trimStart line) as Hs. pose proof (trim_trimEnd line) as He.
  unfold replaceWhitespace in *.
  destruct (JsString.trim line) as [| c t]; [now exfalso; apply Hlen |].
  apply trimStart_fixed in Hs. apply trimEnd_fixed_tail in He as [He _].
  cbn [replaceRuns]. rewrite Hs. cbn [singleSpaced]. rewrite Hs.
  apply replaceRuns_singleSpaced; [exact He | discriminate].
Qed.

Lemma sanitizeLine_fixed (maxLength : nat) (s : string) :
  singleSpaced true s = true -> (String.length s <= maxLength)%nat ->
  QuoteTransformers.sanitizeLine maxLength s = Ok s.
Proof.
  intros Hs Hlen. pose proof (singleSpaced_nonempty s Hs) as Hne.
  unfold QuoteTransformers.sanitizeLine, replaceWhitespace.
  rewrite (singleSpaced_trim s Hs).
  assert (E : replaceRuns " " s false = s).
  { destruct s as [| c s]; [reflexivity |].
    cbn [singleSpaced] in Hs. cbn [replaceRuns].
    destruct (JsString.isSpace c) eqn:Hc;
      [rewrite andb_false_r in Hs; discriminate Hs |].
    now rewrite (singleSpaced_replaceRuns s false Hs). }
  rewrite E.
  destruct (Nat.eqb_spec (String.length s) 0); [lia |].
  destruct (Nat.ltb_spec maxLength (String.length s)); [lia | reflexivity].
Qed.

End TrimFacts.

(** ** Sanitized tags *)

Section TagFacts.

Import JsText.

Lemma sanitizedTag_clean (tag : string) :
  (0 <? String.length (JsString.trim tag))%nat = true ->
  (String.length
     (replaceWhitespace "-" (JsString.toLowerCase (JsString.trim tag)))
   <=? 50)%nat = true ->
  cleanTag (replaceWhitespace "-" (JsString.toLowerCase (JsString.trim tag))).
Proof.
  intros Hne Hlen. apply Nat.ltb_lt in Hne. apply Nat.leb_le in Hlen.
  unfold replaceWhitespace in *. split; [| split].
  - split; [| exact Hlen].
    pose proof (trim_trimStart tag) as Hs.
    destruct (JsString.trim tag) as [| c t]; [simpl in Hne; lia |].
    apply trimStart_fixed in Hs. cbn [JsString.toLowerCase replaceRuns].
    rewrite lowerChar_space, Hs. simpl. lia.
  - now apply replaceRuns_spaceFree.
  - now apply replaceRuns_lower.
Qed.

Lemma sanitizeTagStep_inv (acc : list string) (item : QuoteTransformers.JsItem) :
  NoDup acc -> Forall cleanTag acc ->
  NoDup (QuoteTransformers.sanitizeTagStep acc item)
  /\ Forall cleanTag (QuoteTransformers.sanitizeTagStep acc item).
Proof.
  intros Hnd Hall. destruct item as [tag |]; [| now split].
  unfold QuoteTransformers.sanitizeTagStep.
  destruct (0 <? _)%nat eqn:Hne; [| now split].
  destruct (_ <=? 50)%nat eqn:Hlen; cbn [andb]; [| now split].
  destruct (JsArray.includes acc _) eqn:Hin; cbn [negb]; [now split |].
  apply includes_false in Hin. split.
  - apply NoDup_app. split; [exact Hnd |]. split; [| apply NoDup_singleton].
    intros x Hx Hx'. apply list_elem_of_In in Hx.
    apply list_elem_of_singleton in Hx'. subst x. now apply Hin.
  - apply Forall_app. split; [exact Hall |]. apply Forall_singleton.
    now apply sanitizedTag_clean.
Qed.

Lemma sanitizeTags_loop_inv (items : list QuoteTransformers.JsItem)
    (acc : list string) :
  NoDup acc -> Forall cleanTag acc ->
  NoDup (fold_left QuoteTransformers.sanitizeTagStep items acc)
  /\ Forall cleanTag (fold_left QuoteTransformers.sanitizeTagStep items acc).
Proof.
  revert acc. induction items as [| item items IH]; intros acc Hnd Hall;
    [now split |].
  simpl. destruct (sanitizeTagStep_inv acc item Hnd Hall) as [Hnd' Hall'].
  now apply IH.
Qed.

Lemma sanitizeTags_loop_fixed (tags acc : list string) :
  NoDup (acc ++ tags) -> Forall cleanTag tags ->
  fold_left QuoteTransformers.sanitizeTagStep
            (map QuoteTransformers.ItemString tags) acc
  = (acc ++ tags)%list.
Proof.
  revert acc. induction tags as [| t tags IH]; intros acc Hnd Hall.
  - now rewrite app_nil_r.
  - apply Forall_cons in Hall as [[[Hlo Hhi] [Hsf Hlow]] Hall].
    cbn [map fold_left QuoteTransformers.sanitizeTagStep].
    rewrite (spaceFree_trim t Hsf), Hlow.
    unfold replaceWhitespace. rewrite (spaceFree_replaceRuns "-" t false Hsf).
    replace (0 <? String.length t)%nat with true
      by (symmetry; apply Nat.ltb_lt; lia).
    replace (String.length t <=? 50)%nat with true
      by (symmetry; apply Nat.leb_le; lia).
    assert (Hfresh : JsArray.includes acc t = false).
    { apply includes_false. intros Hin. apply list_elem_of_In in Hin.
      apply NoDup_app in Hnd as (_ & Hdis & _).
      apply (Hdis t Hin). apply elem_of_cons. now left. }
    rewrite Hfresh. cbn [andb negb].
    rewrite IH; [now rewrite <- app_assoc | | exact Hall].
    now rewrite <- app_assoc.
Qed.

Lemma NoDup_firstn {A} (n : nat) (l : list A) : NoDup l -> NoDup (firstn n l).
Proof.
  intros H. rewrite <- (firstn_skipn n l) in H.
  now apply NoDup_app in H as [H _].
Qed.

Lemma Forall_firstn {A} (P : A -> Prop) (n : nat) (l : list A) :
  Forall P l -> Forall P (firstn n l).
Proof.
  intros H. rewrite <- (firstn_skipn n l) in H.
  now apply Forall_app in H as [H _].
Qed.

End TagFacts.

Section EngineProperties.

Import SimilarityEngine.
Local Open Scope Q_scope.

(** X1. The keywords of a text are pairwise different; each is longer than
    two code units, is no stop word and is made of the characters a-z, 0-9
    and underscore only. *)
Theorem extractKeywords_shape (text : string) :
  NoDup (extractKeywords text)
  /\ forall w, w ∈ extractKeywords text ->
       (2 < String.length w)%nat
       /\ (w ∉ stopWords)
       /\ JsText.allChars JsText.isKeywordChar w = true.
Proof.
  split; [apply extractKeywords_NoDup |].
  intros w Hw. apply list_elem_of_In, extractKeywords_In in Hw.
  apply filter_In in Hw as [Hsplit Hkeep].
  apply andb_true_iff in Hkeep as [Hlen Hstop].
  apply Nat.ltb_lt in Hlen. apply negb_true_iff, includes_false in Hstop.
  split; [exact Hlen |]. split; [now rewrite list_elem_of_In |].
  eapply (splitLoop_chars _ EmptyString false);
    [apply cleaned_chars | reflexivity | exact Hsplit].
Qed.

(** X2. The edit distance is symmetric, is zero exactly for equal strings,
    and lies between the difference of the two lengths and the greater
    length. *)
Theorem levenshtein_distance_properties (a b : string) :
  calculateLevenshteinDistance a b = calculateLevenshteinDistance b a
  /\ (calculateLevenshteinDistance a b = 0%Z <-> a = b)
  /\ (Z.abs (Z.of_nat (String.length a) - Z.of_nat (String.length b))
      <= calculateLevenshteinDistance a b
      <= Z.of_nat (Nat.max (String.length a) (String.length b)))%Z.
Proof.
  rewrite !levenshtein_matrix. split; [apply prefixDistance_sym |].
  split; [apply editDistance_zero |].
  split; [apply prefixDistance_lower | apply prefixDistance_upper].
Qed.

(** X3. The similarity of two author names does not depend on their order,
    and it is 1 exactly when the names are equal once lower-cased and
    trimmed. *)
Theorem authorSimilarity_symmetric_and_one (a b : string) :
  calculateAuthorSimilarity a b = calculateAuthorSimilarity b a
  /\ (calculateAuthorSimilarity a b == 1
      <-> JsString.trim (JsString.toLowerCase a)
          = JsString.trim (JsString.toLowerCase b)).
Proof.
  split; [apply calculateAuthorSimilarity_sym | apply authorSimilarity_one].
Qed.

(** X4. For two quotes whose tags form sets the similarity score is
    symmetric. *)
Theorem overallSimilarity_symmetric (quote1 quote2 : Quote) :
  Spec.tagsFormSet quote1 -> Spec.tagsFormSet quote2 ->
  calculateOverallSimilarity quote1 quote2
  == calculateOverallSimilarity quote2 quote1.
Proof.
  intros H1 H2.
  rewrite (overallSimilarity_formula quote1 quote2 H1).
  rewrite (overallSimilarity_formula quote2 quote1 H2).
  now rewrite overall_sym.
Qed.

Lemma overallSimilarity_symmetric_witness :
  calculateOverallSimilarity Sample.hardWork Sample.greatWork
  == calculateOverallSimilarity Sample.greatWork Sample.hardWork.
Proof.
  apply (overallSimilarity_symmetric Sample.hardWork Sample.greatWork).
  - apply (bool_decide_unpack _). vm_compute. reflexivity.
  - apply (bool_decide_unpack _). vm_compute. reflexivity.
Defined.

(** X5. Cutting a ranking computed with a limit to a smaller limit gives
    the ranking computed with the smaller limit; and a ranking whose limit
    is at least the size of the pool holds every candidate other than the
    target whose score reaches the threshold. *)
Theorem findSimilarQuotes_truncation (target : Quote) (pool : list Quote)
    (small large : Z) :
  (0 <= small <= large)%Z ->
  JsArray.slice0 (findSimilarQuotes target pool large) small
  = findSimilarQuotes target pool small
  /\ ((Z.of_nat (length pool) <= large)%Z ->
      forall c, c ∈ pool -> id c <> id target ->
        MINIMUM_SIMILARITY_SCORE <= calculateOverallSimilarity target c ->
        mkSimilarityScore c (calculateOverallSimilarity target c)
        ∈ findSimilarQuotes target pool large).
Proof.
  intros Hlimits. rewrite !findSimilarQuotes_unfold.
  rewrite !slice0_nonneg by lia. split.
  - apply firstn_firstn_le. lia.
  - intros Hlarge c Hc Hid Hmin.
    rewrite firstn_all2.
    + rewrite sort_elem_of. apply list_elem_of_omap. exists c.
      split; [exact Hc |]. unfold Spec.scored.
      apply String.eqb_neq in Hid. rewrite Hid.
      apply Qle_bool_iff in Hmin. now rewrite Hmin.
    + rewrite sort_length.
      pose proof (omap_length (Spec.scored target) pool). lia.
Qed.

Lemma findSimilarQuotes_truncation_witness :
  JsArray.slice0 (findSimilarQuotes Sample.hardWork Sample.pool 10) 1
  = findSimilarQuotes Sample.hardWork Sample.pool 1.
Proof.
  refine (proj1 (findSimilarQuotes_truncation Sample.hardWork Sample.pool
                   1 10 _)).
  lia.
Defined.

End EngineProperties.

Section TransformerProperties.

Import JsText QuoteTransformers.

(** X6. A text or an author name that [sanitizeQuoteText] or
    [sanitizeAuthorName] accepts comes back non-empty, at most 1000
    (respectively 200) code units long, without white space at either end
    and with single spaces as its only white space; sanitizing the result
    again returns it unchanged. *)
Theorem sanitizeLine_normal_form (input s : string) :
  (sanitizeQuoteText input = Ok s ->
   (1 <= String.length s <= 1000)%nat
   /\ singleSpaced true s = true
   /\ JsString.trim s = s
   /\ sanitizeQuoteText s = Ok s)
  /\ (sanitizeAuthorName input = Ok s ->
      (1 <= String.length s <= 200)%nat
      /\ singleSpaced true s = true
      /\ JsString.trim s = s
      /\ sanitizeAuthorName s = Ok s).
Proof.
  split; intros H; apply sanitizeLine_Ok in H as (_ & Hlen & Hs);
    (split; [split; [now apply singleSpaced_nonempty | exact Hlen] |]);
    (split; [exact Hs |]);
    (split; [now apply singleSpaced_trim | now apply sanitizeLine_fixed]).
Qed.

(** X7. The tags [sanitizeTags] of quoteTransformers returns are at most
    ten, pairwise different, each of 1 to 50 code units, without white
    space and in lower case; so they form a set in the sense of the
    scoring, and sanitizing them again returns them unchanged. *)
Theorem sanitizeTags_clean (input : TagsInput) (result : list string) :
  sanitizeTags input = Ok result ->
  (length result <= 10)%nat
  /\ NoDup result
  /\ (forall t, t ∈ result ->
        (1 <= String.length t <= 50)%nat
        /\ spaceFree t = true
        /\ JsString.toLowerCase t = t)
  /\ (forall q, tags q = Some result -> Spec.tagsFormSet q)
  /\ sanitizeTags (TagsArray (map ItemString result)) = Ok result.
Proof.
  intros H.
  assert (Hinv : (length result <= 10)%nat /\ NoDup result
                 /\ Forall cleanTag result).
  { destruct input as [| | items]; [| discriminate |].
    - injection H as <-. split; [simpl; lia |].
      split; [apply NoDup_nil_2 | apply Forall_nil_2].
    - injection H as <-. rewrite slice0_nonneg by lia.
      destruct (sanitizeTags_loop_inv items [] (NoDup_nil_2) (Forall_nil_2 _))
        as [Hnd Hall].
      split; [rewrite length_firstn; lia |].
      split; [now apply NoDup_firstn | now apply Forall_firstn]. }
  destruct Hinv as (Hlen & Hnd & Hall).
  split; [exact Hlen |]. split; [exact Hnd |].
  split; [intros t Ht; rewrite Forall_forall in Hall; now apply Hall |].
  split.
  - intros q Hq. unfold Spec.tagsFormSet, SimilarityEngine.tagsOrEmpty.
    rewrite Hq.
    replace (map JsString.toLowerCase result) with result; [exact Hnd |].
    symmetry. rewrite <- (map_id result) at 2. apply map_ext_in.
    intros t Ht. apply list_elem_of_In in Ht.
    rewrite Forall_forall in Hall. now apply Hall.
  - cbn [sanitizeTags]. rewrite (sanitizeTags_loop_fixed result []).
    + cbn [app]. f_equal. apply slice0_all. lia.
    + exact Hnd.
    + exact Hall.
Qed.

Lemma sanitizeTags_clean_witness :
  (length ["hard-work"; "talent"] <= 10)%nat.
Proof.
  refine (proj1 (sanitizeTags_clean
                   (TagsArray [ItemString " Hard  Work "; ItemOther;
                               ItemString "talent"; ItemString "TALENT";
                               ItemString "   "])
                   ["hard-work"; "talent"]%string _)).
  vm_compute. reflexivity.
Defined.

(** X8. The tags [sanitizeTags] of the database utilities keeps are at most
    ten, each non-empty, trimmed and in lower case, in the order of the
    input; an absent list stays absent. *)
Theorem database_sanitizeTags_shape (input : option (list string)) :
  match input, DatabaseUtils.sanitizeTags input with
  | None, None => True
  | Some given, Some result =>
      (length result <= 10)%nat
      /\ result `prefix_of`
           map (fun tag => JsString.toLowerCase (JsString.trim tag))
               (List.filter
                  (fun tag => negb (String.eqb (JsString.trim tag) ""))
                  given)
      /\ forall t, t ∈ result ->
           (1 <= String.length t)%nat
           /\ JsString.trim t = t
           /\ JsString.toLowerCase t = t
  | _, _ => False
  end.
Proof.
  destruct input as [given |]; cbn [DatabaseUtils.sanitizeTags]; [| exact I].
  rewrite slice0_nonneg by lia.
  set (kept := List.filter _ given).
  assert (Hkept : kept = List.filter
            (fun tag => negb (String.eqb (JsString.trim tag) "")) given).
  { apply List.filter_ext. intros tag.
    destruct (JsString.trim tag); reflexivity. }
  split; [rewrite length_firstn; lia |].
  split; [rewrite <- Hkept; apply prefix_take |].
  intros t Ht. apply subseteq_take in Ht.
  apply list_elem_of_In, in_map_iff in Ht as (tag & <- & Htag).
  apply filter_In in Htag as [_ Hne]. apply Nat.ltb_lt in Hne.
  split; [now rewrite toLowerCase_length |].
  split; [now rewrite toLowerCase_trim, trim_idem | apply toLowerCase_idem].
Qed.

End TransformerProperties.

(** ** The uniform selection, the likes and the stored similarities *)

Section RepositoryFacts.

Import QuoteRepository QuoteRepositoryMore.
Local Open Scope Q_scope.











End RepositoryFacts.

Section RepositoryProperties.

Import QuoteRepository QuoteRepositoryMore.
Local Open Scope Q_scope.



End RepositoryProperties.

(** ** Likes and look-ups by id *)

Section LikeFacts.

Import QuoteRepository QuoteService QuoteServiceMore.

Lemma find_id_Some (x : string) (table : list Quote) (q : Quote) :
  List.find (fun r => String.eqb (id r) x) table = Some q ->
  q ∈ table /\ id q = x.
Proof.
  intros H. apply find_some in H as [Hin E].
  split; [now apply list_elem_of_In | now apply String.eqb_eq].
Qed.

Lemma count_pos_iff (x : string) (table : list Quote) :
  (0 <? length (List.filter (fun q => String.eqb (id q) x) table))%nat = true
  <-> x ∈ map id table.
Proof.
  induction table as [| q table IH]; cbn [List.filter map length].
  - split; [discriminate | intros H; now apply elem_of_nil in H].
  - rewrite elem_of_cons. destruct (String.eqb_spec (id q) x) as [E | Hne].
    + split; [now left | reflexivity].
    + rewrite IH. split; [now right | intros [E | H]; [congruence | exact H]].
Qed.

Lemma blankId_trim (s : string) : blankId (JsString.trim s) = blankId s.
Proof. unfold blankId. now rewrite trim_idem. Qed.


End LikeFacts.

Section LikeProperties.

Import QuoteRepository QuoteService QuoteServiceMore.


(** X11. [getQuoteById] and [quoteExists] read the id trimmed, so a padded
    id gives the same answer.  A blank id is a validation error for the
    one and [false] for the other.  A quote that [getQuoteById] returns is
    a row of the table with the trimmed id.  With the database answering,
    [quoteExists] is true exactly when [getQuoteById] returns a quote;
    when the count fails it answers [false] rather than throwing. *)
Theorem lookup_by_id (env : Env) (w : World) (id_ : string) :
  getQuoteById env w (JsString.trim id_) = getQuoteById env w id_
  /\ quoteExists env w (JsString.trim id_) = quoteExists env w id_
  /\ (blankId id_ = true ->
      getQuoteById env w id_ = Throw validationError
      /\ quoteExists env w id_ = false)
  /\ (forall q, getQuoteById env w id_ = Ok (Some q) ->
      q ∈ quoteTable w /\ id q = JsString.trim id_)
  /\ (prismaFails env Count = false -> prismaFails env FindUnique = false ->
      (quoteExists env w id_ = true
       <-> exists q, getQuoteById env w id_ = Ok (Some q)))
  /\ (prismaFails env Count = true -> quoteExists env w id_ = false).
Proof.
  unfold getQuoteById, quoteExists, findById, exists_.
  rewrite blankId_trim, trim_idem.
  split; [reflexivity | split; [reflexivity |]].
  split; [intros ->; now split |].
  split.
  { destruct (blankId id_); [discriminate |].
    destruct (prismaFails env FindUnique); [discriminate |].
    intros q [= H]. now apply find_id_Some. }
  split.
  - intros -> ->. destruct (blankId id_).
    + split; [discriminate | intros [q H]; discriminate].
    + destruct (0 <? _)%nat eqn:Hpos.
      * destruct (find_count _ _ Hpos) as [q Hq]. rewrite Hq.
        split; [eauto | reflexivity].
      * split; [discriminate |]. intros [q [= Hq]].
        apply find_id_Some in Hq as [Hin Hid].
        assert (Hmem : JsString.trim id_ ∈ map id (quoteTable w))
          by (rewrite <- Hid; apply list_elem_of_fmap; now exists q).
        apply count_pos_iff in Hmem. congruence.
  - intros ->. now destruct (blankId id_).
Qed.

End LikeProperties.

(** ** The stored similarities *)

Section StoredFacts.

Import QuoteRepository QuoteRepositoryMore.
Local Open Scope Q_scope.


Lemma filter_rows_other (quoteId_ other : string) (l : list SimilarityScore) :
  other <> quoteId_ ->
  List.filter (fun r => String.eqb (quoteId r) other) (map (rowOf quoteId_) l)
  = [].
Proof.
  intros Hne. apply filter_none. intros r Hr.
  apply list_elem_of_fmap in Hr as (s & -> & _). cbn [rowOf quoteId].
  apply String.eqb_neq. congruence.
Qed.

Lemma filter_kept_same (quoteId_ : string) (rows : list SimilarityRow) :
  List.filter (fun r => String.eqb (quoteId r) quoteId_)
    (List.filter (fun r => negb (String.eqb (quoteId r) quoteId_)) rows)
  = [].
Proof.
  apply filter_none. intros r Hr.
  apply list_elem_of_In, filter_In in Hr as [_ Hr].
  now apply negb_true_iff in Hr.
Qed.

Lemma filter_kept_other (quoteId_ other : string) (rows : list SimilarityRow) :
  other <> quoteId_ ->
  List.filter (fun r => String.eqb (quoteId r) other)
    (List.filter (fun r => negb (String.eqb (quoteId r) quoteId_)) rows)
  = List.filter (fun r => String.eqb (quoteId r) other) rows.
Proof.
  intros Hne. induction rows as [| r rows IH]; [reflexivity |].
  cbn [List.filter].
  destruct (String.eqb_spec (quoteId r) quoteId_) as [E | Hr]; cbn [negb].
  - destruct (String.eqb_spec (quoteId r) other) as [E' | _]; [congruence |].
    exact IH.
  - cbn [List.filter]. destruct (String.eqb (quoteId r) other);
      [f_equal |]; exact IH.
Qed.



Lemma getCachedSimilarities_rows (env : Env) (w w' : World)
    (quoteId_ : string) (limit : Z) :
  quoteTable w' = quoteTable w ->
  List.filter (fun r => String.eqb (quoteId r) quoteId_) (similarityTable w')
  = List.filter (fun r => String.eqb (quoteId r) quoteId_) (similarityTable w) ->
  getCachedSimilarities env w' quoteId_ limit
  = getCachedSimilarities env w quoteId_ limit.
Proof.
  intros Hq Hr. unfold getCachedSimilarities. now rewrite Hq, Hr.
Qed.

Lemma rowsAccepted_spec (w : World) (kept : list SimilarityRow)
    (quoteId_ : string) (l : list SimilarityScore) :
  l <> [] ->
  rowsAccepted (withSimilarityRows w kept) (map (rowOf quoteId_) l) = true
  <-> quoteId_ ∈ map id (quoteTable w)
      /\ Forall (fun s => id (quote s) ∈ map id (quoteTable w)) l
      /\ NoDup (map (fun s => id (quote s)) l).
Proof.
  intros Hne. unfold rowsAccepted.
  rewrite andb_true_iff, bool_decide_eq_true, map_map, forallb_forall.
  cbn [rowOf similarQuoteId withSimilarityRows quoteTable].
  split.
  - intros [Hall Hnd]. split; [| split; [| exact Hnd]].
    + destruct l as [| s l]; [congruence |].
      specialize (Hall (rowOf quoteId_ s) (or_introl eq_refl)).
      apply andb_true_iff in Hall as [Hq _].
      now apply includes_In, list_elem_of_In in Hq.
    + apply Forall_forall. intros s Hs.
      specialize (Hall (rowOf quoteId_ s)).
      rewrite in_map_iff in Hall.
      destruct (andb_prop _ _ (Hall (ex_intro _ s (conj eq_refl
                   (proj1 (list_elem_of_In _ _) Hs))))) as [_ Hq].
      now apply includes_In, list_elem_of_In in Hq.
  - intros (Hq & Hall & Hnd). split; [| exact Hnd].
    intros r Hr. apply in_map_iff in Hr as (s & <- & Hs).
    cbn [rowOf quoteId similarQuoteId].
    apply andb_true_iff. split; apply includes_In, list_elem_of_In.
    + exact Hq.
    + rewrite Forall_forall in Hall. apply Hall. now apply list_elem_of_In.
Qed.

Lemma getCachedSimilarities_no_rows (env : Env) (w : World)
    (quoteId_ : string) (limit : Z) :
  prismaFails env FindMany = false ->
  List.filter (fun r => String.eqb (quoteId r) quoteId_) (similarityTable w)
  = [] ->
  getCachedSimilarities env w quoteId_ limit = Ok [].
Proof.
  intros Hmany Hr. unfold getCachedSimilarities. rewrite Hmany, Hr.
  cbn. now rewrite firstn_nil.
Qed.

End StoredFacts.

Section StoredProperties.

Import QuoteRepository QuoteRepositoryMore.
Local Open Scope Q_scope.



(** X13. [cacheSimilarities] is not atomic.  It throws, always a database
    error, exactly when the deletion fails, or when the ranking is not
    empty and the insertion fails or breaks a constraint of the table
    (an id that is not a quote, or a quote ranked twice).  When the
    deletion fails nothing changes; when it throws after the deletion,
    the ranking stored before is lost: the quote then has no stored
    similarities.  Whatever the outcome, the rows of other quotes, the
    quotes and the Redis store are untouched. *)
Theorem cacheSimilarities_failure (f : Faults) (w : World)
    (quoteId_ : string) (similarities : list SimilarityScore) :
  let outcome := fst (cacheSimilarities f w quoteId_ similarities) in
  let w' := snd (cacheSimilarities f w quoteId_ similarities) in
  (isThrow outcome = true
   <-> extraFails f DeleteMany = true
       \/ (similarities <> []
           /\ (extraFails f CreateMany = true
               \/ ~ (quoteId_ ∈ map id (quoteTable w)
                     /\ Forall (fun s => id (quote s) ∈ map id (quoteTable w))
                               similarities
                     /\ NoDup (map (fun s => id (quote s)) similarities)))))
  /\ (forall e, outcome = Throw e -> e = databaseError)
  /\ (extraFails f DeleteMany = true -> w' = w)
  /\ (extraFails f DeleteMany = false -> isThrow outcome = true ->
      forall env limit, prismaFails env FindMany = false ->
      getCachedSimilarities env w' quoteId_ limit = Ok [])
  /\ (forall env other limit, other <> quoteId_ ->
      getCachedSimilarities env w' other limit
      = getCachedSimilarities env w other limit)
  /\ quoteTable w' = quoteTable w
  /\ redis w' = redis w.
Proof.
  intros outcome w'. unfold outcome, w', cacheSimilarities.
  set (kept := List.filter (fun r => negb (String.eqb (quoteId r) quoteId_))
                           (similarityTable w)).
  destruct (extraFails f DeleteMany) eqn:Hdel.
  { cbn [fst snd isThrow].
    repeat split; try reflexivity; try discriminate; try congruence.
    now left. }
  destruct similarities as [| s rest].
  { cbn [length Nat.ltb Nat.leb fst snd isThrow].
    split; [split; [discriminate | intros [H | [H _]]; congruence] |].
    split; [discriminate |]. split; [discriminate |].
    split; [discriminate |].
    split; [| split; reflexivity].
    intros env other limit Hne. apply getCachedSimilarities_rows;
      [reflexivity |]. now apply filter_kept_other. }
  change (0 <? length (s :: rest))%nat with true. cbv iota.
  pose proof (rowsAccepted_spec w kept quoteId_ (s :: rest)) as Hspec.
  destruct (extraFails f CreateMany) eqn:Hcreate; cbn [orb].
  - cbn [fst snd isThrow].
    split; [split; [intros _; right; split; [discriminate | now left]
                   | reflexivity] |].
    split; [now intros e [= <-] |]. split; [discriminate |].
    split.
    { intros _ _ env limit Hmany.
      apply getCachedSimilarities_no_rows; [exact Hmany |].
      apply filter_kept_same. }
    split; [| split; reflexivity].
    intros env other limit Hne. apply getCachedSimilarities_rows;
      [reflexivity |]. now apply filter_kept_other.
  - destruct (rowsAccepted _ _) eqn:Hacc; cbn [negb fst snd isThrow].
    + split.
      { split; [discriminate |].
        intros [H | [_ [H | H]]]; try discriminate.
        exfalso. apply H. apply Hspec; [discriminate | reflexivity]. }
      split; [discriminate |]. split; [discriminate |].
      split; [discriminate |].
      split; [| split; reflexivity].
      intros env other limit Hne. apply getCachedSimilarities_rows;
        [reflexivity |]. cbn [withSimilarityRows similarityTable].
      unfold kept.
      rewrite List.filter_app, filter_kept_other, filter_rows_other
        by exact Hne.
      now rewrite app_nil_r.
    + split.
      { split; [| reflexivity]. intros _. right.
        split; [discriminate |]. right. intros H.
        apply Hspec in H; [congruence | discriminate]. }
      split; [now intros e [= <-] |]. split; [discriminate |].
      split.
      { intros _ _ env limit Hmany.
        apply getCachedSimilarities_no_rows; [exact Hmany |].
        apply filter_kept_same. }
      split; [| split; reflexivity].
      intros env other limit Hne. apply getCachedSimilarities_rows;
        [reflexivity |]. now apply filter_kept_other.
Qed.

(** X14. [clearCachedSimilarities] throws a database error and changes
    nothing when the deletion fails.  Otherwise it keeps exactly the rows
    that do not name the quote on either side: afterwards the quote has no
    stored similarities and no stored ranking of another quote contains
    it, the quotes and the Redis store are as before, and clearing a
    second time changes nothing. *)
Theorem clearCachedSimilarities_effect (f : Faults) (w : World)
    (quoteId_ : string) :
  let outcome := fst (clearCachedSimilarities f w quoteId_) in
  let w' := snd (clearCachedSimilarities f w quoteId_) in
  (extraFails f DeleteMany = true ->
   outcome = Throw databaseError /\ w' = w)
  /\ (extraFails f DeleteMany = false ->
      outcome = Ok tt
      /\ (forall r, r ∈ similarityTable w'
                    <-> r ∈ similarityTable w
                        /\ quoteId r <> quoteId_
                        /\ similarQuoteId r <> quoteId_)
      /\ (forall env limit, prismaFails env FindMany = false ->
          getCachedSimilarities env w' quoteId_ limit = Ok [])
      /\ (forall env other limit entries,
          getCachedSimilarities env w' other limit = Ok entries ->
          forall e, e ∈ entries -> id (quote e) <> quoteId_)
      /\ quoteTable w' = quoteTable w
      /\ redis w' = redis w
      /\ snd (clearCachedSimilarities f w' quoteId_) = w').
Proof.
  intros outcome w'. unfold outcome, w', clearCachedSimilarities.
  destruct (extraFails f DeleteMany) eqn:Hdel; cbn [fst snd].
  { split; [now split | discriminate]. }
  split; [discriminate |]. intros _.
  set (keep := fun r => negb (String.eqb (quoteId r) quoteId_
                               || String.eqb (similarQuoteId r) quoteId_)).
  assert (Hkeep : forall r, keep r = true
                            <-> quoteId r <> quoteId_
                                /\ similarQuoteId r <> quoteId_).
  { intros r. unfold keep.
    rewrite negb_true_iff, orb_false_iff, !String.eqb_neq. tauto. }
  assert (Hrows : forall r,
            r ∈ List.filter keep (similarityTable w)
            <-> r ∈ similarityTable w
                /\ quoteId r <> quoteId_ /\ similarQuoteId r <> quoteId_).
  { intros r. now rewrite !list_elem_of_In, filter_In, Hkeep. }
  split; [reflexivity |]. split; [exact Hrows |].
  split.
  { intros env limit Hmany.
    apply getCachedSimilarities_no_rows; [exact Hmany |].
    cbn [withSimilarityRows similarityTable]. apply filter_none.
    intros r Hr. apply Hrows in Hr as (_ & Hq & _).
    now apply String.eqb_neq. }
  split.
  { intros env other limit entries. unfold getCachedSimilarities.
    destruct (prismaFails env FindMany); [discriminate |].
    intros [= <-] e He.
    apply list_elem_of_omap in He as (r & Hr & Hjoin).
    apply (subseteq_take (Z.to_nat limit)) in Hr.
    apply sort_elem_of in Hr.
    apply list_elem_of_In, filter_In in Hr as [Hr _].
    cbn [withSimilarityRows similarityTable quoteTable] in Hr, Hjoin.
    apply list_elem_of_In, Hrows in Hr as (_ & _ & Hs).
    destruct (List.find _ (quoteTable w)) as [q |] eqn:Hfind;
      [| discriminate].
    injection Hjoin as <-. cbn [quote].
    apply find_id_Some in Hfind as [_ Hid]. congruence. }
  split; [reflexivity |]. split; [reflexivity |].
  cbn [withSimilarityRows similarityTable quoteTable redis].
  unfold withSimilarityRows. f_equal. cbn [similarityTable].
  fold keep. clear Hrows.
  induction (similarityTable w) as [| r rows IH]; [reflexivity |].
  cbn [List.filter]. destruct (keep r) eqn:E; [| exact IH].
  cbn [List.filter]. rewrite E. now f_equal.
Qed.

End StoredProperties.

(** ** The Redis entries of similar quotes *)

Section CacheFacts.

Import CacheService CacheServiceMore.

Lemma similar_key_prefix (quoteId_ : string) :
  String.prefix SIMILAR_QUOTES_PREFIX (SIMILAR_QUOTES_PREFIX ++ quoteId_)%string
  = true.
Proof. apply prefix_spec. now exists quoteId_. Qed.

Lemma lookup_delete_all (m : gmap string CacheValue) (keys : list string)
    (key : string) :
  fold_right (fun k store => delete k store) m keys !! key
  = if bool_decide (key ∈ keys) then None else m !! key.
Proof.
  induction keys as [| k keys IH]; cbn [fold_right].
  - rewrite bool_decide_eq_false_2; [reflexivity | apply not_elem_of_nil].
  - destruct (decide (k = key)) as [-> | Hne].
    + rewrite lookup_delete_eq, bool_decide_eq_true_2;
        [reflexivity | apply elem_of_cons; now left].
    + rewrite lookup_delete_ne, IH by exact Hne.
      apply (f_equal (fun b : bool => if b then None else m !! key)).
      apply bool_decide_ext. rewrite elem_of_cons. split; [tauto |].
      intros [E | H]; [congruence | exact H].
Qed.

Lemma similar_keys_elem (m : gmap string CacheValue) (key : string) :
  key ∈ List.filter (String.prefix SIMILAR_QUOTES_PREFIX)
                    (map fst (map_to_list m))
  <-> String.prefix SIMILAR_QUOTES_PREFIX key = true /\ is_Some (m !! key).
Proof.
  rewrite list_elem_of_In, filter_In, <- list_elem_of_In, list_elem_of_fmap.
  split.
  - intros [((k & v) & -> & Hkv) Hp]. split; [exact Hp |].
    apply elem_of_map_to_list in Hkv. now exists v.
  - intros [Hp [v Hv]]. split; [| exact Hp].
    exists (key, v). split; [reflexivity | now apply elem_of_map_to_list].
Qed.

End CacheFacts.

Section CacheProperties.

Import CacheService CacheServiceMore.

(** X15. The Redis entry of similar quotes: a list written with
    [setSimilarQuotes] is what [getSimilarQuotes] reads back for the same
    id, the last write wins, and the entries of other ids and the tables
    are untouched; after [invalidateQuote] of the id the read is a miss
    again while other ids keep their entries.  A failing write changes
    nothing and a failing read is a miss. *)
Theorem similar_cache_round_trip (env : Env) (w : World) (quoteId_ : string)
    (similarQuotes : list SimilarityScore) :
  let w' := setSimilarQuotes env w quoteId_ similarQuotes in
  (redisFails env RedisSet = true -> w' = w)
  /\ (forall env', redisFails env' RedisGet = true ->
      getSimilarQuotes env' w' quoteId_ = None)
  /\ quoteTable w' = quoteTable w
  /\ similarityTable w' = similarityTable w
  /\ (forall env' other, other <> quoteId_ ->
      getSimilarQuotes env' w' other = getSimilarQuotes env' w other)
  /\ (redisFails env RedisSet = false ->
      (forall env', redisFails env' RedisGet = false ->
       getSimilarQuotes env' w' quoteId_ = Some similarQuotes)
      /\ (forall earlier,
          setSimilarQuotes env (setSimilarQuotes env w quoteId_ earlier)
                           quoteId_ similarQuotes = w')
      /\ (forall env' env'', redisFails env' RedisDel = false ->
          getSimilarQuotes env'' (invalidateQuote env' w' quoteId_) quoteId_
          = None)
      /\ (forall env' env'' other, other <> quoteId_ ->
          getSimilarQuotes env'' (invalidateQuote env' w' other) quoteId_
          = getSimilarQuotes env'' w' quoteId_)).
Proof.
  intros w'. unfold w', setSimilarQuotes.
  split; [now intros -> |].
  split; [intros env' H; unfold getSimilarQuotes; now rewrite H |].
  split; [now destruct (redisFails env RedisSet) |].
  split; [now destruct (redisFails env RedisSet) |].
  split.
  { intros env' other Hne. unfold getSimilarQuotes.
    destruct (redisFails env RedisSet); [reflexivity |]. cbn [redis].
    rewrite lookup_insert_ne; [reflexivity |].
    intros E. apply similar_key_inj in E. congruence. }
  intros ->. split; [| split; [| split]].
  - intros env' Hget. unfold getSimilarQuotes. rewrite Hget. cbn [redis].
    now rewrite lookup_insert_eq.
  - intros earlier. cbn [redis quoteTable similarityTable].
    now rewrite insert_insert_eq.
  - intros env' env'' Hdel. unfold getSimilarQuotes, invalidateQuote.
    rewrite Hdel. cbn [redis]. rewrite lookup_delete_eq.
    now destruct (redisFails env'' RedisGet).
  - intros env' env'' other Hne. unfold getSimilarQuotes, invalidateQuote.
    destruct (redisFails env' RedisDel); [reflexivity |]. cbn [redis].
    rewrite !lookup_delete_ne; [reflexivity | |].
    + apply quote_key_not_similar.
    + intros E. apply similar_key_inj in E. congruence.
Qed.

(** X16. [invalidateAllSimilarQuotes] never touches the tables or a key
    that does not begin with [similar:].  When listing the keys fails, or
    the deletion fails, the store is as before.  When both succeed no
    key beginning with [similar:] is left, so the similar quotes of every
    id are a miss afterwards. *)
Theorem invalidateAllSimilarQuotes_effect (f : Faults) (w : World) :
  let w' := invalidateAllSimilarQuotes f w in
  quoteTable w' = quoteTable w
  /\ similarityTable w' = similarityTable w
  /\ (forall key, String.prefix SIMILAR_QUOTES_PREFIX key = false ->
      redis w' !! key = redis w !! key)
  /\ (extraFails f RedisKeys = true -> w' = w)
  /\ (redisFails (baseEnv f) RedisDel = true -> w' = w)
  /\ (extraFails f RedisKeys = false ->
      redisFails (baseEnv f) RedisDel = false ->
      (forall key, String.prefix SIMILAR_QUOTES_PREFIX key = true ->
       redis w' !! key = None)
      /\ (forall env quoteId_, getSimilarQuotes env w' quoteId_ = None)).
Proof.
  intros w'. unfold w', invalidateAllSimilarQuotes.
  set (keys := List.filter (String.prefix SIMILAR_QUOTES_PREFIX)
                           (map fst (map_to_list (redis w)))).
  assert (Hnone :
            extraFails f RedisKeys = false ->
            redisFails (baseEnv f) RedisDel = false ->
            forall key, String.prefix SIMILAR_QUOTES_PREFIX key = true ->
            redis (if extraFails f RedisKeys then w
                   else if (0 <? length keys)%nat
                        then if redisFails (baseEnv f) RedisDel then w
                             else mkWorld (quoteTable w) (similarityTable w)
                                    (fold_right
                                       (fun key store => delete key store)
                                       (redis w) keys)
                        else w) !! key = None).
  { intros -> -> key Hp.
    destruct (0 <? length keys)%nat eqn:Hlen.
    - cbn [redis]. rewrite lookup_delete_all.
      destruct (bool_decide (key ∈ keys)) eqn:Hk; [reflexivity |].
      apply bool_decide_eq_false in Hk.
      destruct (redis w !! key) as [v |] eqn:Hv; [| reflexivity].
      exfalso. apply Hk. apply similar_keys_elem. split; [exact Hp | eauto].
    - destruct (redis w !! key) as [v |] eqn:Hv; [| reflexivity].
      assert (Hk : key ∈ keys)
        by (apply similar_keys_elem; split; [exact Hp | eauto]).
      destruct keys; [now apply elem_of_nil in Hk | discriminate]. }
  split; [| split; [| split; [| split; [| split]]]].
  - destruct (extraFails f RedisKeys), (0 <? length keys)%nat,
      (redisFails (baseEnv f) RedisDel); reflexivity.
  - destruct (extraFails f RedisKeys), (0 <? length keys)%nat,
      (redisFails (baseEnv f) RedisDel); reflexivity.
  - intros key Hp.
    destruct (extraFails f RedisKeys), (0 <? length keys)%nat,
      (redisFails (baseEnv f) RedisDel); try reflexivity.
    cbn [redis]. rewrite lookup_delete_all, bool_decide_eq_false_2;
      [reflexivity |].
    intros Hk. apply similar_keys_elem in Hk as [Hk _]. congruence.
  - now intros ->.
  - intros ->. now destruct (extraFails f RedisKeys), (0 <? length keys)%nat.
  - intros Hkeys Hdel. split; [exact (Hnone Hkeys Hdel) |].
    intros env quoteId_. unfold getSimilarQuotes.
    destruct (redisFails env RedisGet); [reflexivity |].
    now rewrite (Hnone Hkeys Hdel _ (similar_key_prefix quoteId_)).
Qed.

End CacheProperties.

(** ** Retries and fall-back of the external services *)

Section ExternalFacts.

Import ExternalCacheService ExternalAPIClient.
Local Open Scope Q_scope.


Lemma runRand_mapRand {A B} (f : A -> B) (m : Rand A) (draws : nat -> Q) :
  runRand (mapRand f m) draws = f (runRand m draws).
Proof.
  revert draws. induction m as [a | k IH]; intros draws; cbn; [reflexivity |].
  apply IH.
Qed.

Lemma runRand_bindRand {A B} (m : Rand A) (f : A -> Rand B)
    (draws : nat -> Q) :
  runRand (bindRand m f) draws
  = runRand (f (runRand m draws))
            (fun n => draws (drawsUsed m draws + n)%nat).
Proof.
  revert draws. induction m as [a | k IH]; intros draws; cbn.
  - reflexivity.
  - now rewrite IH.
Qed.

(** The requests of a run of [retryWithBackoff], without the delays. *)
Lemma retry_run {A E} (operation : Z -> Attempt A E) (draws : nat -> Q) :
  exists outcome sleeps,
    runRand (retryWithBackoff operation) draws = Some (outcome, sleeps)
    /\ (length sleeps <= 2)%nat
    /\ ((exists e, outcome = Rejected e)
        <-> forall n, (1 <= n <= 3)%Z -> exists e, operation n = Rejected e)
    /\ ((exists e, outcome = Rejected e) -> length sleeps = 2%nat).
Proof.
  assert (Hall : forall e1 e2 e3,
            operation 1%Z = Rejected e1 -> operation 2%Z = Rejected e2 ->
            operation 3%Z = Rejected e3 ->
            forall n, (1 <= n <= 3)%Z -> exists e, operation n = Rejected e).
  { intros e1 e2 e3 H1 H2 H3 n Hn.
    assert (n = 1 \/ n = 2 \/ n = 3)%Z as [-> | [-> | ->]] by lia; eauto. }
  unfold retryWithBackoff. change (Z.to_nat maxRetries) with 3%nat.
  cbn [retryFrom].
  destruct (operation 1%Z) as [r1 | e1] eqn:H1.
  { exists (Response r1), []. cbn [runRand length].
    split; [reflexivity |]. split; [lia |].
    split; [| intros [e He]; discriminate].
    split; [intros [e He]; discriminate |].
    intros H. destruct (H 1%Z ltac:(lia)) as [e He]. congruence. }
  change (maxRetries <=? 1)%Z with false. cbv iota.
  cbn [runRand mapRand retryFrom]. change (1 + 1)%Z with 2%Z.
  destruct (operation 2%Z) as [r2 | e2] eqn:H2.
  { eexists (Response r2), [_]. cbn [runRand mapRand option_map length].
    split; [reflexivity |]. split; [lia |].
    split; [| intros [e He]; discriminate].
    split; [intros [e He]; discriminate |].
    intros H. destruct (H 2%Z ltac:(lia)) as [e He]. congruence. }
  change (maxRetries <=? 2)%Z with false. cbv iota.
  cbn [runRand mapRand retryFrom]. change (2 + 1)%Z with 3%Z.
  destruct (operation 3%Z) as [r3 | e3] eqn:H3.
  - eexists (Response r3), [_; _]. cbn [runRand mapRand option_map length].
    split; [reflexivity |]. split; [lia |].
    split; [| intros [e He]; discriminate].
    split; [intros [e He]; discriminate |].
    intros H. destruct (H 3%Z ltac:(lia)) as [e He]. congruence.
  - change (maxRetries <=? 3)%Z with true. cbv iota.
    eexists (Rejected e3), [_; _]. cbn [runRand mapRand option_map length].
    split; [reflexivity |]. split; [lia |].
    split; [| reflexivity].
    split; [intros _; now apply (Hall e1 e2 e3) | eauto].
Qed.

(** A run of [fetchFrom]. *)
Lemma fetchFrom_run {A E} (cacheKey : string) (convert : A -> ExternalQuote.t)
    (env : Env) (cache : ExternalCache) (operation : Z -> Attempt A E)
    (draws : nat -> Q) :
  exists f,
    runRand (fetchFrom cacheKey convert env cache operation) draws = Some f
    /\ (forall e, fetched f = Throw e -> e = externalApiError)
    /\ (requests f <= 3)%nat
    /\ (isThrow (fetched f) = true
        <-> getExternalApiResponse env cache cacheKey = None
            /\ forall n, (1 <= n <= 3)%Z ->
                         exists e, operation n = Rejected e)
    /\ (isThrow (fetched f) = true -> cacheAfter f = cache /\ requests f = 3%nat)
    /\ (forall cached, getExternalApiResponse env cache cacheKey = Some cached ->
        f = mkFetch (Ok cached) cache O [])
    /\ (forall externalQuote, fetched f = Ok externalQuote ->
        redisFails env RedisSet = false ->
        cacheAfter f !! (EXTERNAL_API_PREFIX ++ cacheKey)%string
        = Some externalQuote)
    /\ (forall key, key <> (EXTERNAL_API_PREFIX ++ cacheKey)%string ->
        cacheAfter f !! key = cache !! key).
Proof.
  unfold fetchFrom.
  destruct (getExternalApiResponse env cache cacheKey) as [cached |] eqn:Hc.
  { eexists. split; [reflexivity |]. cbn [fetched requests cacheAfter isThrow].
    split; [discriminate |]. split; [lia |].
    split; [split; [discriminate | intros [H _]; discriminate] |].
    split; [discriminate |].
    split; [now intros ? [= <-] |].
    split; [| reflexivity].
    intros q [= <-] Hset. unfold getExternalApiResponse in Hc.
    now destruct (redisFails env RedisGet). }
  rewrite runRand_mapRand.
  destruct (retry_run operation draws)
    as (outcome & slept & -> & Hlen & Hiff & Hrej).
  cbn [option_map]. destruct outcome as [data | error].
  - eexists. split; [reflexivity |].
    cbn [fetched requests cacheAfter isThrow].
    split; [discriminate |]. split; [lia |].
    split.
    { split; [discriminate |]. intros [_ H]. apply Hiff in H as [e He].
      discriminate. }
    split; [discriminate |]. split; [discriminate |].
    split.
    + intros q [= <-] Hset. unfold setExternalApiResponse. rewrite Hset.
      apply lookup_insert_eq.
    + intros key Hkey. unfold setExternalApiResponse.
      destruct (redisFails env RedisSet); [reflexivity |].
      now apply lookup_insert_ne.
  - eexists. split; [reflexivity |].
    cbn [fetched requests cacheAfter isThrow].
    assert (Hsl : length slept = 2%nat) by (apply Hrej; eauto).
    split; [now intros e [= <-] |]. split; [lia |].
    split.
    { split; [| reflexivity]. intros _. split; [reflexivity |].
      apply Hiff. eauto. }
    split; [intros _; split; [reflexivity | lia] |].
    split; [discriminate |].
    split; [discriminate | reflexivity].
Qed.

(** A run of [fetchRandomQuote]. *)
Lemma fetchRandomQuote_run {E} (env : Env) (cache : ExternalCache)
    (quotable : Z -> Attempt QuotableResponse.t E)
    (dummyJSON : Z -> Attempt DummyJSONResponse.t E) (draws : nat -> Q) :
  exists f,
    runRand (fetchRandomQuote env cache quotable dummyJSON) draws = Some f
    /\ (forall e, fetched f = Throw e -> e = externalApiError)
    /\ (requests f <= 6)%nat
    /\ (isThrow (fetched f) = true
        <-> getExternalApiResponse env cache "quotable_random" = None
            /\ (forall n, (1 <= n <= 3)%Z ->
                          exists e, quotable n = Rejected e)
            /\ getExternalApiResponse env cache "dummyjson_random" = None
            /\ (forall n, (1 <= n <= 3)%Z ->
                          exists e, dummyJSON n = Rejected e))
    /\ (isThrow (fetched f) = true ->
        cacheAfter f = cache /\ requests f = 6%nat)
    /\ (forall cached,
        getExternalApiResponse env cache "quotable_random" = Some cached ->
        f = mkFetch (Ok cached) cache O [])
    /\ (forall cached,
        getExternalApiResponse env cache "quotable_random" = None ->
        (forall n, (1 <= n <= 3)%Z -> exists e, quotable n = Rejected e) ->
        getExternalApiResponse env cache "dummyjson_random" = Some cached ->
        fetched f = Ok cached /\ cacheAfter f = cache /\ requests f = 3%nat)
    /\ (forall q, fetched f = Ok q ->
        redisFails env RedisGet = false ->
        redisFails env RedisSet = false ->
        getExternalApiResponse env (cacheAfter f) "quotable_random" = Some q
        \/ (getExternalApiResponse env cache "quotable_random" = None
            /\ (forall n, (1 <= n <= 3)%Z ->
                          exists e, quotable n = Rejected e)
            /\ getExternalApiResponse env (cacheAfter f) "quotable_random"
               = None
            /\ getExternalApiResponse env (cacheAfter f) "dummyjson_random"
               = Some q)).
Proof.
  unfold fetchRandomQuote, fetchFromQuotable, fetchFromDummyJSON.
  rewrite runRand_bindRand.
  destruct (fetchFrom_run "quotable_random" fromQuotable env cache quotable
                          draws)
    as (first & -> & Herr1 & Hreq1 & Hthrow1 & Hsame1 & Hcached1 & Hset1 & _).
  destruct (fetched first) as [q1 | e1] eqn:Hf1.
  - exists first. cbn [runRand]. split; [reflexivity |].
    rewrite Hf1. cbn [isThrow]. cbn [isThrow] in Hthrow1.
    split; [discriminate |]. split; [lia |].
    split.
    { split; [discriminate |]. intros (H1 & H2 & _).
      assert (Habs : false = true) by (apply Hthrow1; now split).
      discriminate Habs. }
    split; [discriminate |]. split; [exact Hcached1 |].
    split.
    { intros cached H1 H2 _.
      assert (Habs : false = true) by (apply Hthrow1; now split).
      discriminate Habs. }
    intros q [= <-] Hget Hset. left.
    unfold getExternalApiResponse. rewrite Hget. now apply Hset1.
  - rewrite runRand_mapRand. cbn [isThrow] in Hthrow1, Hsame1.
    destruct (Hsame1 eq_refl) as [Hcache Hthree].
    destruct (proj1 Hthrow1 eq_refl) as [Hmiss1 Hall1].
    rewrite Hcache.
    destruct (fetchFrom_run "dummyjson_random" fromDummyJSON env cache
                dummyJSON
                (fun n => draws (drawsUsed
                   (fetchFrom "quotable_random" fromQuotable env cache
                              quotable) draws + n)%nat))
      as (second & -> & Herr2 & Hreq2 & Hthrow2 & Hsame2 & Hcached2 & Hset2
          & Hframe2).
    eexists. split; [reflexivity |].
    cbn [fetched requests cacheAfter].
    destruct (fetched second) as [q2 | e2] eqn:Hf2;
      cbn [isThrow] in *.
    + split; [discriminate |]. split; [lia |].
      split.
      { split; [discriminate |]. intros (_ & _ & H3 & H4).
        assert (Habs : false = true) by (apply Hthrow2; now split).
        discriminate Habs. }
      split; [discriminate |].
      split; [intros cached Hc; congruence |].
      split.
      { intros cached _ _ Hc. specialize (Hcached2 cached Hc). subst second.
        cbn in Hf2 |- *. injection Hf2 as <-. repeat split. lia. }
      intros q [= <-] Hget Hset. right.
      split; [exact Hmiss1 |]. split; [exact Hall1 |].
      unfold getExternalApiResponse in *. rewrite Hget in *.
      split; [| now apply Hset2].
      rewrite Hframe2; [exact Hmiss1 |].
      cbv [EXTERNAL_API_PREFIX append]. discriminate.
    + destruct (Hsame2 eq_refl) as [Hcache2 Hthree2].
      destruct (proj1 Hthrow2 eq_refl) as [Hmiss2 Hall2].
      split; [now intros e [= <-] |]. split; [lia |].
      split; [split; [intros _; now repeat split | reflexivity] |].
      split; [intros _; split; [exact Hcache2 | lia] |].
      split; [intros cached Hc; congruence |].
      split; [intros cached _ _ Hc; congruence | discriminate].
Qed.

End ExternalFacts.

Section ExternalProperties.

Import ExternalCacheService ExternalAPIClient.
Local Open Scope Q_scope.



(** X18. [fetchRandomQuote] always returns, after at most six requests.
    It throws only EXTERNAL_API_ERROR with status 503, and exactly when
    neither service has a cached response and all three requests to each
    are rejected; then it made all six requests and the cache is as
    before.  When quotable.io has a cached response, that response is
    returned without a request and without touching the cache. *)
Theorem fetchRandomQuote_fallback {E} (env : Env) (cache : ExternalCache)
    (quotable : Z -> Attempt QuotableResponse.t E)
    (dummyJSON : Z -> Attempt DummyJSONResponse.t E) (draws : nat -> Q) :
  exists f,
    runRand (fetchRandomQuote env cache quotable dummyJSON) draws = Some f
    /\ (forall e, fetched f = Throw e -> e = externalApiError)
    /\ (requests f <= 6)%nat
    /\ (isThrow (fetched f) = true
        <-> getExternalApiResponse env cache "quotable_random" = None
            /\ (forall n, (1 <= n <= 3)%Z ->
                          exists e, quotable n = Rejected e)
            /\ getExternalApiResponse env cache "dummyjson_random" = None
            /\ (forall n, (1 <= n <= 3)%Z ->
                          exists e, dummyJSON n = Rejected e))
    /\ (isThrow (fetched f) = true ->
        cacheAfter f = cache /\ requests f = 6%nat)
    /\ (forall cached,
        getExternalApiResponse env cache "quotable_random" = Some cached ->
        f = mkFetch (Ok cached) cache O []).
Proof.
  destruct (fetchRandomQuote_run env cache quotable dummyJSON draws)
    as (f & Hrun & Herr & Hreq & Hthrow & Hsame & Hcached & _).
  exists f. repeat (split; [assumption |]). exact Hcached.
Qed.

(** X19. With Redis working, a fetch that succeeded protects the next
    one: whatever the services then do, the next [fetchRandomQuote] on
    the cache it left returns a quote.  It returns the same quote when
    quotable.io rejects its requests, and the same quote without any
    request when the first answer came from quotable.io, from its cache or
    from one of its three requests (entries stay until they expire, which
    is not modelled). *)
Theorem fetchRandomQuote_repeat {E} (env : Env) (cache : ExternalCache)
    (quotable quotable' : Z -> Attempt QuotableResponse.t E)
    (dummyJSON dummyJSON' : Z -> Attempt DummyJSONResponse.t E)
    (draws draws' : nat -> Q) (f : Fetch) (q : ExternalQuote.t) :
  redisFails env RedisGet = false ->
  redisFails env RedisSet = false ->
  runRand (fetchRandomQuote env cache quotable dummyJSON) draws = Some f ->
  fetched f = Ok q ->
  exists f',
    runRand (fetchRandomQuote env (cacheAfter f) quotable' dummyJSON') draws'
    = Some f'
    /\ isThrow (fetched f') = false
    /\ ((forall n, (1 <= n <= 3)%Z -> exists e, quotable' n = Rejected e) ->
        fetched f' = Ok q /\ cacheAfter f' = cacheAfter f)
    /\ (getExternalApiResponse env cache "quotable_random" <> None
        \/ (exists n data, (1 <= n <= 3)%Z /\ quotable n = Response data) ->
        f' = mkFetch (Ok q) (cacheAfter f) O []).
Proof.
  intros Hget Hset Hrun Hq.
  destruct (fetchRandomQuote_run env cache quotable dummyJSON draws)
    as (f0 & Hrun0 & _ & _ & _ & _ & _ & _ & Hafter).
  rewrite Hrun in Hrun0. injection Hrun0 as <-.
  specialize (Hafter q Hq Hget Hset).
  destruct (fetchRandomQuote_run env (cacheAfter f) quotable' dummyJSON'
                                 draws')
    as (f' & Hrun' & _ & _ & Hthrow' & _ & Hcached' & Hdummy' & _).
  exists f'. split; [exact Hrun' |].
  destruct Hafter as [Hquot | (Hmiss & Hall & Hmiss' & Hdum)].
  - specialize (Hcached' q Hquot). subst f'. cbn.
    split; [reflexivity |]. split; [now split | reflexivity].
  - split.
    { destruct (isThrow (fetched f')); [| reflexivity].
      destruct (proj1 Hthrow' eq_refl) as (_ & _ & Habs & _). congruence. }
    split.
    + intros Hall'. destruct (Hdummy' q Hmiss' Hall' Hdum) as (H1 & H2 & _).
      now split.
    + intros [Hc | (n & data & Hn & Hresp)].
      * contradiction.
      * destruct (Hall n Hn) as [e He]. congruence.
Qed.

Lemma fetchRandomQuote_repeat_witness :
  exists f',
    runRand
      (fetchRandomQuote Claimed.reliable
         (<[("external:quotable_random")%string :=
              fromQuotable (QuotableResponse.mk "a1" "Stay hungry" "Jobs" [])]>
            ∅)
         (fun _ => @Rejected QuotableResponse.t unit tt)
         (fun _ => @Rejected DummyJSONResponse.t unit tt))
      (fun _ => 0)
    = Some f'
    /\ isThrow (fetched f') = false.
Proof.
  destruct (fetchRandomQuote_repeat Claimed.reliable ∅
              (fun _ => Response (QuotableResponse.mk "a1" "Stay hungry"
                                                      "Jobs" []))
              (fun _ => @Rejected QuotableResponse.t unit tt)
              (fun _ => @Rejected DummyJSONResponse.t unit tt)
              (fun _ => @Rejected DummyJSONResponse.t unit tt)
              (fun _ => 0) (fun _ => 0)
              (mkFetch
                 (Ok (fromQuotable (QuotableResponse.mk "a1" "Stay hungry"
                                                        "Jobs" [])))
                 (<[("external:quotable_random")%string :=
                      fromQuotable (QuotableResponse.mk "a1" "Stay hungry"
                                                        "Jobs" [])]> ∅)
                 1 [])
              (fromQuotable (QuotableResponse.mk "a1" "Stay hungry"
                                                 "Jobs" [])))
    as (f' & Hrun & Hok & _).
  - reflexivity.
  - reflexivity.
  - reflexivity.
  - reflexivity.
  - exists f'. split; [exact Hrun | exact Hok].
Defined.

End ExternalProperties.

(** ** The sliding window of RateLimitService *)

Section RateLimitFacts.

Import RateLimitService.
Local Open Scope Z_scope.

Lemma keyGenerator_inj (a b : string) :
  keyGenerator a = keyGenerator b -> a = b.
Proof. cbv [keyGenerator append]. now intros [= H]. Qed.

Lemma members_insert (store : SortedSets) (key : string) (s : gset Z) :
  members (<[key := s]> store) key = s.
Proof. unfold members. now rewrite lookup_insert_eq. Qed.

Lemma members_insert_ne (store : SortedSets) (key key' : string) (s : gset Z) :
  key <> key' -> members (<[key := s]> store) key' = members store key'.
Proof. intros H. unfold members. now rewrite lookup_insert_ne. Qed.

Lemma incrementCounter_members (store : SortedSets) (identifier : string)
    (opts : RateLimitOptions) (now : Z) :
  members (incrementCounter false store identifier opts now)
          (keyGenerator identifier)
  = filter (fun t => ~ (0 <= t <= now - windowMs opts))
           (members store (keyGenerator identifier)) ∪ {[now]}.
Proof. unfold incrementCounter. apply members_insert. Qed.

Lemma last_cons_default (x : Z) (l : list Z) (d d' : Z) :
  List.last (x :: l) d = List.last (x :: l) d'.
Proof.
  revert x. induction l as [| y l IH]; intros x; [reflexivity |].
  change (List.last (y :: l) d = List.last (y :: l) d'). apply IH.
Qed.

Lemma last_cons (x : Z) (l : list Z) (d : Z) :
  List.last (x :: l) d = List.last l x.
Proof.
  destruct l as [| y l]; [reflexivity |].
  change (List.last (y :: l) d = List.last (y :: l) x).
  apply last_cons_default.
Qed.

(** The entries after the requests of [times]. *)
Lemma countAll_members (identifier : string) (opts : RateLimitOptions)
    (times : list Z) :
  0 < windowMs opts ->
  forall (store : SortedSets) (seen : gset Z) (T : Z),
    StronglySorted Z.le (T :: times) ->
    0 <= T ->
    members store (keyGenerator identifier)
    = filter (fun t => T - windowMs opts < t) seen ->
    (forall t, t ∈ seen -> 0 <= t <= T) ->
    members (fold_left
               (fun store now =>
                  incrementCounter false store identifier opts now)
               times store)
            (keyGenerator identifier)
    = filter (fun t => List.last times T - windowMs opts < t)
             (seen ∪ list_to_set times).
Proof.
  intros Hw. induction times as [| now times IH];
    intros store seen T Hsorted HT Hinv Hseen.
  - cbn [fold_left List.last list_to_set]. rewrite Hinv.
    now rewrite (right_id_L ∅ (∪)).
  - cbn [fold_left]. apply StronglySorted_inv in Hsorted as [Hsorted Hall].
    apply Forall_cons in Hall as [HTnow Hall].
    assert (Hsorted' : StronglySorted Z.le (now :: times)) by exact Hsorted.
    rewrite (IH _ (seen ∪ {[now]}) now Hsorted').
    + rewrite last_cons. cbn [list_to_set].
      now rewrite (assoc_L (∪)).
    + lia.
    + rewrite incrementCounter_members, Hinv. apply set_eq. intros t.
      rewrite !elem_of_union, !elem_of_filter, elem_of_union,
        !elem_of_singleton.
      split.
      * intros [[Hrem [Hlt Hin]] | ->]; [| split; [lia | now right]].
        specialize (Hseen t Hin). split; [lia | now left].
      * intros [Hlt [Hin | ->]]; [| now right].
        left. specialize (Hseen t Hin). repeat split; [lia | lia | exact Hin].
    + intros t Ht. apply elem_of_union in Ht as [Ht | Ht].
      * specialize (Hseen t Ht). lia.
      * apply elem_of_singleton in Ht as ->. lia.
Qed.

End RateLimitFacts.

Section RateLimitMoreFacts.

Import RateLimitService.
Local Open Scope Z_scope.

Lemma countAll_frame (identifier other : string) (opts : RateLimitOptions)
    (times : list Z) (store : SortedSets) :
  other <> identifier ->
  members (fold_left
             (fun store now =>
                incrementCounter false store identifier opts now)
             times store)
          (keyGenerator other)
  = members store (keyGenerator other).
Proof.
  intros Hne. revert store.
  induction times as [| now times IH]; intros store; [reflexivity |].
  cbn [fold_left]. rewrite IH. unfold incrementCounter.
  apply members_insert_ne. intros E. apply keyGenerator_inj in E. congruence.
Qed.

Lemma getCurrentCount_nonneg (redisDown : bool) (store : SortedSets)
    (key : string) (windowStart : Z) :
  0 <= getCurrentCount redisDown store key windowStart.
Proof. unfold getCurrentCount, zCount. destruct redisDown; lia. Qed.

Lemma checkRateLimit_throws (redisDown : bool) (store : SortedSets)
    (identifier : string) (opts : RateLimitOptions) (now later : Z) :
  isThrow (checkRateLimit redisDown store identifier opts now later) = true
  <-> max opts <= getCurrentCount redisDown store (keyGenerator identifier)
                                  (now - windowMs opts).
Proof.
  unfold checkRateLimit.
  destruct (Z.leb_spec (max opts)
              (getCurrentCount redisDown store (keyGenerator identifier)
                               (now - windowMs opts))) as [H | H];
    cbn [isThrow]; split; intros; try lia; try discriminate; reflexivity.
Qed.

End RateLimitMoreFacts.

Section RateLimitProperties.

Import RateLimitService.
Local Open Scope Z_scope.

(** X20. The sliding window of [RateLimitService]: for a client without
    entries whose requests are counted by [incrementCounter] at
    non-decreasing times, the sorted set holds afterwards the distinct
    times less than [windowMs] before the last one, requests of the same
    millisecond being one entry; a [checkRateLimit] made then, with Redis
    answering, throws exactly when [max] or more of these entries are at
    most [windowMs] old; the entries of other clients are untouched. *)
Theorem sliding_window_limit (store : SortedSets) (identifier : string)
    (opts : RateLimitOptions) (times : list Z) (now later : Z) :
  0 < windowMs opts ->
  StronglySorted Z.le times ->
  Forall (fun t => 0 <= t) times ->
  List.last times 0 <= now ->
  members store (keyGenerator identifier) = ∅ ->
  let T := List.last times 0 in
  let store' :=
    fold_left (fun store now =>
                 incrementCounter false store identifier opts now)
              times store in
  let counted : gset Z :=
    filter (fun t => now - windowMs opts <= t /\ T - windowMs opts < t)
           (list_to_set times) in
  members store' (keyGenerator identifier)
  = filter (fun t => T - windowMs opts < t) (list_to_set times)
  /\ (isThrow (checkRateLimit false store' identifier opts now later) = true
      <-> max opts <= Z.of_nat (size counted))
  /\ (T < now ->
      counted = filter (fun t => now - windowMs opts <= t) (list_to_set times))
  /\ (forall other, other <> identifier ->
      members store' (keyGenerator other) = members store (keyGenerator other)).
Proof.
  intros Hw Hsorted Hpos Hnow Hempty T store' counted.
  assert (Hmembers :
            members store' (keyGenerator identifier)
            = filter (fun t => T - windowMs opts < t) (list_to_set times)).
  { unfold store', T.
    rewrite (countAll_members identifier opts times Hw store ∅ 0).
    - now rewrite (left_id_L ∅ (∪)).
    - constructor; [exact Hsorted | exact Hpos].
    - lia.
    - rewrite Hempty. apply set_eq. intros t.
      rewrite elem_of_filter, elem_of_empty. tauto.
    - intros t Ht. now apply elem_of_empty in Ht. }
  split; [exact Hmembers |].
  split; [| split].
  - rewrite checkRateLimit_throws. unfold getCurrentCount, zCount.
    rewrite Hmembers.
    replace (filter (fun t => now - windowMs opts <= t)
               (filter (fun t => T - windowMs opts < t)
                       (list_to_set times : gset Z)))
      with counted; [reflexivity |].
    unfold counted. apply set_eq. intros t.
    rewrite !elem_of_filter. tauto.
  - intros HT. unfold counted. apply set_eq. intros t.
    rewrite !elem_of_filter. split; [tauto |].
    intros [H1 H2]. repeat split; [exact H1 | lia | exact H2].
  - intros other Hne. now apply countAll_frame.
Qed.

Lemma sliding_window_limit_witness :
  members
    (fold_left
       (fun store now =>
          incrementCounter false store "10.0.0.1"
                           (mkRateLimitOptions 1000 2) now)
       [100; 100; 600; 1500] ∅)
    (keyGenerator "10.0.0.1")
  = filter (fun t => 1500 - 1000 < t) (list_to_set [100; 100; 600; 1500]).
Proof.
  refine (proj1 (sliding_window_limit ∅ "10.0.0.1"%string
                   (mkRateLimitOptions 1000 2) [100; 100; 600; 1500]
                   1550 1550 _ _ _ _ _)).
  - reflexivity.
  - repeat constructor; cbn; lia.
  - repeat constructor; cbn; lia.
  - cbn. lia.
  - reflexivity.
Defined.

(** X21. [checkRateLimit] throws exactly when the hits counted reach
    [max], always RATE_LIMIT_EXCEEDED with status 429; when it returns,
    it returns what [getRateLimitStatus] reports, with a positive number
    of remaining hits.  [getRateLimitStatus] never throws and reports no
    remaining hit exactly when a check would throw.  With Redis down no
    hit is counted, so a check passes if and only if [max] is positive.
    After [resetRateLimit] a check passes for every positive [max], and
    other clients keep their entries.  Counting twice at the same
    millisecond is counting once. *)
Theorem rateLimit_check_and_reset (redisDown : bool) (store : SortedSets)
    (identifier : string) (opts : RateLimitOptions) (now later : Z) :
  let hits :=
    getCurrentCount redisDown store (keyGenerator identifier)
                    (now - windowMs opts) in
  let outcome := checkRateLimit redisDown store identifier opts now later in
  let status := getRateLimitStatus redisDown store identifier opts now later in
  0 <= hits
  /\ (isThrow outcome = true <-> max opts <= hits)
  /\ (forall e, outcome = Throw e -> e = rateLimitExceeded)
  /\ (forall info, outcome = Ok info ->
      info = status
      /\ totalHitsRemaining info = max opts - hits
      /\ 0 < totalHitsRemaining info)
  /\ (totalHits status = hits
      /\ 0 <= totalHitsRemaining status
      /\ (totalHitsRemaining status = 0 <-> max opts <= hits))
  /\ (redisDown = true ->
      hits = 0 /\ (isThrow outcome = false <-> 0 < max opts))
  /\ (forall now' later', 0 < max opts ->
      isThrow (checkRateLimit false (resetRateLimit false store identifier)
                              identifier opts now' later') = false)
  /\ (forall other, other <> identifier ->
      members (resetRateLimit false store identifier) (keyGenerator other)
      = members store (keyGenerator other))
  /\ (0 < windowMs opts ->
      incrementCounter false
        (incrementCounter false store identifier opts now) identifier opts now
      = incrementCounter false store identifier opts now).
Proof.
  intros hits outcome status.
  pose proof (getCurrentCount_nonneg redisDown store (keyGenerator identifier)
                (now - windowMs opts)) as Hhits.
  fold hits in Hhits.
  split; [exact Hhits |].
  split; [apply checkRateLimit_throws |].
  split.
  { unfold outcome, checkRateLimit. fold hits.
    destruct (max opts <=? hits); [now intros e [= <-] | discriminate]. }
  split.
  { unfold outcome, status, checkRateLimit, getRateLimitStatus. fold hits.
    destruct (Z.leb_spec (max opts) hits) as [H | H]; [discriminate |].
    intros info [= <-]. cbn [totalHitsRemaining]. repeat split; lia. }
  split.
  { unfold status, getRateLimitStatus. fold hits.
    cbn [totalHits totalHitsRemaining]. repeat split; lia. }
  split.
  { intros ->. assert (Hz : hits = 0) by reflexivity.
    split; [exact Hz |].
    pose proof (checkRateLimit_throws true store identifier opts now later)
      as Hthrow.
    fold outcome hits in Hthrow. rewrite Hz in Hthrow.
    split.
    - intros Hf. destruct (Z.ltb_spec 0 (max opts)) as [H | H]; [exact H |].
      assert (Habs : isThrow outcome = true) by (apply Hthrow; lia).
      congruence.
    - intros Hm. destruct (isThrow outcome) eqn:Eo; [| reflexivity].
      assert (max opts <= 0) by (now apply Hthrow). lia. }
  split.
  { intros now' later' Hmax.
    destruct (isThrow _) eqn:Hthrow; [| reflexivity].
    apply checkRateLimit_throws in Hthrow.
    unfold getCurrentCount, zCount, members, resetRateLimit in Hthrow.
    rewrite lookup_delete_eq in Hthrow. cbn [default] in Hthrow.
    rewrite filter_empty_L in Hthrow; [| apply _].
    rewrite size_empty in Hthrow. lia. }
  split.
  { intros other Hne. unfold resetRateLimit, members.
    rewrite lookup_delete_ne; [reflexivity |].
    intros E. apply keyGenerator_inj in E. congruence. }
  intros Hw. unfold incrementCounter at 1.
  rewrite incrementCounter_members. unfold incrementCounter.
  rewrite insert_insert_eq. f_equal.
  apply set_eq. intros t.
  rewrite !elem_of_union, !elem_of_filter, !elem_of_union, !elem_of_filter,
    !elem_of_singleton.
  split.
  - intros [[H1 [[H2 H3] | ->]] | ->]; [left | right | right]; tauto.
  - intros [[H1 H2] | ->]; [| now right]. left. tauto.
Qed.

End RateLimitProperties.

(** ** The random quote of the service *)

Section RandomFacts.

Import QuoteRepository QuoteRepositoryMore.
Local Open Scope Q_scope.






End RandomFacts.

Section RandomProperties.

Import QuoteRepository QuoteRepositoryMore.
Import ExternalTransformers QuoteServiceRandom.
Local Open Scope Q_scope.

(** X22. [transformExternalQuoteInterface] returns a quote exactly when
    [_id] and [content] are both non-empty, or [id] is a non-zero number
    and [quote] is non-empty; otherwise it throws VALIDATION_ERROR with
    status 400.  The quote has the new id, no likes, both dates at the
    same time, the author as given, the tags given or none, a non-empty
    text and never the source `internal'; the quotable form takes
    precedence.  So a response of dummyjson.com with the id 0, or one of
    either service with an empty text, is rejected. *)
Theorem transformExternalQuoteInterface_shape (uuid : string) (now : Z)
    (externalQuote : ExternalQuote.t) :
  let outcome := transformExternalQuoteInterface uuid now externalQuote in
  let quotableForm :=
    truthyString (ExternalQuote._id externalQuote)
    && truthyString (ExternalQuote.content externalQuote) in
  let dummyForm :=
    truthyNumber (ExternalQuote.id externalQuote)
    && truthyString (ExternalQuote.quote externalQuote) in
  (isThrow outcome = false <-> quotableForm || dummyForm = true)
  /\ (forall e, outcome = Throw e -> e = validationError)
  /\ (forall q, outcome = Ok q ->
      id q = uuid /\ likes q = 0%Z
      /\ createdAt q = now /\ updatedAt q = now
      /\ author q = ExternalQuote.author externalQuote
      /\ tags q = Some (default [] (ExternalQuote.tags externalQuote))
      /\ text q <> EmptyString
      /\ (if quotableForm
          then source q = quotable
               /\ Some (text q) = ExternalQuote.content externalQuote
          else source q = dummyjson
               /\ Some (text q) = ExternalQuote.quote externalQuote))
  /\ (forall data,
      isThrow (transformExternalQuoteInterface
                 uuid now (ExternalAPIClient.fromQuotable data)) = false
      <-> QuotableResponse._id data <> EmptyString
          /\ QuotableResponse.content data <> EmptyString)
  /\ (forall data,
      isThrow (transformExternalQuoteInterface
                 uuid now (ExternalAPIClient.fromDummyJSON data)) = false
      <-> DummyJSONResponse.id data <> 0%Z
          /\ DummyJSONResponse.quote data <> EmptyString).
Proof.
  intros outcome quotableForm dummyForm.
  assert (Htruthy : forall s, truthyString (Some s) = true <-> s <> EmptyString).
  { intros s. destruct s; cbn; split; congruence. }
  split; [| split; [| split; [| split]]].
  - unfold outcome, transformExternalQuoteInterface.
    fold quotableForm dummyForm.
    destruct quotableForm, dummyForm; cbn; split; congruence.
  - unfold outcome, transformExternalQuoteInterface.
    fold quotableForm dummyForm.
    destruct quotableForm, dummyForm; cbn; congruence.
  - unfold outcome, transformExternalQuoteInterface.
    fold quotableForm dummyForm.
    destruct quotableForm eqn:Hq.
    + intros q [= <-]. cbn. repeat split.
      * unfold quotableForm in Hq. apply andb_true_iff in Hq as [_ Hq].
        destruct (ExternalQuote.content externalQuote) as [s |];
          [| discriminate]. cbn. now apply Htruthy.
      * unfold quotableForm in Hq. apply andb_true_iff in Hq as [_ Hq].
        now destruct (ExternalQuote.content externalQuote).
    + destruct dummyForm eqn:Hd; [| discriminate].
      intros q [= <-]. cbn. repeat split.
      * unfold dummyForm in Hd. apply andb_true_iff in Hd as [_ Hd].
        destruct (ExternalQuote.quote externalQuote) as [s |];
          [| discriminate]. cbn. now apply Htruthy.
      * unfold dummyForm in Hd. apply andb_true_iff in Hd as [_ Hd].
        now destruct (ExternalQuote.quote externalQuote).
  - intros data. unfold transformExternalQuoteInterface,
      ExternalAPIClient.fromQuotable. cbn.
    rewrite <- !Htruthy.
    destruct (QuotableResponse._id data), (QuotableResponse.content data);
      cbn; intuition congruence.
  - intros data. unfold transformExternalQuoteInterface,
      ExternalAPIClient.fromDummyJSON. cbn.
    rewrite <- Htruthy.
    destruct (Z.eqb_spec (DummyJSONResponse.id data) 0) as [E | E];
      destruct (DummyJSONResponse.quote data); cbn; intuition congruence.
Qed.


End RandomProperties.

(** ** The counter of the rate-limiting middleware *)

Section LimiterFacts.

Import RedisRateLimiter Workload.
Local Open Scope Z_scope.

Lemma step_live (key : string) (opts : RateLimitOptions)
    (served : list (Z * bool)) (store : Counters) (now : Z) (c : Z) :
  0 < windowInSeconds opts ->
  liveValue store key now = c ->
  step key opts (served, store) now
  = ((served ++ [told opts (c + 1)])%list,
     <[key := (c + 1, now + windowInSeconds opts * 1000)]> store).
Proof.
  intros Hs Hc. unfold step, rateLimitMiddleware, checkRateLimit.
  rewrite Hc. apply Z.ltb_lt in Hs. rewrite Hs.
  cbn [limit totalHits]. unfold told.
  destruct (max opts <? c + 1); reflexivity.
Qed.

Lemma serve_from (key : string) (opts : RateLimitOptions) (times : list Z) :
  0 < windowInSeconds opts ->
  forall (served : list (Z * bool)) (store : Counters) (c t : Z),
    store !! key = Some (c, t + windowInSeconds opts * 1000) ->
    Sorted (fun a b => a <= b < a + windowInSeconds opts * 1000)
           (t :: times) ->
    let final := fold_left (step key opts) times (served, store) in
    fst final
    = (served
       ++ map (fun i => told opts (c + 1 + Z.of_nat i))
              (seq 0 (length times)))%list
    /\ snd final !! key
       = Some (c + Z.of_nat (length times),
               List.last times t + windowInSeconds opts * 1000).
Proof.
  intros Hs. induction times as [| now times IH];
    intros served store c t Hkey Hsorted.
  - cbn. rewrite app_nil_r, Z.add_0_r. now split.
  - apply Sorted_inv in Hsorted as [Hsorted Hhd].
    apply HdRel_inv in Hhd.
    cbn [fold_left].
    rewrite (step_live key opts served store now c Hs).
    2:{ unfold liveValue. rewrite Hkey.
        destruct (Z.ltb_spec now (t + windowInSeconds opts * 1000));
          [reflexivity | lia]. }
    destruct (IH (served ++ [told opts (c + 1)])%list
                 (<[key := (c + 1, now + windowInSeconds opts * 1000)]> store)
                 (c + 1) now) as [Hfst Hsnd].
    + apply lookup_insert_eq.
    + exact Hsorted.
    + cbv zeta. split.
      * rewrite Hfst, <- app_assoc. f_equal.
        cbn [length seq map app]. f_equal.
        { f_equal. lia. }
        rewrite <- seq_shift, map_map. apply map_ext. intros i.
        f_equal. lia.
      * rewrite Hsnd. f_equal. f_equal.
        -- cbn [length]. lia.
        -- f_equal. symmetry. destruct times as [| y l]; [reflexivity |].
           clear. revert y. induction l as [| z l IHl]; intros y;
             [reflexivity |].
           change (List.last (z :: l) t = List.last (z :: l) now).
           apply IHl.
Qed.

End LimiterFacts.

Section LimiterProperties.

Import RedisRateLimiter Workload.
Local Open Scope Z_scope.

(** X24. The counter of the middleware restarts its window at every
    request.  For a key without a counter and requests that follow one
    another by less than the window (in whole seconds), refused ones
    included, request number k is told [max(0, max - k)] remaining hits
    and is refused exactly when k exceeds [max]: once refused, a client
    that keeps asking stays refused.  A request that comes a whole window
    or more after the last one is counted as the first again. *)
Theorem limiter_window_restarts (store : Counters) (key : string)
    (opts : RateLimitOptions) (times : list Z) :
  0 < window opts ->
  store !! key = None ->
  Sorted (fun a b => a <= b < a + windowInSeconds opts * 1000) times ->
  fst (serve store key opts times)
  = map (fun i => told opts (Z.of_nat i + 1)) (seq 0 (length times))
  /\ (forall now,
      List.last times 0 + windowInSeconds opts * 1000 <= now ->
      fst (serve (snd (serve store key opts times)) key opts [now])
      = [told opts 1]).
Proof.
  intros Hw Hnone Hsorted.
  assert (Hs : 0 < windowInSeconds opts).
  { unfold windowInSeconds.
    assert (- window opts / 1000 < 0); [| lia].
    apply Z.div_lt_upper_bound; lia. }
  destruct times as [| t0 times].
  { split; [reflexivity |]. intros now _. unfold serve. cbn [fold_left snd].
    rewrite (step_live key opts [] store now 0 Hs); [reflexivity |].
    unfold liveValue. now rewrite Hnone. }
  unfold serve. cbn [fold_left].
  rewrite (step_live key opts [] store t0 0 Hs)
    by (unfold liveValue; now rewrite Hnone).
  cbn [app].
  destruct (serve_from key opts times Hs [told opts (0 + 1)]
              (<[key := (0 + 1, t0 + windowInSeconds opts * 1000)]> store)
              (0 + 1) t0) as [Hfst Hsnd].
  - apply lookup_insert_eq.
  - exact Hsorted.
  - cbv zeta in Hfst, Hsnd. split.
    + rewrite Hfst. cbn [length seq map app]. f_equal.
      rewrite <- seq_shift, map_map. apply map_ext. intros i.
      f_equal. lia.
    + intros now Hnow.
      set (final := fold_left (step key opts) times _) in *.
      cbn [fold_left].
      rewrite (step_live key opts [] (snd final) now 0 Hs); [reflexivity |].
      unfold liveValue. rewrite Hsnd.
      replace (List.last (t0 :: times) 0) with (List.last times t0) in Hnow.
      * destruct (Z.ltb_spec now
                    (List.last times t0 + windowInSeconds opts * 1000));
          [lia | reflexivity].
      * destruct times as [| y l]; [reflexivity |].
        clear. revert y. induction l as [| z l IHl]; intros y;
          [reflexivity |].
        change (List.last (z :: l) t0 = List.last (z :: l) 0).
        apply IHl.
Qed.

Lemma limiter_window_restarts_witness :
  fst (serve ∅ "rate_limit:10.0.0.1" (mkOptions 2 60000)
             [0; 59000; 118000; 177000])
  = [(1, false); (0, false); (0, true); (0, true)].
Proof.
  refine (proj1 (limiter_window_restarts ∅ "rate_limit:10.0.0.1"%string
                   (mkOptions 2 60000) [0; 59000; 118000; 177000] _ _ _)).
  - reflexivity.
  - reflexivity.
  - repeat constructor; cbn; lia.
Defined.

End LimiterProperties.
